(** * Masquerade: the frame masking and batch processing pipeline

    A shallow embedding of the server side of the repository
    ([server/services/videoProcessor.ts], [server/services/frameExtractor.ts],
    [server/storage.ts]) and the properties its specification states about it.

    Conventions of the embedding.
    - A JavaScript [number] is an exact rational ([Q]) wherever the code's
      arithmetic is exact on the values it meets (pixel counts, byte values,
      products of a byte with 1.5) or the property does not depend on
      rounding.  The coordinate transform is written once over an abstract
      number type [JsNum] and instantiated both at [Q] and at IEEE binary64
      ([PrimFloat.float]), the latter being what the engine computes.
    - A [Buffer] or typed array is a [list Z] of element values; reads out of
      range give [undefined] ([None]), writes out of range are dropped.
    - A call that may throw returns [Exc]; [try]/[catch] is [catch].
    - The raster primitive (Sharp), the decoder and the file system are
      collaborators: they appear as records of functions the pipeline is
      parameterised by.
    - A stored record is a finite map from field names to values, object
      spread is the union that prefers the later object, and a [Map] whose
      order of insertion shows is an association list.  The store of the
      jobs is passed explicitly. *)

From Stdlib Require Import ZArith QArith Qround Qminmax Lia Lqa List String Ascii.
From Stdlib Require Import Permutation Sorted Floats.
From Stdlib Require Import DecimalString DecimalNat.
From stdpp Require Import base list sorting gmap strings.

Local Open Scope Z_scope.

(** ** JavaScript values *)

(** The arithmetic the coordinate transform needs from a [number]. *)
Class JsNum (num : Type) : Type := {
  nadd : num -> num -> num;
  nmul : num -> num -> num;
  ndiv : num -> num -> num;
  nneg : num -> num;
  nzero : num;
  ntruthy : num -> bool
}.

(** Exact arithmetic. *)
#[export] Instance exactNum : JsNum Q := {
  nadd := Qplus;
  nmul := Qmult;
  ndiv := Qdiv;
  nneg := Qopp;
  nzero := 0%Q;
  ntruthy := fun q => negb (Qeq_bool q 0)
}.

(** IEEE 754 binary64, the arithmetic of the engine: a number is falsy when
    it is [0], [-0] or [NaN]. *)
#[export] Instance binary64 : JsNum float := {
  nadd := PrimFloat.add;
  nmul := PrimFloat.mul;
  ndiv := PrimFloat.div;
  nneg := PrimFloat.opp;
  nzero := PrimFloat.zero;
  ntruthy := fun x => negb (PrimFloat.eqb x PrimFloat.zero) && PrimFloat.eqb x x
}.

(** A binary64 value that is neither an infinity nor [NaN]. *)
Definition finiteNumber (x : float) : bool :=
  match Prim2SF x with
  | S754_zero _ | S754_finite _ _ _ => true
  | _ => false
  end.

(** [a || b] on an optional number. *)
Definition orElse {num} `{JsNum num} (a : option num) (b : num) : num :=
  match a with
  | Some x => if ntruthy x then x else b
  | None => b
  end.

(** Results of calls that may throw. *)
Inductive Exc (A : Type) : Type :=
| Ok (a : A)
| Throw (msg : string).
Arguments Ok {A} a.
Arguments Throw {A} msg.

#[export] Instance Exc_ret : MRet Exc := fun A a => Ok a.
#[export] Instance Exc_bind : MBind Exc := fun A B f c =>
  match c with
  | Ok a => f a
  | Throw msg => Throw msg
  end.

(** [try { c } catch (error) { h error }] *)
Definition catch {A} (c : Exc A) (h : string -> A) : A :=
  match c with
  | Ok a => a
  | Throw msg => h msg
  end.

Definition isOk {A} (c : Exc A) : bool :=
  match c with
  | Ok _ => true
  | Throw _ => false
  end.

(** [x > y] and [x >= y] on rationals, as booleans. *)
Definition Qgtb (x y : Q) : bool := negb (Qle_bool x y).
Definition Qgeb (x y : Q) : bool := Qle_bool y x.
Definition Qltb (x y : Q) : bool := negb (Qle_bool y x).

(** [Math.round]: the nearest integer, halves upwards. *)
Definition mathRound (q : Q) : Z := Qfloor (q + (1 # 2)).

(** A store into a [Uint8Array] or [Buffer] keeps the value modulo 256. *)
Definition toUint8 (z : Z) : Z := z mod 256.

(** [buf[i] || 0] *)
Definition readOr0 (buf : list Z) (i : nat) : Z := default 0 (buf !! i).

(** [Buffer.alloc(n)] *)
Definition alloc (n : nat) : list Z := replicate n 0.

(** ** The mask ([shared/schema.ts]) *)

Inductive MaskType : Type := rectangle | circle | polygon | freeform.

Inductive Coordinates (num : Type) : Type :=
| CoordArray (l : list num)
| CoordObject (x y width height : num).
Arguments CoordArray {num} l.
Arguments CoordObject {num} x y width height.

Record Dimensions (num : Type) : Type := {
  dimWidth : num;
  dimHeight : num
}.
Arguments dimWidth {num} d.
Arguments dimHeight {num} d.

Record ImageDisplayInfo (num : Type) : Type := {
  displayScale : num;
  displayOffsetX : num;
  displayOffsetY : num
}.
Arguments displayScale {num} i.
Arguments displayOffsetX {num} i.
Arguments displayOffsetY {num} i.

Record MaskData (num : Type) : Type := {
  maskType : MaskType;
  coordinates : Coordinates num;
  opacity : num;
  canvasWidth : option num;
  canvasHeight : option num;
  canvasDataUrl : option string;
  originalCanvasDimensions : option (Dimensions num);
  imageDimensions : option (Dimensions num);
  imageDisplayInfo : option (ImageDisplayInfo num)
}.
Arguments maskType {num} m.
Arguments coordinates {num} m.
Arguments opacity {num} m.
Arguments canvasWidth {num} m.
Arguments canvasHeight {num} m.
Arguments canvasDataUrl {num} m.
Arguments originalCanvasDimensions {num} m.
Arguments imageDimensions {num} m.
Arguments imageDisplayInfo {num} m.

(** ** Coordinate transform engine ([videoProcessor.ts], lines 13-155) *)

Section CoordinateTransform.
Context {num : Type} `{JsNum num}.

Record TransformationMatrix : Type := {
  scaleX : num;
  scaleY : num;
  offsetX : num;
  offsetY : num
}.

(** [calculateTransformationMatrix]: with display placement and natural
    image dimensions the letterbox is removed; otherwise the canvas is
    scaled directly onto the frame. *)
Definition calculateTransformationMatrix
    (maskData : MaskData num) (frameWidth frameHeight : num) : TransformationMatrix :=
  let cw := orElse (dimWidth <$> originalCanvasDimensions maskData)
                   (orElse (canvasWidth maskData) frameWidth) in
  let ch := orElse (dimHeight <$> originalCanvasDimensions maskData)
                   (orElse (canvasHeight maskData) frameHeight) in
  match imageDisplayInfo maskData, imageDimensions maskData with
  | Some info, Some imageDims =>
      let displayedImageWidth := nmul (dimWidth imageDims) (displayScale info) in
      let displayedImageHeight := nmul (dimHeight imageDims) (displayScale info) in
      let sx := ndiv frameWidth displayedImageWidth in
      let sy := ndiv frameHeight displayedImageHeight in
      {| scaleX := sx;
         scaleY := sy;
         offsetX := nmul (nneg (displayOffsetX info)) sx;
         offsetY := nmul (nneg (displayOffsetY info)) sy |}
  | _, _ =>
      {| scaleX := ndiv frameWidth cw;
         scaleY := ndiv frameHeight ch;
         offsetX := nzero;
         offsetY := nzero |}
  end.

(** [transformCoordinates] *)
Definition transformCoordinates (canvasX canvasY : num) (matrix : TransformationMatrix)
    : num * num :=
  (nadd (nmul canvasX (scaleX matrix)) (offsetX matrix),
   nadd (nmul canvasY (scaleY matrix)) (offsetY matrix)).

End CoordinateTransform.
Arguments TransformationMatrix num : clear implicits.

(** A mask that carries only what the transform reads: the display
    placement and the natural image dimensions. *)
Definition placedMask {num} `{JsNum num} (scale offX offY natW natH : num) : MaskData num :=
  {| maskType := rectangle;
     coordinates := CoordArray [];
     opacity := nzero;
     canvasWidth := None;
     canvasHeight := None;
     canvasDataUrl := None;
     originalCanvasDimensions := None;
     imageDimensions := Some {| dimWidth := natW; dimHeight := natH |};
     imageDisplayInfo :=
       Some {| displayScale := scale; displayOffsetX := offX; displayOffsetY := offY |} |}.

(** ** The raster primitive and the file system (collaborators) *)

(** What [Sharp(...).raw().toBuffer({ resolveWithObject: true })] returns:
    the samples and [info.width], [info.height], [info.channels]. *)
Record RawImage : Type := {
  rawData : list Z;
  rawWidth : Z;
  rawHeight : Z;
  rawChannels : nat
}.

Inductive Fit : Type := fill | contain | cover.
Inductive OutputFormat : Type := Png | Jpeg.

Record Collaborators : Type := {
  (** [Sharp(Buffer.from(base64, 'base64')).resize(w, h, {fit: 'fill'}).raw().toBuffer()] *)
  sharpDecodeResize : string -> Z -> Z -> Exc RawImage;
  (** [Sharp(data, {raw}).resize(w, h, {fit: 'fill'}).raw().toBuffer()] *)
  sharpResizeRaw : RawImage -> Z -> Z -> Exc RawImage;
  (** [Sharp(frameBuffer).metadata()]: [width] and [height] may be undefined *)
  sharpMetadata : list Z -> Exc (option Z * option Z);
  (** [Sharp(frameBuffer).raw().toBuffer({ resolveWithObject: true })] *)
  sharpRaw : list Z -> Exc RawImage;
  (** [Sharp(frameBuffer).png().toBuffer()] *)
  sharpToPng : list Z -> Exc (list Z);
  (** [Sharp(pixels, {raw}).resize(w, h, options)?.png()/.jpeg().toBuffer()] *)
  sharpEncode : OutputFormat -> RawImage -> option (Z * Z * Fit) -> Exc (list Z);
  (** [fs.promises.writeFile(path, data)] *)
  writeFile : string -> list Z -> Exc unit;
  (** [frameExtractor.extractFrameBatch(videoPath, startFrame, endFrame)] *)
  extractFrameBatch : nat -> nat -> Exc (list (list Z));
  (** [frameExtractor.getImageAsBuffer(imageFiles[i])] *)
  getImageAsBuffer : nat -> Exc (list Z);
  (** [TempFolderManager.saveProcessedImage(jobId, i, buffer, name)] *)
  saveProcessedImage : nat -> list Z -> Exc unit;
  (** [sharp(pixels, {raw: {width, height, channels: 1}}).png().toBuffer()] *)
  sharpGrayPng : list Z -> Z -> Z -> Exc (list Z);
  (** [createPlaceholderImage()] *)
  placeholderImage : list Z;
  (** [TempFolderManager.cleanupJobTempFolder] then [createJobTempFolder] *)
  prepareTempFolder : Exc unit;
  (** [createImageZipFromTempFolder(...)] *)
  createImageZip : Exc string
}.

(** ** Mask rasterizer, raster-payload path
    ([createMaskFromBase64], [videoProcessor.ts] lines 1736-2004) *)

(** [s.split(c)] *)
Fixpoint splitOn (c : ascii) (s : string) : list string :=
  match s with
  | EmptyString => [EmptyString]
  | String a rest =>
      if Ascii.eqb a c then EmptyString :: splitOn c rest
      else match splitOn c rest with
           | [] => [String a EmptyString]
           | p :: ps => String a p :: ps
           end
  end.

(** [s.includes(sub)] *)
Fixpoint includes (sub s : string) : bool :=
  String.prefix sub s ||
  match s with
  | EmptyString => false
  | String _ rest => includes sub rest
  end.

(** Lines 1744-1757: validation of the data URL; the result is [parts[1]]. *)
Definition extractBase64 (canvasDataUrl : string) : Exc string :=
  if String.eqb canvasDataUrl EmptyString then Throw "Invalid canvas data URL"
  else if negb (String.prefix "data:image/" canvasDataUrl) then Throw "Invalid data URL format"
  else match splitOn "," canvasDataUrl with
       | [p0; p1] =>
           if includes "base64" p0 then Ok p1 else Throw "Could not extract base64 data"
       | _ => Throw "Could not extract base64 data"
       end.

(** Lines 1786-1882: the two-step resize (canvas to displayed image size,
    then to the frame size), or the direct resize without display data. *)
Definition scaleMaskPayload (E : Collaborators) (base64Data : string)
    (frameWidth frameHeight : Z) (maskData : option (MaskData Q)) : Exc RawImage :=
  match maskData ≫= imageDisplayInfo, maskData ≫= imageDimensions with
  | Some info, Some dims =>
      let displayedWidth := (dimWidth dims * displayScale info)%Q in
      let displayedHeight := (dimHeight dims * displayScale info)%Q in
      intermediateInfo ← sharpDecodeResize E base64Data
                           (mathRound displayedWidth) (mathRound displayedHeight);
      sharpResizeRaw E intermediateInfo frameWidth frameHeight
  | _, _ => sharpDecodeResize E base64Data frameWidth frameHeight
  end.

Definition alphaThreshold : Z := 128.
Definition redMinimum : Z := 150.
Definition redDominanceRatio : Q := 3 # 2.

(** The channel values the loop reads for output pixel [i]
    ([maskRaw[k] || 0]; alpha is 255 when the raster has no fourth channel). *)
Definition maskPixel (maskRaw : list Z) (maskChannels : nat) (i : nat) : Z * Z * Z * Z :=
  let maskPixelIndex := (i * maskChannels)%nat in
  let maskR := readOr0 maskRaw maskPixelIndex in
  let maskG := readOr0 maskRaw (maskPixelIndex + 1) in
  let maskB := readOr0 maskRaw (maskPixelIndex + 2) in
  let maskA := if (3 <? maskChannels)%nat then readOr0 maskRaw (maskPixelIndex + 3) else 255 in
  (maskR, maskG, maskB, maskA).

(** [isDrawn && isRed] *)
Definition detected (px : Z * Z * Z * Z) : bool :=
  let '(maskR, maskG, maskB, maskA) := px in
  let isDrawn := alphaThreshold <? maskA in
  let isRed := (redMinimum <? maskR)
               && Qgtb (inject_Z maskR) (inject_Z maskG * redDominanceRatio)
               && Qgtb (inject_Z maskR) (inject_Z maskB * redDominanceRatio) in
  isDrawn && isRed.

(** Four consecutive stores [buf[i] = r; buf[i+1] = g; buf[i+2] = b; buf[i+3] = a]. *)
Definition writeRgba (buf : list Z) (i : nat) (r g b a : Z) : list Z :=
  <[(i + 3)%nat := toUint8 a]> (<[(i + 2)%nat := toUint8 b]>
    (<[(i + 1)%nat := toUint8 g]> (<[i := toUint8 r]> buf))).

(** One iteration of the per-pixel loop (lines 1902-1947). *)
Definition detectStep (maskRaw : list Z) (maskChannels : nat)
    (resultBuffer : list Z) (i : nat) : list Z :=
  if detected (maskPixel maskRaw maskChannels i)
  then writeRgba resultBuffer (i * 4) 255 255 255 255
  else resultBuffer.

(** Lines 1886-1947: the output buffer starts transparent and the loop marks
    the detected pixels. *)
Definition detectMask (maskRaw : list Z) (maskChannels : nat) (pixelCount : nat) : list Z :=
  fold_left (detectStep maskRaw maskChannels) (seq 0 pixelCount) (alloc (pixelCount * 4)).

(** [createMaskFromBase64]: any error of the [try] block gives the fully
    transparent buffer of the [catch] block.  (The transformation matrix the
    function also computes is only logged.) *)
Definition createMaskFromBase64 (E : Collaborators) (canvasDataUrl : string)
    (frameWidth frameHeight : Z) (maskData : option (MaskData Q)) : list Z :=
  let pixelCount := Z.to_nat (frameWidth * frameHeight) in
  catch (base64Data ← extractBase64 canvasDataUrl;
         scaled ← scaleMaskPayload E base64Data frameWidth frameHeight maskData;
         mret (detectMask (rawData scaled) (rawChannels scaled) pixelCount))
        (fun _ => alloc (pixelCount * 4)).

(** ** Mask rasterizer, vector-shape path
    ([createMaskRgbaBuffer], [videoProcessor.ts] lines 1590-1733) *)

(** The values [lo], [lo + 1], ... below [hi]: the iterations of
    [for (let v = lo; v < hi; v++)]. *)
Definition rangeZ (lo hi : Z) : list Z := seqZ lo (hi - lo).

(** The four stores at a computed pixel index; a [Buffer] ignores a store
    at a negative index. *)
Definition writeRgbaZ (buf : list Z) (pixelIndex : Z) (r g b a : Z) : list Z :=
  if pixelIndex <? 0 then buf else writeRgba buf (Z.to_nat pixelIndex) r g b a.

(** The two nested loops of the rectangle case:
    [for (py = y; py < y + h && py < height; py++)
       for (px = x; px < x + w && px < width; px++) ...]. *)
Definition fillRect (width height x y w h opacityByte : Z) (maskBuffer : list Z) : list Z :=
  fold_left (fun buf py =>
      fold_left (fun buf px =>
          writeRgbaZ buf ((py * width + px) * 4) 255 255 255 opacityByte)
        (rangeZ x (Z.min (x + w) width)) buf)
    (rangeZ y (Z.min (y + h) height)) maskBuffer.

(** [Math.sqrt((px - cx) ** 2 + (py - cy) ** 2) <= radius], decided on the
    squares. *)
Definition inCircle (px py : Z) (cx cy radius : Q) : bool :=
  Qle_bool 0 radius &&
  Qle_bool ((inject_Z px - cx) * (inject_Z px - cx) + (inject_Z py - cy) * (inject_Z py - cy))
           (radius * radius).

Definition fillCircle (width height : Z) (cx cy radius : Q) (opacityByte : Z)
    (maskBuffer : list Z) : list Z :=
  fold_left (fun buf py =>
      fold_left (fun buf px =>
          if inCircle px py cx cy radius
          then writeRgbaZ buf ((py * width + px) * 4) 255 255 255 opacityByte
          else buf)
        (rangeZ 0 width) buf)
    (rangeZ 0 height) maskBuffer.

Definition fillAll (pixelCount : nat) (opacityByte : Z) (maskBuffer : list Z) : list Z :=
  fold_left (fun buf i => writeRgba buf (i * 4) 255 255 255 opacityByte)
            (seq 0 pixelCount) maskBuffer.

(** A comparison with an [undefined] operand is false. *)
Definition holds (test : Q -> bool) (v : option Q) : bool :=
  match v with
  | Some q => test q
  | None => false
  end.

(** The fallback of [createMaskRgbaBuffer] (lines 1619-1732), for a frame of
    [width * height >= 0] pixels. *)
Definition vectorMask (maskData : MaskData Q) (width height : Z) : list Z :=
  let pixelCount := Z.to_nat (width * height) in
  let maskBuffer := alloc (pixelCount * 4) in
  let opacityByte := Qfloor ((opacity maskData / 100) * 255)%Q in
  match maskType maskData with
  | rectangle =>
      let '(xPct, yPct, wPct, hPct) :=
        match coordinates maskData with
        | CoordArray l => (l !! 0%nat, l !! 1%nat, l !! 2%nat, l !! 3%nat)
        | CoordObject x y w h => (Some x, Some y, Some w, Some h)
        end in
      if holds (fun v => Qltb v 0) xPct || holds (fun v => Qgtb v 1) xPct
         || holds (fun v => Qltb v 0) yPct || holds (fun v => Qgtb v 1) yPct
         || holds (fun v => Qle_bool v 0) wPct || holds (fun v => Qle_bool v 0) hPct
      then
        let centerX := Qfloor (inject_Z width * (1 # 4)) in
        let centerY := Qfloor (inject_Z height * (1 # 4)) in
        let centerW := Qfloor (inject_Z width * (1 # 2)) in
        let centerH := Qfloor (inject_Z height * (1 # 2)) in
        fillRect width height centerX centerY centerW centerH opacityByte maskBuffer
      else
        match xPct, yPct, wPct, hPct with
        | Some xq, Some yq, Some wq, Some hq =>
            fillRect width height
              (Qfloor (xq * inject_Z width)) (Qfloor (yq * inject_Z height))
              (Qfloor (wq * inject_Z width)) (Qfloor (hq * inject_Z height))
              opacityByte maskBuffer
        | _, _, _, _ => maskBuffer
        end
  | circle =>
      let '(cxPct, cyPct, radiusPct) :=
        match coordinates maskData with
        | CoordArray l => (l !! 0%nat, l !! 1%nat, l !! 2%nat)
        | CoordObject x y w h =>
            (Some (x + w / 2)%Q, Some (y + h / 2)%Q, Some (Qmin w h / 2)%Q)
        end in
      match cxPct, cyPct, radiusPct with
      | Some cxq, Some cyq, Some rq =>
          fillCircle width height
            (cxq * inject_Z width)%Q (cyq * inject_Z height)%Q
            (rq * inject_Z (Z.min width height))%Q opacityByte maskBuffer
      | _, _, _ => maskBuffer
      end
  | _ => fillAll pixelCount opacityByte maskBuffer
  end.

(** [createMaskRgbaBuffer]: the raster payload when the mask has one,
    otherwise the vector shape. *)
Definition createMaskRgbaBuffer (E : Collaborators) (maskData : MaskData Q)
    (width height : Z) : Exc (list Z) :=
  match canvasDataUrl maskData with
  | Some url =>
      if String.eqb url EmptyString
      then if width * height <? 0 then Throw "ERR_OUT_OF_RANGE"
           else Ok (vectorMask maskData width height)
      else if (width <=? 0) || (height <=? 0) then Throw "Invalid mask dimensions"
      else Ok (createMaskFromBase64 E url width height (Some maskData))
  | None =>
      if width * height <? 0 then Throw "ERR_OUT_OF_RANGE"
      else Ok (vectorMask maskData width height)
  end.

(** ** Frame masking operator *)

(** One iteration of the compositing loop ([processFrame] lines 1458-1496,
    [processFrameBatch] lines 1250-1260): where the mask alpha is positive
    the first three channels of the frame pixel are set to 0. *)
Definition blacken (imageChannels : nat) (maskRgba : list Z)
    (framePixels : list Z) (i : nat) : list Z :=
  match maskRgba !! (i * 4 + 3)%nat with
  | Some maskAlpha =>
      if 0 <? maskAlpha then
        let pixelIndex := (i * imageChannels)%nat in
        <[(pixelIndex + 2)%nat := 0]> (<[(pixelIndex + 1)%nat := 0]> (<[pixelIndex := 0]> framePixels))
      else framePixels
  | None => framePixels
  end.

(** The loop over the first [pixels] pixels. *)
Definition applyMask (pixels imageChannels : nat) (maskRgba framePixels : list Z) : list Z :=
  fold_left (blacken imageChannels maskRgba) (seq 0 pixels) framePixels.

Inductive AspectRatioMode : Type := stretch | letterbox | crop.

Record OutputSettings : Type := {
  outputSizeSetting : string;
  aspectRatioMode : option AspectRatioMode;
  batchSize : nat
}.

(** The [switch] on [outputSettings.aspectRatioMode || 'letterbox']. *)
Definition fitOf (settings : OutputSettings) : Fit :=
  match aspectRatioMode settings with
  | Some stretch => fill
  | Some crop => cover
  | Some letterbox | None => contain
  end.

Record Task : Type := {
  frameBuffer : list Z;
  taskMask : MaskData Q;
  outputSize : Z * Z;
  outputSettings : OutputSettings;
  frameNumber : nat
}.

Record FrameResult : Type := {
  resultFrameNumber : nat;
  processedBuffer : list Z;
  success : bool;
  error : option string
}.

Definition succeeded (n : nat) (buf : list Z) : FrameResult :=
  {| resultFrameNumber := n; processedBuffer := buf; success := true; error := None |}.

Definition failedWith (n : nat) (msg : string) : FrameResult :=
  {| resultFrameNumber := n; processedBuffer := []; success := false; error := Some msg |}.

(** [v || d] on an optional integer. *)
Definition orDefault (v : option Z) (d : Z) : Z :=
  match v with
  | Some x => if x =? 0 then d else x
  | None => d
  end.

(** *** The clamping step of [processFrame] (lines 1384-1423) *)

Record PixelCoords : Type := {
  pcX : Q;
  pcY : Q;
  pcWidth : Q;
  pcHeight : Q
}.

(** Lines 1384-1407, for the object format and for a legacy array with its
    four entries. *)
Definition pixelCoordsOf (coords : Coordinates Q) (originalWidth originalHeight : Z)
    : option PixelCoords :=
  match coords with
  | CoordObject x y w h =>
      Some {| pcX := x; pcY := y; pcWidth := w; pcHeight := h |}
  | CoordArray (c0 :: c1 :: c2 :: c3 :: _) =>
      let defaultWidth := 100 in
      let defaultHeight := 100 in
      Some {| pcX := inject_Z (Qfloor (c0 * inject_Z originalWidth));
              pcY := inject_Z (Qfloor (c1 * inject_Z originalHeight));
              pcWidth := inject_Z (orDefault (Some (Qfloor (c2 * inject_Z originalWidth))) defaultWidth);
              pcHeight := inject_Z (orDefault (Some (Qfloor (c3 * inject_Z originalHeight))) defaultHeight) |}
  | CoordArray _ => None
  end.

(** The test of line 1410. *)
Definition exceedsFrame (pixelCoords : PixelCoords) (originalWidth originalHeight : Q) : bool :=
  Qltb (pcX pixelCoords) 0 || Qltb (pcY pixelCoords) 0
  || Qgtb (pcX pixelCoords + pcWidth pixelCoords) originalWidth
  || Qgtb (pcY pixelCoords + pcHeight pixelCoords) originalHeight.

(** Lines 1410-1423: the rectangle is changed only when it exceeds the
    frame. *)
Definition clampToFrame (pixelCoords : PixelCoords) (originalWidth originalHeight : Q)
    : PixelCoords :=
  if exceedsFrame pixelCoords originalWidth originalHeight then
    let x := Qmax 0 (Qmin (pcX pixelCoords) (originalWidth - 1)) in
    let y := Qmax 0 (Qmin (pcY pixelCoords) (originalHeight - 1)) in
    let w := Qmax 1 (Qmin (pcWidth pixelCoords) (originalWidth - x)) in
    let h := Qmax 1 (Qmin (pcHeight pixelCoords) (originalHeight - y)) in
    {| pcX := x; pcY := y; pcWidth := w; pcHeight := h |}
  else pixelCoords.

(** *** [processFrame] (lines 1341-1588) *)

(** The resize of the output pipeline of [processFrame]. *)
Definition frameResize (task : Task) : option (Z * Z * Fit) :=
  let '(w, h) := outputSize task in
  if negb (String.eqb (outputSizeSetting (outputSettings task)) "original")
     && (0 <? w) && (0 <? h)
  then Some (w, h, fitOf (outputSettings task))
  else None.

(** Lines 1425-1435: frame 0 records the reference dimensions in the global
    [referenceDimensions]; another frame is compared with them.  (The text of
    the error also carries the four numbers.) *)
Definition validateDimensions (n : nat) (originalWidth originalHeight : Z)
    (referenceDimensions : option (Z * Z)) : Exc (option (Z * Z)) :=
  if (n =? 0)%nat then Ok (Some (originalWidth, originalHeight))
  else match referenceDimensions with
       | Some (refWidth, refHeight) =>
           if negb (refWidth =? originalWidth) || negb (refHeight =? originalHeight)
           then Throw "Frame dimension mismatch!"
           else Ok referenceDimensions
       | None => Ok referenceDimensions
       end.

(** The number of iterations of [for (i = 0; i < length / channels; i++)],
    for the 1 to 4 channels Sharp reports. *)
Definition totalPixelsOf (len imageChannels : nat) : nat :=
  ((len + imageChannels - 1) / imageChannels)%nat.

(** [processFrame]: the whole body is inside one [try]; the [catch] turns
    any error into a failed result.  The function takes and returns the value
    of the global [referenceDimensions].  The clamped [pixelCoords] are only
    logged: the mask is rasterized from [maskData]. *)
Definition processFrame (E : Collaborators) (task : Task)
    (referenceDimensions : option (Z * Z)) : FrameResult * option (Z * Z) :=
  let n := frameNumber task in
  let opening : Exc (Z * Z) :=
    _ ← (if (n =? 0)%nat
         then unprocessedBuffer ← sharpToPng E (frameBuffer task);
              writeFile E "output/debug_frame_0_original.png" unprocessedBuffer
         else mret tt);
    metadata ← sharpMetadata E (frameBuffer task);
    mret (orDefault (fst metadata) 1920, orDefault (snd metadata) 1080) in
  match opening with
  | Throw msg => (failedWith n msg, referenceDimensions)
  | Ok (originalWidth, originalHeight) =>
      let pixelCoords :=
        (fun rectangle =>
           clampToFrame rectangle (inject_Z originalWidth) (inject_Z originalHeight))
          <$> pixelCoordsOf (coordinates (taskMask task)) originalWidth originalHeight in
      match validateDimensions n originalWidth originalHeight referenceDimensions with
      | Throw msg => (failedWith n msg, referenceDimensions)
      | Ok referenceDimensions' =>
          (catch
             (frameRgb ← sharpRaw E (frameBuffer task);
              maskRgba ← createMaskRgbaBuffer E (taskMask task) originalWidth originalHeight;
              let imageChannels := rawChannels frameRgb in
              let totalPixels := totalPixelsOf (length (rawData frameRgb)) imageChannels in
              let framePixels := applyMask totalPixels imageChannels maskRgba (rawData frameRgb) in
              processed ← sharpEncode E Png
                            {| rawData := framePixels; rawWidth := originalWidth;
                               rawHeight := originalHeight; rawChannels := imageChannels |}
                            (frameResize task);
              _ ← (if (n =? 0)%nat
                   then _ ← writeFile E "output/debug_frame_0_processed.png" processed;
                        maskDebugBuffer ← sharpEncode E Png
                                            {| rawData := maskRgba; rawWidth := originalWidth;
                                               rawHeight := originalHeight; rawChannels := 4 |}
                                            None;
                        writeFile E "output/debug_frame_0_mask.png" maskDebugBuffer
                   else mret tt);
              mret (succeeded n processed))
             (failedWith n),
           referenceDimensions')
      end
  end.

(** *** [processFrameBatch] (lines 1185-1339) *)

(** The resize of the output pipeline of [processFrameBatch]. *)
Definition volumeResize (task : Task) (volumeWidth volumeHeight : Z) : option (Z * Z * Fit) :=
  let '(w, h) := outputSize task in
  if (0 <? w) && (0 <? h) && (negb (w =? volumeWidth) || negb (h =? volumeHeight))
  then Some (w, h, fitOf (outputSettings task))
  else None.

(** [processFrameBatch]: one mask, made for the dimensions of the first
    frame, is applied to every frame of the volume; any error gives one
    failed result per task. *)
Definition processFrameBatch (E : Collaborators) (tasks : list Task) : list FrameResult :=
  catch
    (loaded ← mapM (fun task =>
                 metadata ← sharpMetadata E (frameBuffer task);
                 frameRgb ← sharpRaw E (frameBuffer task);
                 mret (rawData frameRgb,
                       (orDefault (fst metadata) 1920, orDefault (snd metadata) 1080,
                        rawChannels frameRgb))) tasks;
     match tasks, loaded with
     | firstTask :: _, (_, (volumeWidth, volumeHeight, imageChannels)) :: _ =>
         maskRgba ← createMaskRgbaBuffer E (taskMask firstTask) volumeWidth volumeHeight;
         let pixelsPerFrame := Z.to_nat (volumeWidth * volumeHeight) in
         mapM (fun '(task, (framePixels, _)) =>
                 let masked := applyMask pixelsPerFrame imageChannels maskRgba framePixels in
                 outputBuffer ← sharpEncode E Jpeg
                                  {| rawData := masked; rawWidth := volumeWidth;
                                     rawHeight := volumeHeight; rawChannels := imageChannels |}
                                  (volumeResize task volumeWidth volumeHeight);
                 mret (succeeded (frameNumber task) outputBuffer))
              (zip tasks loaded)
     | _, _ => Throw "Cannot read properties of undefined"
     end)
    (fun msg => (fun task => failedWith (frameNumber task) msg) <$> tasks).

(** ** Batch scheduler *)

Record Batch : Type := {
  batchStart : nat;
  batchEnd : nat
}.

(** [createFrameBatches]: the loop
    [for (start = 0; start < totalFrames; start += batchSize)], which for a
    positive [batchSize] ends within [totalFrames] iterations. *)
Fixpoint createFrameBatchesFrom (fuel start totalFrames size : nat) : list Batch :=
  match fuel with
  | O => []
  | S fuel' =>
      if (start <? totalFrames)%nat then
        {| batchStart := start;
           batchEnd := Nat.min (start + size - 1) (totalFrames - 1) |}
          :: createFrameBatchesFrom fuel' (start + size) totalFrames size
      else []
  end.

Definition createFrameBatches (totalFrames size : nat) : list Batch :=
  createFrameBatchesFrom totalFrames 0 totalFrames size.

(** [outputSettings.batchSize || 12] *)
Definition batchSizeOf (settings : OutputSettings) : nat :=
  if (batchSize settings =? 0)%nat then 12%nat else batchSize settings.

Definition VOLUME_BATCH_SIZE : nat := 8.

(** The volumetric sub-batches: the loop
    [for (volumeStart = 0; volumeStart < items.length; volumeStart += VOLUME_BATCH_SIZE)]
    with [items.slice(volumeStart, volumeEnd)]. *)
Fixpoint volumesFrom {A} (fuel volumeStart : nat) (items : list A) : list (nat * list A) :=
  match fuel with
  | O => []
  | S fuel' =>
      if (volumeStart <? length items)%nat then
        let volumeEnd := Nat.min (volumeStart + VOLUME_BATCH_SIZE) (length items) in
        (volumeStart, take (volumeEnd - volumeStart) (drop volumeStart items))
          :: volumesFrom fuel' (volumeStart + VOLUME_BATCH_SIZE) items
      else []
  end.

Definition volumes {A} (items : list A) : list (nat * list A) :=
  volumesFrom (length items) 0 items.

(** The tasks of one volume (lines 875-881). *)
Definition volumeTasks (maskData : MaskData Q) (size : Z * Z) (settings : OutputSettings)
    (batch : Batch) (volumeStart : nat) (volumeFrameBuffers : list (list Z)) : list Task :=
  imap (fun index buffer =>
          {| frameBuffer := buffer;
             taskMask := maskData;
             outputSize := size;
             outputSettings := settings;
             frameNumber := (batchStart batch + volumeStart + index)%nat |})
       volumeFrameBuffers.

(** The body of [batches.map(async (batch, batchIndex) => ...)]
    (lines 838-928); progress and batch-record updates are not modelled. *)
Definition processBatch (E : Collaborators) (maskData : MaskData Q) (size : Z * Z)
    (settings : OutputSettings) (batch : Batch) : Exc (list FrameResult) :=
  frameBuffers ← extractFrameBatch E (batchStart batch) (batchEnd batch);
  batchResults ← mapM (fun '(volumeStart, volumeFrameBuffers) =>
                    if (fst size <=? 0) || (snd size <=? 0)
                    then Throw "Invalid output dimensions"
                    else mret (processFrameBatch E
                                 (volumeTasks maskData size settings batch
                                    volumeStart volumeFrameBuffers)))
                  (volumes frameBuffers);
  mret (concat batchResults).

Record ProcessedFrame : Type := {
  pfFrameNumber : nat;
  pfBuffer : list Z
}.

(** Lines 935-950: a failed result keeps its frame number and gets an
    empty buffer. *)
Definition toProcessedFrame (result : FrameResult) : ProcessedFrame :=
  if success result
  then {| pfFrameNumber := resultFrameNumber result; pfBuffer := processedBuffer result |}
  else {| pfFrameNumber := resultFrameNumber result; pfBuffer := [] |}.

(** [frames.sort((a, b) => a.frameNumber - b.frameNumber)]: the sort of the
    engine is stable, so its result is that of a stable insertion sort. *)
Fixpoint insertByFrameNumber (x : ProcessedFrame) (l : list ProcessedFrame)
    : list ProcessedFrame :=
  match l with
  | [] => [x]
  | y :: l' =>
      if (pfFrameNumber x <=? pfFrameNumber y)%nat then x :: y :: l'
      else y :: insertByFrameNumber x l'
  end.

Fixpoint sortByFrameNumber (l : list ProcessedFrame) : list ProcessedFrame :=
  match l with
  | [] => []
  | x :: l' => insertByFrameNumber x (sortByFrameNumber l')
  end.

(** [processBatchesInParallel] (lines 761-956).  [Promise.all] gives the
    batch results in the order of [batches], whatever the order in which the
    batches complete, and rejects when one batch rejects. *)
Definition processBatchesInParallel (E : Collaborators) (batches : list Batch)
    (maskData : MaskData Q) (size : Z * Z) (settings : OutputSettings)
    : Exc (list ProcessedFrame) :=
  allBatchResults ← mapM (processBatch E maskData size settings) batches;
  mret (sortByFrameNumber (toProcessedFrame <$> concat allBatchResults)).

(** *** [processImages] (lines 373-611) *)

Inductive JobStatus : Type :=
| StatusUploaded | StatusProcessing | StatusCompleted | StatusFailed.

Record ProcessedImage : Type := {
  imageNumber : nat;
  imageBuffer : list Z
}.

(** Lines 476-510: the results of a volume are saved one by one; a failed
    save throws out of the loop, what was collected before stays. *)
Fixpoint saveResults (E : Collaborators) (globalIndex : nat) (results : list FrameResult)
    (processedImages : list ProcessedImage) : list ProcessedImage * Exc unit :=
  match results with
  | [] => (processedImages, Ok tt)
  | result :: rest =>
      if success result && (0 <? length (processedBuffer result))%nat then
        match saveProcessedImage E globalIndex (processedBuffer result) with
        | Throw msg => (processedImages, Throw msg)
        | Ok _ =>
            saveResults E (S globalIndex) rest
              (processedImages ++
                 [{| imageNumber := globalIndex; imageBuffer := processedBuffer result |}])
        end
      else
        saveResults E (S globalIndex) rest
          (processedImages ++ [{| imageNumber := globalIndex; imageBuffer := [] |}])
  end.

Definition imageTask (buffer : list Z) (maskData : MaskData Q) (size : Z * Z)
    (settings : OutputSettings) (n : nat) : Task :=
  {| frameBuffer := buffer; taskMask := maskData; outputSize := size;
     outputSettings := settings; frameNumber := n |}.

(** Lines 529-566: the images of a volume whose parallel processing threw
    are processed one by one with [processFrame]; an error of one image is
    logged and the loop goes on. *)
Fixpoint processIndividually (E : Collaborators) (maskData : MaskData Q) (size : Z * Z)
    (settings : OutputSettings) (indices : list nat)
    (processedImages : list ProcessedImage) (referenceDimensions : option (Z * Z))
    : list ProcessedImage * option (Z * Z) :=
  match indices with
  | [] => (processedImages, referenceDimensions)
  | i :: rest =>
      match getImageAsBuffer E i with
      | Throw _ =>
          processIndividually E maskData size settings rest processedImages referenceDimensions
      | Ok buffer =>
          let '(result, referenceDimensions') :=
            processFrame E (imageTask buffer maskData size settings i) referenceDimensions in
          if success result && (0 <? length (processedBuffer result))%nat then
            match saveProcessedImage E i (processedBuffer result) with
            | Ok _ =>
                processIndividually E maskData size settings rest
                  (processedImages ++
                     [{| imageNumber := i; imageBuffer := processedBuffer result |}])
                  referenceDimensions'
            | Throw _ =>
                processIndividually E maskData size settings rest processedImages
                  referenceDimensions'
            end
          else
            processIndividually E maskData size settings rest processedImages
              referenceDimensions'
      end
  end.

(** One turn of the loop over the volumes (lines 446-568). *)
Definition processImageVolume (E : Collaborators) (maskData : MaskData Q) (size : Z * Z)
    (settings : OutputSettings)
    (state : list ProcessedImage * option (Z * Z)) (volume : nat * list nat)
    : list ProcessedImage * option (Z * Z) :=
  let '(processedImages, referenceDimensions) := state in
  let '(volumeStart, indices) := volume in
  match mapM (getImageAsBuffer E) indices with
  | Throw _ =>
      processIndividually E maskData size settings indices processedImages referenceDimensions
  | Ok imageBuffers =>
      let tasks := imap (fun index buffer =>
                           imageTask buffer maskData size settings (volumeStart + index))
                        imageBuffers in
      let volumeResults := processFrameBatch E tasks in
      match saveResults E volumeStart volumeResults processedImages with
      | (processedImages', Ok _) => (processedImages', referenceDimensions)
      | (processedImages', Throw _) =>
          processIndividually E maskData size settings indices processedImages'
            referenceDimensions
      end
  end.

(** [processImages]: the status the job is left in, the images collected
    for the manifest and the global [referenceDimensions].  The output size
    (lines 417-438) is a parameter. *)
Definition processImages (E : Collaborators) (jobFound : bool) (imageCount : nat)
    (maskData : MaskData Q) (size : Z * Z) (settings : OutputSettings)
    (referenceDimensions : option (Z * Z))
    : JobStatus * list ProcessedImage * option (Z * Z) :=
  if negb jobFound then (StatusFailed, [], referenceDimensions)
  else match prepareTempFolder E with
       | Throw _ => (StatusFailed, [], referenceDimensions)
       | Ok _ =>
           let '(processedImages, referenceDimensions') :=
             fold_left (processImageVolume E maskData size settings)
                       (volumes (seq 0 imageCount)) ([], referenceDimensions) in
           match createImageZip E with
           | Ok _ => (StatusCompleted, processedImages, referenceDimensions')
           | Throw _ => (StatusFailed, processedImages, referenceDimensions')
           end
       end.

(** ** Frame source: DICOM pixel data ([frameExtractor.ts]) *)

(** A window attribute may be a number or an array of numbers. *)
Inductive Attr : Type :=
| Scalar (q : Q)
| Multi (l : list Q).

(** The shapes of [dataset.PixelData] the extraction distinguishes, each
    with the bytes the extraction takes from it. *)
Inductive PixelData : Type :=
| PdArrayBuffer (bytes : list Z)
| PdTypedArray (bytes : list Z)
| PdInlineBinary (bytes : list Z)
| PdWrapped (bytes : list Z)
| PdUnsupported.

Record Dataset : Type := {
  Rows : option Z;
  Columns : option Z;
  BitsAllocated : option Z;
  BitsStored : option Z;
  PixelRepresentation : option Z;
  Modality : option string;
  WindowCenter : option Attr;
  WindowWidth : option Attr;
  NumberOfFrames : option Z;
  PixelDataOf : option PixelData
}.

(** [if (Array.isArray(v)) v = v[0]] *)
Definition firstValue (v : option Attr) : option Q :=
  match v with
  | Some (Scalar q) => Some q
  | Some (Multi l) => l !! 0%nat
  | None => None
  end.

(** The byte length [detectDicomFrameCount] sees: that of an [ArrayBuffer]
    or of a typed array, 0 for the other shapes. *)
Definition pixelDataSize (pd : PixelData) : Z :=
  match pd with
  | PdArrayBuffer bytes | PdTypedArray bytes => Z.of_nat (length bytes)
  | _ => 0
  end.

(** [rows * cols * (bitsAllocated / 8)] *)
Definition bytesPerFrameOf (rows cols bitsAllocated : Z) : Q :=
  (inject_Z rows * inject_Z cols * (inject_Z bitsAllocated / 8))%Q.

(** [detectDicomFrameCount] (lines 112-147) *)
Definition detectDicomFrameCount (dataset : Dataset) : Z :=
  let estimated :=
    match PixelDataOf dataset with
    | Some pd =>
        let expectedBytesPerFrame :=
          bytesPerFrameOf (orDefault (Rows dataset) 512) (orDefault (Columns dataset) 512)
                          (orDefault (BitsAllocated dataset) 16) in
        if Qgtb (inject_Z (pixelDataSize pd)) expectedBytesPerFrame
        then Qfloor (inject_Z (pixelDataSize pd) / expectedBytesPerFrame)
        else 1
    | None => 1
    end in
  match NumberOfFrames dataset with
  | Some n => if 1 <? n then n else estimated
  | None => estimated
  end.

(** The [pixelBuffer] the extraction obtains from the pixel data, or the
    error of an unsupported shape. *)
Definition pixelBufferOf (pixelData : option PixelData) : Exc (list Z) :=
  match pixelData with
  | None => Throw "No pixel data found in DICOM file"
  | Some (PdArrayBuffer bytes) | Some (PdTypedArray bytes)
  | Some (PdInlineBinary bytes) | Some (PdWrapped bytes) => Ok bytes
  | Some PdUnsupported => Throw "Unsupported pixel data format"
  end.

(** [ToIndex]: truncation, and a [RangeError] for a negative index. *)
Definition toIndex (q : Q) : Exc nat :=
  let t := Z.quot (Qnum q) (Zpos (Qden q)) in
  if t <? 0 then Throw "RangeError" else Ok (Z.to_nat t).

(** [new Uint8Array(pixelBuffer, byteOffset, length)] *)
Definition uint8View (pixelBuffer : list Z) (byteOffset len : Q) : Exc (list Z) :=
  o ← toIndex byteOffset;
  n ← toIndex len;
  if (length pixelBuffer <? o + n)%nat then Throw "RangeError"
  else Ok (take n (drop o pixelBuffer)).

(** The elements of a [Uint16Array] over little-endian bytes. *)
Fixpoint uint16LE (bytes : list Z) : list Z :=
  match bytes with
  | lo :: hi :: rest => (lo + 256 * hi) :: uint16LE rest
  | _ => []
  end.

(** [new Uint16Array(pixelBuffer)]: the byte length must be even. *)
Definition uint16Array (pixelBuffer : list Z) : Exc (list Z) :=
  if Nat.even (length pixelBuffer) then Ok (uint16LE pixelBuffer)
  else Throw "RangeError".

Definition minimum (l : list Z) : Z :=
  match l with
  | [] => 0
  | x :: rest => fold_left Z.min rest x
  end.

Definition maximum (l : list Z) : Z :=
  match l with
  | [] => 0
  | x :: rest => fold_left Z.max rest x
  end.

(** A number is truthy when it is present and not 0. *)
Definition truthy (v : option Q) : bool :=
  match v with
  | Some q => negb (Qeq_bool q 0)
  | None => false
  end.

(** The window [processDicomPixelDataHelper] uses: the explicit one when
    [windowCenter && windowWidth], otherwise none (auto-normalisation). *)
Definition helperWindow (windowCenter windowWidth : option Q) : option (Q * Q) :=
  match windowCenter, windowWidth with
  | Some c, Some w =>
      if truthy (Some c) && truthy (Some w)
      then Some (c - w / 2, c + w / 2)%Q
      else None
  | _, _ => None
  end.

(** Lines 473-478: one sample under the explicit window, as stored in the
    [Uint8Array]. *)
Definition helperWindowSample (windowMin windowMax : Q) (sample : Z) : Z :=
  let value :=
    if Qle_bool (inject_Z sample) windowMin then 0%Q
    else if Qgeb (inject_Z sample) windowMax then 255%Q
    else (((inject_Z sample - windowMin) / (windowMax - windowMin)) * 255)%Q in
  toUint8 (mathRound value).

(** Lines 452-486: the 16-bit branch of the helper on its samples. *)
Definition helper16 (windowCenter windowWidth : option Q) (uint16Data : list Z) : list Z :=
  match helperWindow windowCenter windowWidth with
  | Some (windowMin, windowMax) =>
      helperWindowSample windowMin windowMax <$> uint16Data
  | None =>
      let min := minimum uint16Data in
      let max := maximum uint16Data in
      let range := max - min in
      (fun sample =>
         toUint8 (mathRound (((inject_Z sample - inject_Z min) / inject_Z range) * 255)%Q))
        <$> uint16Data
  end.

(** Lines 492-502 and 687-700: truncation by [slice(0, expectedSize)], whose
    negative end counts from the end of the array, or zero padding to
    [rows * cols] samples. *)
Definition ensureSize (expectedSize : Z) (data : list Z) : list Z :=
  let len := Z.of_nat (length data) in
  if expectedSize <? len
  then take (Z.to_nat (if expectedSize <? 0 then len + expectedSize else expectedSize)) data
  else data ++ replicate (Z.to_nat (expectedSize - len)) 0.

(** [processDicomPixelDataHelper] (lines 435-517) *)
Definition processDicomPixelDataHelper (E : Collaborators) (dataset : Dataset)
    (pixelDataArray : list Z) (rows cols bitsAllocated : Z) : Exc (list Z) :=
  let windowCenter := firstValue (WindowCenter dataset) in
  let windowWidth := firstValue (WindowWidth dataset) in
  let normalizedPixelData :=
    if bitsAllocated =? 16
    then helper16 windowCenter windowWidth (uint16LE pixelDataArray)
    else pixelDataArray in
  sharpGrayPng E (ensureSize (rows * cols) normalizedPixelData) cols rows.

(** The window [extractDicomImage] uses (lines 628-661): the explicit
    one, else the preset of the modality, else the range of the samples. *)
Definition imageWindow (windowCenter windowWidth : option Q) (modality : string)
    (pixelArray : list Z) : Q * Q :=
  match windowCenter, windowWidth with
  | Some c, Some w => (c - w / 2, c + w / 2)%Q
  | _, _ =>
      if String.eqb modality "CT" then (40 - 400 / 2, 40 + 400 / 2)%Q
      else if String.eqb modality "CR" || String.eqb modality "DX"
      then (1000 - 2000 / 2, 1000 + 2000 / 2)%Q
      else (inject_Z (minimum pixelArray), inject_Z (maximum pixelArray))
  end.

(** Lines 668-671: a stored sample read as a signed value when the pixel
    representation is 1. *)
Definition sampleValue (pixelRepresentation : Z) (raw : Z) : Z :=
  if (pixelRepresentation =? 1) && (32767 <? raw) then raw - 65536 else raw.

(** Lines 673-679: one sample under the window. *)
Definition imageWindowSample (windowMin windowMax : Q) (pixelRepresentation : Z)
    (raw : Z) : Z :=
  let value := sampleValue pixelRepresentation raw in
  let range := (windowMax - windowMin)%Q in
  if Qle_bool (inject_Z value) windowMin then toUint8 0
  else if Qgeb (inject_Z value) windowMax then toUint8 255
  else toUint8 (mathRound (((inject_Z value - windowMin) / range) * 255)%Q).

(** Lines 624-685: the 16-bit branch of [extractDicomImage] on its
    samples. *)
Definition image16 (windowCenter windowWidth : option Q) (modality : string)
    (pixelRepresentation : Z) (pixelArray : list Z) : list Z :=
  let '(windowMin, windowMax) := imageWindow windowCenter windowWidth modality pixelArray in
  let range := (windowMax - windowMin)%Q in
  if Qgtb range 0
  then imageWindowSample windowMin windowMax pixelRepresentation <$> pixelArray
  else (fun _ => 128) <$> pixelArray.

(** [extractDicomImage] (lines 519-720): any error gives the placeholder. *)
Definition extractDicomImage (E : Collaborators) (dataset : Dataset) : list Z :=
  let rows := orDefault (Rows dataset) 512 in
  let cols := orDefault (Columns dataset) 512 in
  let bitsAllocated := orDefault (BitsAllocated dataset) 16 in
  let pixelRepresentation := orDefault (PixelRepresentation dataset) 0 in
  let modality := default EmptyString (Modality dataset) in
  let windowCenter := firstValue (WindowCenter dataset) in
  let windowWidth := firstValue (WindowWidth dataset) in
  catch
    (pixelBuffer ← pixelBufferOf (PixelDataOf dataset);
     normalizedPixelData ←
       (if bitsAllocated <=? 8 then Ok pixelBuffer
        else pixelArray ← uint16Array pixelBuffer;
             mret (image16 windowCenter windowWidth modality pixelRepresentation pixelArray));
     sharpGrayPng E (ensureSize (rows * cols) normalizedPixelData) cols rows)
    (fun _ => placeholderImage E).

(** Lines 225-365 of [extractDicomFrame]: the bytes of the frame at
    [frameIndex], [None] when the buffer holds too few bytes for it, or the
    error thrown on the way. *)
Definition framePixelData (dataset : Dataset) (rows cols bitsAllocated frameIndex : Z)
    : Exc (option (list Z)) :=
  match PixelDataOf dataset with
  | None => Throw "No pixel data found in DICOM file"
  | Some pixelData =>
      let bytesPerFrame := bytesPerFrameOf rows cols bitsAllocated in
      let frameOffset := (inject_Z frameIndex * bytesPerFrame)%Q in
      pixelBuffer ← pixelBufferOf (Some pixelData);
      if Qltb (inject_Z (Z.of_nat (length pixelBuffer))) (frameOffset + bytesPerFrame)
      then Ok None
      else bytes ← uint8View pixelBuffer frameOffset bytesPerFrame;
           mret (Some bytes)
  end.

(** [extractDicomFrame] (lines 208-376).  The [catch] covers what is
    computed inside the [try]; the promise of the helper is returned
    without being awaited, so an error of the helper is the error of the
    call. *)
Definition extractDicomFrame (E : Collaborators) (dataset : Dataset) (frameIndex : Z)
    : Exc (list Z) :=
  let rows := orDefault (Rows dataset) 512 in
  let cols := orDefault (Columns dataset) 512 in
  let bitsAllocated := orDefault (BitsAllocated dataset) 16 in
  let totalFrames := detectDicomFrameCount dataset in
  let frameIndex := if totalFrames <=? frameIndex then 0 else frameIndex in
  match framePixelData dataset rows cols bitsAllocated frameIndex with
  | Ok (Some bytes) =>
      processDicomPixelDataHelper E dataset bytes rows cols bitsAllocated
  | Ok None => Ok (extractDicomImage E dataset)
  | Throw _ => Ok (extractDicomImage E dataset)
  end.

(** ** Collaborators for the examples *)

(** Collaborators that never fail, except as the four parameters say: the
    decoding of a mask payload, the metadata of a frame, the loading of an
    image and the extraction of a batch of frames.  A frame buffer stands for
    its own samples (3 channels), and encoding returns the samples. *)
Definition exampleCollaborators
    (decode : string -> Z -> Z -> Exc RawImage)
    (metadata : list Z -> Exc (option Z * option Z))
    (load : nat -> Exc (list Z))
    (extract : nat -> nat -> Exc (list (list Z))) : Collaborators :=
  {| sharpDecodeResize := decode;
     sharpResizeRaw := fun image w h =>
       Ok {| rawData := rawData image; rawWidth := w; rawHeight := h;
             rawChannels := rawChannels image |};
     sharpMetadata := metadata;
     sharpRaw := fun buffer =>
       Ok {| rawData := buffer; rawWidth := 0; rawHeight := 0; rawChannels := 3 |};
     sharpToPng := fun buffer => Ok buffer;
     sharpEncode := fun _ image _ => Ok (rawData image);
     writeFile := fun _ _ => Ok tt;
     extractFrameBatch := extract;
     getImageAsBuffer := load;
     saveProcessedImage := fun _ _ => Ok tt;
     sharpGrayPng := fun pixels _ _ => Ok pixels;
     placeholderImage := [128];
     prepareTempFolder := Ok tt;
     createImageZip := Ok "processed_images.zip"%string |}.

(** A mask without raster payload and without display data. *)
Definition vectorMaskData (type : MaskType) (coords : Coordinates Q) (o : Q) : MaskData Q :=
  {| maskType := type;
     coordinates := coords;
     opacity := o;
     canvasWidth := None;
     canvasHeight := None;
     canvasDataUrl := None;
     originalCanvasDimensions := None;
     imageDimensions := None;
     imageDisplayInfo := None |}.

(** A mask with a raster payload and no display data. *)
Definition rasterMaskData (url : string) : MaskData Q :=
  {| maskType := freeform;
     coordinates := CoordArray [];
     opacity := 100%Q;
     canvasWidth := None;
     canvasHeight := None;
     canvasDataUrl := Some url;
     originalCanvasDimensions := None;
     imageDimensions := None;
     imageDisplayInfo := None |}.

Definition exampleSettings : OutputSettings :=
  {| outputSizeSetting := "original"; aspectRatioMode := None; batchSize := 12 |}.

(** ** Notions used in the statements *)

(** The mask [m] with its declared opacity replaced by [o]. *)
Definition withOpacity (m : MaskData Q) (o : Q) : MaskData Q :=
  {| maskType := maskType m;
     coordinates := coordinates m;
     opacity := o;
     canvasWidth := canvasWidth m;
     canvasHeight := canvasHeight m;
     canvasDataUrl := canvasDataUrl m;
     originalCanvasDimensions := originalCanvasDimensions m;
     imageDimensions := imageDimensions m;
     imageDisplayInfo := imageDisplayInfo m |}.

(** Two buffers are positive at the same places. *)
Definition sameCoverage (buf1 buf2 : list Z) : Prop :=
  Forall2 (fun v1 v2 => 0 < v1 <-> 0 < v2) buf1 buf2.

(** Every alpha byte of the buffer is 0 or the stored opacity byte. *)
Definition alphaIn (opacityByte : Z) (buf : list Z) : Prop :=
  forall j v, buf !! (j * 4 + 3)%nat = Some v -> v = 0 \/ v = toUint8 opacityByte.

(** The windowing formula in the words of the specification: values at or
    below [windowMin] give 0, values at or above [windowMax] give 255, the
    values between are interpolated linearly and rounded. *)
Definition windowingFormula (windowMin windowMax : Q) (sample : Z) : Z :=
  if Qle_bool (inject_Z sample) windowMin then 0
  else if Qle_bool windowMax (inject_Z sample) then 255
  else mathRound (((inject_Z sample - windowMin) / (windowMax - windowMin)) * 255)%Q.

(** A two-frame CT file of 2x1 16-bit samples without window attributes:
    frame 0 holds the samples 0 and 100, frame 1 the samples 240 and 1000. *)
Definition ctDataset : Dataset :=
  {| Rows := Some 1;
     Columns := Some 2;
     BitsAllocated := Some 16;
     BitsStored := Some 16;
     PixelRepresentation := Some 0;
     Modality := Some "CT"%string;
     WindowCenter := None;
     WindowWidth := None;
     NumberOfFrames := Some 2;
     PixelDataOf := Some (PdArrayBuffer [0; 0; 100; 0; 240; 0; 232; 3]) |}.

Definition quietCollaborators : Collaborators :=
  exampleCollaborators (fun _ _ _ => Throw "unused") (fun _ => Ok (None, None))
    (fun _ => Ok []) (fun _ _ => Ok []).

(** A job of three images: image 0 is 100x100, image 1 is 200x200 and
    image 2 cannot be read (which makes the volume fall back to
    [processFrame], one image at a time). *)
Definition mismatchedCollaborators : Collaborators :=
  exampleCollaborators
    (fun _ _ _ => Throw "unused")
    (fun buffer =>
       match buffer with
       | 1 :: _ => Ok (Some 100, Some 100)
       | _ => Ok (Some 200, Some 200)
       end)
    (fun i =>
       match i with
       | 0%nat => Ok [1; 1; 1]
       | 1%nat => Ok [2; 2; 2]
       | _ => Throw "Failed to read image"
       end)
    (fun _ _ => Ok []).

(** A decoder that yields only two frames for a video announced with
    three: each frame is one pixel of 3 channels. *)
Definition shortVideoCollaborators : Collaborators :=
  exampleCollaborators
    (fun _ _ _ => Throw "unused")
    (fun _ => Ok (Some 1, Some 1))
    (fun _ => Throw "unused")
    (fun _ _ => Ok [[10; 20; 30]; [40; 50; 60]]).

(** ** Notions used in the further statements *)

(** The mask alpha the compositing loop reads for pixel [i]
    ([undefined > 0] is false, as is [0 > 0]). *)
Definition maskAlphaAt (maskRgba : list Z) (i : nat) : Z :=
  default 0 (maskRgba !! (i * 4 + 3)%nat).

(** The sample at index [k] of the frame buffer is one the compositing loop
    over [pixels] pixels sets to 0: some pixel [i] with a positive mask alpha
    has [i * imageChannels <= k <= i * imageChannels + 2]. *)
Definition blackened (pixels imageChannels : nat) (maskRgba : list Z) (k : nat) : bool :=
  existsb (fun i => (0 <? maskAlphaAt maskRgba i)
                    && (i * imageChannels <=? k)%nat && (k <=? i * imageChannels + 2)%nat)
          (seq 0 pixels).

(** All results of a volume are successes. *)
Definition allSucceeded (results : list FrameResult) : Prop :=
  Forall (fun result => success result = true /\ error result = None) results.

(** The character [c] occurs in [s]. *)
Fixpoint hasChar (c : ascii) (s : string) : bool :=
  match s with
  | EmptyString => false
  | String a rest => Ascii.eqb a c || hasChar c rest
  end.

(** ** [convertToRgbaBuffer] ([videoProcessor.ts] lines 248-280) *)

(** One iteration of the loop: the pixel is marked opaque red or written
    transparent. *)
Definition convertStep (maskData : list Z) (channels : nat)
    (rgbaBuffer : list Z) (i : nat) : list Z :=
  let targetIndex := (i * 4)%nat in
  if detected (maskPixel maskData channels i)
  then writeRgba rgbaBuffer targetIndex 255 0 0 255
  else writeRgba rgbaBuffer targetIndex 0 0 0 0.

(** [Buffer.alloc] rejects a negative size. *)
Definition convertToRgbaBuffer (maskData : list Z) (width height : Z) (channels : nat)
    : Exc (list Z) :=
  let pixelCount := width * height in
  if pixelCount <? 0 then Throw "ERR_OUT_OF_RANGE"
  else Ok (fold_left (convertStep maskData channels) (seq 0 (Z.to_nat pixelCount))
             (alloc (Z.to_nat pixelCount * 4))).

(** ** Frame source: batches of frames ([frameExtractor.ts]) *)

(** The file a job reads its frames from, as the extractor sees it. *)
Record FrameFile : Type := {
  (** [fs.readFile(filePath)]: the bytes of the file *)
  fileBytes : Exc (list Z);
  (** [path.extname(filePath).toLowerCase()] *)
  fileExtension : string;
  (** [naturalizeDataset(DicomMessage.readFile(bytes).dict)] on the bytes of
      the file *)
  fileDataset : Exc Dataset;
  (** the [ffmpeg] run that writes the frames [startFrame .. endFrame] of the
      video to numbered files *)
  ffmpegRun : nat -> nat -> Exc unit;
  (** [fs.readFile] of the [i]-th file written for the batch, [i] from 1 *)
  readFrameFile : nat -> nat -> nat -> Exc (list Z)
}.

Module FrameExtractor.

(** [isDicomFile] (lines 149-168): the signature [DICM] at offset 128 of a
    file of more than 132 bytes (decoding as ['ascii'] drops the high bit of
    each byte), else the extension; a file that cannot be read is no DICOM
    file. *)
Definition isDicomFile (file : FrameFile) : bool :=
  match fileBytes file with
  | Throw _ => false
  | Ok buffer =>
      if (132 <? length buffer)%nat
         && bool_decide ((fun byte => byte mod 128) <$> take 4 (drop 128 buffer)
                         = [68; 73; 67; 77])
      then true
      else String.eqb (fileExtension file) ".dcm" || String.eqb (fileExtension file) ".dicom"
  end.

(** [extractDicomImage(filePath)]: the file is read and parsed inside the
    [try]. *)
Definition extractDicomImage (E : Collaborators) (file : FrameFile) : list Z :=
  match fileDataset file with
  | Ok dataset => extractDicomImage E dataset
  | Throw _ => placeholderImage E
  end.

(** [extractDicomFrame(filePath, frameIndex)]: an error of reading or
    parsing is caught and answered by [extractDicomImage(filePath)]. *)
Definition extractDicomFrame (E : Collaborators) (file : FrameFile) (frameIndex : Z)
    : Exc (list Z) :=
  match fileDataset file with
  | Ok dataset => extractDicomFrame E dataset frameIndex
  | Throw _ => Ok (extractDicomImage E file)
  end.

(** [extractFrameBatch] (lines 765-836).  For a DICOM file every frame index
    from [startFrame] to [endFrame] is extracted, the first-frame image
    standing in for a frame whose extraction throws.  For a video the frames
    written by [ffmpeg] are read back in order, and a file that cannot be read
    is skipped. *)
Definition extractFrameBatch (E : Collaborators) (file : FrameFile)
    (startFrame endFrame : nat) : Exc (list (list Z)) :=
  if isDicomFile file then
    Ok ((fun frameIndex =>
           catch (extractDicomFrame E file (Z.of_nat frameIndex))
                 (fun _ => extractDicomImage E file))
          <$> seq startFrame (S endFrame - startFrame))
  else
    _ ← ffmpegRun file startFrame endFrame;
    let frameCount := (S endFrame - startFrame)%nat in
    mret (omap (fun i => match readFrameFile file startFrame endFrame i with
                         | Ok buffer => Some buffer
                         | Throw _ => None
                         end)
               (seq 1 frameCount)).

End FrameExtractor.

(** The collaborators of a job whose frames come from [file]. *)
Definition readingFrom (E : Collaborators) (file : FrameFile) : Collaborators :=
  {| sharpDecodeResize := sharpDecodeResize E;
     sharpResizeRaw := sharpResizeRaw E;
     sharpMetadata := sharpMetadata E;
     sharpRaw := sharpRaw E;
     sharpToPng := sharpToPng E;
     sharpEncode := sharpEncode E;
     writeFile := writeFile E;
     extractFrameBatch := FrameExtractor.extractFrameBatch E file;
     getImageAsBuffer := getImageAsBuffer E;
     saveProcessedImage := saveProcessedImage E;
     sharpGrayPng := sharpGrayPng E;
     placeholderImage := placeholderImage E;
     prepareTempFolder := prepareTempFolder E;
     createImageZip := createImageZip E |}.

(** A two-frame DICOM file (see [ctDataset]) with its signature, and a video
    of which [ffmpeg] writes frame files that can all be read but the
    second. *)
Definition dicomFile : FrameFile :=
  {| fileBytes := Ok (replicate 128 0 ++ [68; 73; 67; 77; 0]);
     fileExtension := "";
     fileDataset := Ok ctDataset;
     ffmpegRun := fun _ _ => Throw "Invalid data found when processing input";
     readFrameFile := fun _ _ _ => Throw "ENOENT" |}.

Definition videoFile : FrameFile :=
  {| fileBytes := Ok [0; 0; 0; 32; 102; 116; 121; 112];
     fileExtension := ".mp4";
     fileDataset := Throw "Not a DICOM file";
     ffmpegRun := fun _ _ => Ok tt;
     readFrameFile := fun _ _ i =>
       if (i =? 2)%nat then Throw "ENOENT" else Ok [Z.of_nat i; 0; 0] |}.

(** ** Output assembly ([createOutputZip], [generateMetadataCSV];
    [videoProcessor.ts] lines 958-1072) *)

(** [String(n)] for a frame number or a byte count, which print in
    decimal. *)
Definition decimal (n : nat) : string := NilEmpty.string_of_uint (Nat.to_uint n).

(** [s.padStart(targetLength, c)] *)
Definition padStart (targetLength : nat) (c : ascii) (s : string) : string :=
  string_of_list_ascii (replicate (targetLength - String.length s) c) +:+ s.

(** [`frame_${String(frameNumber).padStart(6, '0')}.${outputSettings.format}`] *)
Definition frameFileName (format : string) (frameNumber : nat) : string :=
  "frame_" +:+ padStart 6 "0" (decimal frameNumber) +:+ "." +:+ format.

(** The columns of the manifest that are the same in every row
    ([metadata.width], [metadata.height] and the output size of lines
    1039-1050, as they print), and the clock read when row [i] is made
    ([new Date().toISOString()]). *)
Record ManifestColumns : Type := {
  originalWidthText : string;
  originalHeightText : string;
  outputWidthText : string;
  outputHeightText : string;
  timestampAt : nat -> string
}.

Definition csvHeaders : list string :=
  ["filename"; "frame_number"; "original_width"; "original_height"; "output_width";
   "output_height"; "timestamp"; "file_size"; "status"]%string.

(** The fields of the row of one frame (lines 1052-1068). *)
Definition csvRow (format : string) (columns : ManifestColumns) (index : nat)
    (frame : ProcessedFrame) : list string :=
  let filename := frameFileName format (pfFrameNumber frame) in
  let isSuccessful := (0 <? length (pfBuffer frame))%nat in
  let status := if isSuccessful then "success"%string else "failed"%string in
  [filename; decimal (pfFrameNumber frame);
   originalWidthText columns; originalHeightText columns;
   outputWidthText columns; outputHeightText columns;
   timestampAt columns index; decimal (length (pfBuffer frame)); status].

Definition newline : string := String "010" EmptyString.

(** [generateMetadataCSV]: [[headers.join(','), ...rows].join('\n')] *)
Definition generateMetadataCSV (processedFrames : list ProcessedFrame)
    (columns : ManifestColumns) (format : string) : string :=
  String.concat newline
    (String.concat "," csvHeaders
       :: imap (fun index frame => String.concat "," (csvRow format columns index frame))
               processedFrames).

(** What [createOutputZip] appends to the archive. *)
Inductive ArchiveEntry : Type :=
| FrameEntry (name : string) (data : list Z)
| TextEntry (name : string) (text : string).

(** [createOutputZip] (lines 958-1019): the frames with a non-empty buffer
    under [frames/], then the manifest of all frames when it is asked for. *)
Definition createOutputZip (processedFrames : list ProcessedFrame)
    (columns : ManifestColumns) (format : string) (includeMetadata : bool)
    : list ArchiveEntry :=
  let successfulFrames :=
    filter (fun frame => (0 < length (pfBuffer frame))%nat) processedFrames in
  ((fun frame => FrameEntry ("frames/" +:+ frameFileName format (pfFrameNumber frame))
                            (pfBuffer frame)) <$> successfulFrames)
  ++ (if includeMetadata
      then [TextEntry "metadata.csv" (generateMetadataCSV processedFrames columns format)]
      else []).

(** The frame number a file name carries: its digits read in decimal. *)
Definition parseDecimal (s : string) : option nat :=
  Nat.of_uint <$> NilEmpty.uint_of_string s.

Definition exampleColumns : ManifestColumns :=
  {| originalWidthText := "640"; originalHeightText := "480";
     outputWidthText := "224"; outputHeightText := "224";
     timestampAt := fun _ => "2025-01-01T00:00:00.000Z"%string |}.

(** ** The job store ([server/storage.ts], class [MemStorage]) *)

(** The values of the fields of a stored record. *)
Inductive JsValue : Type :=
| VUndefined
| VNull
| VString (s : string)
| VNumber (q : Q)
| VMask (maskData : MaskData Q)
| VSettings (settings : OutputSettings).

(** A record is a finite map from field names to values. *)
Abbreviation JsObject := (gmap string JsValue).

(** [{...a, ...b}]: the fields of [b] win. *)
Definition spread (a b : JsObject) : JsObject := b ∪ a.

(** [v || d] on a field that may be missing. *)
Definition fieldOr (v : option JsValue) (d : JsValue) : JsValue :=
  match v with
  | Some (VString s) => if String.eqb s EmptyString then d else VString s
  | Some (VNumber q) => if Qeq_bool q 0 then d else VNumber q
  | Some (VMask m) => VMask m
  | Some (VSettings s) => VSettings s
  | Some VUndefined | Some VNull | None => d
  end.

(** [v === s] for a string [s]. *)
Definition isString (v : option JsValue) (s : string) : bool :=
  match v with
  | Some (VString s') => String.eqb s' s
  | _ => false
  end.

(** A [Map] with string keys keeps its entries in the order of their first
    insertion. *)
Fixpoint mapGet {V} (key : string) (m : list (string * V)) : option V :=
  match m with
  | [] => None
  | (k, v) :: rest => if String.eqb k key then Some v else mapGet key rest
  end.

Fixpoint mapSet {V} (key : string) (value : V) (m : list (string * V)) : list (string * V) :=
  match m with
  | [] => [(key, value)]
  | (k, v) :: rest =>
      if String.eqb k key then (key, value) :: rest else (k, v) :: mapSet key value rest
  end.

Record MemStorage : Type := {
  videoJobs : gmap string JsObject;
  frameBatches : list (string * JsObject);
  processingProgress : gmap string JsObject
}.

Module Storage.

(** [createVideoJob]; [id] is the value of [randomUUID()] and [now] that of
    [new Date().toISOString()]. *)
Definition createVideoJob (id now : string) (insertJob : JsObject) (st : MemStorage)
    : JsObject * MemStorage :=
  let job :=
    spread insertJob
      (list_to_map
         [("id", VString id);
          ("status", fieldOr (insertJob !! "status") (VString "uploaded"));
          ("progress", fieldOr (insertJob !! "progress") (VNumber 0));
          ("createdAt", VString now);
          ("completedAt", VNull);
          ("errorMessage", VNull)]%string) in
  (job, {| videoJobs := <[id := job]> (videoJobs st);
           frameBatches := frameBatches st;
           processingProgress := processingProgress st |}).

Definition getVideoJob (id : string) (st : MemStorage) : option JsObject :=
  videoJobs st !! id.

(** [updateVideoJob]: [undefined] for an unknown job, which is not created. *)
Definition updateVideoJob (id : string) (updates : JsObject) (st : MemStorage)
    : option JsObject * MemStorage :=
  match videoJobs st !! id with
  | None => (None, st)
  | Some job =>
      let updatedJob := spread job updates in
      (Some updatedJob,
       {| videoJobs := <[id := updatedJob]> (videoJobs st);
          frameBatches := frameBatches st;
          processingProgress := processingProgress st |})
  end.

Definition createFrameBatch (id : string) (insertBatch : JsObject) (st : MemStorage)
    : JsObject * MemStorage :=
  let batch :=
    spread insertBatch
      (list_to_map
         [("id", VString id);
          ("status", fieldOr (insertBatch !! "status") (VString "pending"));
          ("workerId", fieldOr (insertBatch !! "workerId") VNull);
          ("processedAt", VNull)]%string) in
  (batch, {| videoJobs := videoJobs st;
             frameBatches := mapSet id batch (frameBatches st);
             processingProgress := processingProgress st |}).

(** [Array.from(this.frameBatches.values()).filter(batch => batch.jobId === jobId)] *)
Definition getFrameBatches (jobId : string) (st : MemStorage) : list JsObject :=
  filter (fun batch : JsObject => isString (batch !! "jobId"%string) jobId = true)
         (snd <$> frameBatches st).

Definition updateFrameBatch (id : string) (updates : JsObject) (st : MemStorage)
    : option JsObject * MemStorage :=
  match mapGet id (frameBatches st) with
  | None => (None, st)
  | Some batch =>
      let updatedBatch := spread batch updates in
      (Some updatedBatch,
       {| videoJobs := videoJobs st;
          frameBatches := mapSet id updatedBatch (frameBatches st);
          processingProgress := processingProgress st |})
  end.

Definition getProcessingProgress (jobId : string) (st : MemStorage) : option JsObject :=
  processingProgress st !! jobId.

(** The record [updateProcessingProgress] starts from for a job without
    progress. *)
Definition initialProgress (jobId : string) : JsObject :=
  list_to_map
    [("jobId", VString jobId); ("stage", VString "uploading"); ("progress", VNumber 0);
     ("currentFrame", VNumber 0); ("totalFrames", VNumber 0); ("fps", VNumber 0);
     ("cpuUsage", VNumber 0); ("memoryUsage", VNumber 0); ("eta", VNumber 0)]%string.

Definition updateProcessingProgress (jobId : string) (progress : JsObject) (st : MemStorage)
    : MemStorage :=
  let existing := default (initialProgress jobId) (processingProgress st !! jobId) in
  {| videoJobs := videoJobs st;
     frameBatches := frameBatches st;
     processingProgress := <[jobId := spread existing progress]> (processingProgress st) |}.

End Storage.

(** ** Jobs on the store ([processVideo], [videoProcessor.ts] lines 282-368;
    [extractVideoMetadata], [frameExtractor.ts] lines 40-110) *)

Record VideoMetadata : Type := {
  videoDuration : Q;
  videoWidth : Z;
  videoHeight : Z;
  videoFrameRate : Q;
  videoTotalFrames : Z
}.

Module Metadata.

(** [extractVideoMetadata]: for a DICOM file the frame count stands for
    the duration, at one frame per second, and a file that cannot be parsed
    counts as one frame of 512x512; for a video the answer is what the
    [ffprobe] branch resolves or rejects with. *)
Definition extractVideoMetadata (file : FrameFile) (ffprobe : Exc VideoMetadata)
    : Exc VideoMetadata :=
  if FrameExtractor.isDicomFile file then
    Ok (match fileDataset file with
        | Ok dataset =>
            let totalFrames := detectDicomFrameCount dataset in
            {| videoDuration := inject_Z totalFrames;
               videoWidth := orDefault (Columns dataset) 512;
               videoHeight := orDefault (Rows dataset) 512;
               videoFrameRate := 1;
               videoTotalFrames := totalFrames |}
        | Throw _ =>
            {| videoDuration := 1; videoWidth := 512; videoHeight := 512;
               videoFrameRate := 1; videoTotalFrames := 1 |}
        end)
  else ffprobe.

End Metadata.

(** The progress object a batch reports after each volume (lines 903-908);
    its four numbers depend on the clock. *)
Record VolumeProgress : Type := {
  reportedProgress : JsValue;
  reportedCurrentFrame : JsValue;
  reportedFps : JsValue;
  reportedEta : JsValue
}.

(** What a running batch does to the store: a progress report after a
    volume, and the update of its record when it is done (lines 914-920). *)
Inductive BatchEvent : Type :=
| VolumeDone (report : VolumeProgress)
| BatchDone (processedAt : string).

(** What the run of a job takes from its environment: identifiers, the
    clock, the interleaving of its batches and the output stream. *)
Record RunEnvironment : Type := {
  (** [ffprobe] on the file, with the frame rate parsed and the frames
      counted *)
  probe : Exc VideoMetadata;
  (** [randomUUID()] for the record of batch [i] *)
  batchId : nat -> string;
  (** the output size [processBatchesInParallel] derives from the settings
      and the stored job (lines 802-836) *)
  outputSizeUsed : Z * Z;
  (** the events of the batches until [Promise.all] settles *)
  eventsWhileRunning : list BatchEvent;
  (** [Promise.all] rejects with the first rejection in time: its position
      among the batches that reject *)
  firstRejected : nat;
  (** after a rejection the other batches go on: their events between the
      two updates of the [catch] of [processVideo], and after them *)
  eventsDuringCatch : list BatchEvent;
  eventsAfterCatch : list BatchEvent;
  (** [outputSettings.format], [outputSettings.includeMetadata] and the
      fixed columns of the manifest *)
  archiveFormat : string;
  archiveManifest : bool;
  archiveColumns : ManifestColumns;
  (** writing the archive to [zipPath]: done, or the error of a stream *)
  zipPath : string;
  sendArchive : list ArchiveEntry -> Exc unit;
  (** [new Date().toISOString()] when the job completes *)
  completedAtTime : string
}.

(** An object literal. *)
Definition object (fields : list (string * JsValue)) : JsObject := list_to_map fields.

(** The loop of [startBackgroundFrameExtraction]: the frames stored under
    their numbers, their count, and the job store. *)
Record ExtractionRun : Type := {
  frameStore : gmap nat (list Z);
  extractedFrames : nat;
  extractionStore : MemStorage
}.

Module VideoProcessor.

(** [updateProgress]: the stored progress (the event sent to the clients
    leaves no trace in the store). *)
Definition updateProgress (jobId : string) (progress : JsObject) (st : MemStorage)
    : MemStorage :=
  Storage.updateProcessingProgress jobId progress st.

(** The records of the batches (lines 314-322). *)
Definition batchRecord (jobId : string) (i : nat) (batch : Batch) : JsObject :=
  object [("jobId", VString jobId);
          ("batchNumber", VNumber (inject_Z (Z.of_nat (i + 1))));
          ("startFrame", VNumber (inject_Z (Z.of_nat (batchStart batch))));
          ("endFrame", VNumber (inject_Z (Z.of_nat (batchEnd batch))));
          ("status", VString "pending")]%string.

Definition createBatchRecords (env : RunEnvironment) (jobId : string) (batches : list Batch)
    (st : MemStorage) : MemStorage :=
  foldl (fun st insert => snd (Storage.createFrameBatch (fst insert) (snd insert) st))
        st (imap (fun i batch => (batchId env i, batchRecord jobId i batch)) batches).

(** The identifier under which a finished batch updates its record:
    [batches.find(...)?.toString() || ''], the text of a plain object. *)
Definition batchRecordKey : string := "[object Object]".

Definition volumeProgress (report : VolumeProgress) : JsObject :=
  object [("progress", reportedProgress report);
          ("currentFrame", reportedCurrentFrame report);
          ("fps", reportedFps report);
          ("eta", reportedEta report)]%string.

Definition batchEvent (jobId : string) (st : MemStorage) (event : BatchEvent) : MemStorage :=
  match event with
  | VolumeDone report => updateProgress jobId (volumeProgress report) st
  | BatchDone processedAt =>
      snd (Storage.updateFrameBatch batchRecordKey
             (object [("status", VString "completed");
                      ("processedAt", VString processedAt)]%string) st)
  end.

Definition batchEvents (jobId : string) (events : list BatchEvent) (st : MemStorage)
    : MemStorage :=
  foldl (batchEvent jobId) st events.

(** The [catch] of [processVideo] (lines 352-367), with the events of the
    batches that are still running. *)
Definition failJobWhile (jobId msg : string) (during after : list BatchEvent)
    (st : MemStorage) : Exc string * MemStorage :=
  let st := snd (Storage.updateVideoJob jobId
                   (object [("status", VString "failed");
                            ("errorMessage", VString msg)]%string) st) in
  let st := batchEvents jobId during st in
  let st := updateProgress jobId
              (object [("stage", VString "failed"); ("progress", VNumber 0);
                       ("errorMessage", VString msg)]%string) st in
  let st := batchEvents jobId after st in
  (Throw msg, st).

Definition failJob (jobId msg : string) (st : MemStorage) : Exc string * MemStorage :=
  failJobWhile jobId msg [] [] st.

(** The messages of the batches that reject, in the order of [batches]. *)
Definition rejections (E : Collaborators) (batches : list Batch) (maskData : MaskData Q)
    (size : Z * Z) (settings : OutputSettings) : list string :=
  omap (fun batch => match processBatch E maskData size settings batch with
                     | Throw msg => Some msg
                     | Ok _ => None
                     end) batches.

(** [processVideo]: the path of the archive or the error thrown, and the
    store it leaves once every batch has stopped. *)
Definition processVideo (E : Collaborators) (file : FrameFile) (env : RunEnvironment)
    (jobId : string) (maskData : MaskData Q) (settings : OutputSettings) (st : MemStorage)
    : Exc string * MemStorage :=
  let st := updateProgress jobId
              (object [("stage", VString "extracting"); ("progress", VNumber 5)]%string) st in
  match Metadata.extractVideoMetadata file (probe env) with
  | Throw msg => failJob jobId msg st
  | Ok metadata =>
      let st := snd (Storage.updateVideoJob jobId
                       (object [("duration", VNumber (videoDuration metadata));
                                ("width", VNumber (inject_Z (videoWidth metadata)));
                                ("height", VNumber (inject_Z (videoHeight metadata)));
                                ("frameRate", VNumber (videoFrameRate metadata));
                                ("totalFrames", VNumber (inject_Z (videoTotalFrames metadata)));
                                ("status", VString "processing");
                                ("maskData", VMask maskData);
                                ("outputSettings", VSettings settings)]%string) st) in
      let st := updateProgress jobId
                  (object [("stage", VString "processing"); ("progress", VNumber 10);
                           ("totalFrames",
                            VNumber (inject_Z (videoTotalFrames metadata)))]%string) st in
      let batches := createFrameBatches (Z.to_nat (videoTotalFrames metadata))
                                        (batchSizeOf settings) in
      let st := createBatchRecords env jobId batches st in
      let st := batchEvents jobId (eventsWhileRunning env) st in
      match processBatchesInParallel (readingFrom E file) batches maskData
              (outputSizeUsed env) settings with
      | Throw msg =>
          failJobWhile jobId
            (default msg (rejections (readingFrom E file) batches maskData
                            (outputSizeUsed env) settings !! firstRejected env))
            (eventsDuringCatch env) (eventsAfterCatch env) st
      | Ok processedFrames =>
          let st := updateProgress jobId
                      (object [("stage", VString "exporting");
                               ("progress", VNumber 90)]%string) st in
          match sendArchive env
                  (createOutputZip processedFrames (archiveColumns env)
                     (archiveFormat env) (archiveManifest env)) with
          | Throw msg => failJob jobId msg st
          | Ok _ =>
              let st := snd (Storage.updateVideoJob jobId
                               (object [("status", VString "completed");
                                        ("progress", VNumber 100);
                                        ("completedAt", VString (completedAtTime env));
                                        ("outputZipPath", VString (zipPath env))]%string)
                               st) in
              let st := updateProgress jobId
                          (object [("stage", VString "completed");
                                   ("progress", VNumber 100)]%string) st in
              (Ok (zipPath env), st)
          end
      end
  end.

(** [startBackgroundFrameExtraction] (lines 1091-1178): the batches are
    extracted one after the other, a batch that fails is skipped.  The loop
    of lines 1108-1111 is that of [createFrameBatches] with a batch size of
    15.  [statusText] stands for the two template strings of the progress
    messages. *)
Definition storeBatchFrames (batch : Batch) (batchFrames : list (list Z))
    (frameStore : gmap nat (list Z)) : gmap nat (list Z) :=
  foldl (fun frameStore entry =>
           <[(batchStart batch + fst entry)%nat := snd entry]> frameStore)
        frameStore (imap (fun index frameBuffer => (index, frameBuffer)) batchFrames).

Definition extractionProgressOf (extracted totalFrames : nat) : Q :=
  (inject_Z (Z.of_nat extracted) / inject_Z (Z.of_nat totalFrames)) * 100.

Definition extractBatch (E : Collaborators) (file : FrameFile)
    (statusText : nat -> string) (jobId : string) (totalFrames : nat)
    (acc : ExtractionRun) (batch : Batch) : ExtractionRun :=
  match FrameExtractor.extractFrameBatch E file (batchStart batch) (batchEnd batch) with
  | Throw _ => acc
  | Ok batchFrames =>
      let extracted := (extractedFrames acc + length batchFrames)%nat in
      {| frameStore := storeBatchFrames batch batchFrames (frameStore acc);
         extractedFrames := extracted;
         extractionStore :=
           updateProgress jobId
             (object [("stage", VString "extracting");
                      ("currentFrame", VNumber (inject_Z (Z.of_nat extracted)));
                      ("totalFrames", VNumber (inject_Z (Z.of_nat totalFrames)));
                      ("extractionProgress",
                       VNumber (extractionProgressOf extracted totalFrames));
                      ("status", VString (statusText extracted))]%string)
             (extractionStore acc) |}
  end.

Definition startBackgroundFrameExtraction (E : Collaborators) (file : FrameFile)
    (statusText readyText : nat -> string) (jobId : string) (totalFrames : nat)
    (globalFrames : gmap string (gmap nat (list Z))) (st : MemStorage)
    : gmap string (gmap nat (list Z)) * MemStorage :=
  let st := snd (Storage.updateVideoJob jobId (object [("status", VString "extracting")]%string)
                   st) in
  let st := updateProgress jobId
              (object [("stage", VString "extracting");
                       ("currentFrame", VNumber 0);
                       ("totalFrames", VNumber (inject_Z (Z.of_nat totalFrames)));
                       ("extractionProgress", VNumber 0);
                       ("status",
                        VString "Background frame extraction in progress")]%string) st in
  let batches := createFrameBatches totalFrames 15 in
  let done := foldl (extractBatch E file statusText jobId totalFrames)
                    {| frameStore := ∅; extractedFrames := 0; extractionStore := st |}
                    batches in
  let st := snd (Storage.updateVideoJob jobId (object [("status", VString "ready")]%string)
                   (extractionStore done)) in
  let st := updateProgress jobId
              (object [("stage", VString "ready");
                       ("currentFrame", VNumber (inject_Z (Z.of_nat (extractedFrames done))));
                       ("totalFrames", VNumber (inject_Z (Z.of_nat totalFrames)));
                       ("extractionProgress", VNumber 100);
                       ("status", VString (readyText (extractedFrames done)))]%string) st in
  (<[jobId := frameStore done]> globalFrames, st).

End VideoProcessor.

(** A run on the two-frame file [dicomFile]: both batches report, the
    archive is written. *)
Definition exampleMask : MaskData Q :=
  vectorMaskData rectangle (CoordArray [0%Q; 0%Q; 1%Q; 1%Q]) 100%Q.

Definition exampleEnvironment : RunEnvironment :=
  {| probe := Throw "Failed to extract metadata: Invalid data found";
     batchId := fun i => "batch-" +:+ decimal i;
     outputSizeUsed := (2, 1);
     eventsWhileRunning :=
       [VolumeDone {| reportedProgress := VNumber 90;
                      reportedCurrentFrame := VNumber 2;
                      reportedFps := VNumber 40;
                      reportedEta := VNumber 0 |};
        BatchDone "2025-01-01T00:00:01.000Z"];
     firstRejected := 0;
     eventsDuringCatch := [];
     eventsAfterCatch := [];
     archiveFormat := "png";
     archiveManifest := true;
     archiveColumns := exampleColumns;
     zipPath := "output/job-1.zip";
     sendArchive := fun _ => Ok tt;
     completedAtTime := "2025-01-01T00:00:02.000Z" |}.

(** * Properties *)

(** Reduction of the steps of an [Exc] computation. *)
Ltac exc_simpl := cbn [mbind Exc_bind mret Exc_ret catch fst snd].

(** ** Coordinate transform *)

(** *** In binary64 *)

Lemma SFmul_opp_l (x y : spec_float) :
  SF64mul (SFopp x) y = SFopp (SF64mul x y).
Proof.
  unfold SF64mul, SFmul.
  destruct x as [sx|sx| |sx mx ex], y as [sy|sy| |sy my ey]; cbn [SFopp];
    try reflexivity; try (destruct sx, sy; reflexivity).
  unfold binary_round_aux.
  destruct (shr_fexp _ _ _ _ _) as [mrs' e'].
  destruct (shr_fexp _ _ _ _ _) as [mrs'' e''].
  destruct (shr_m mrs'') as [|m|m]; try reflexivity.
  - destruct sx, sy; reflexivity.
  - destruct (Z.leb e'' _); destruct sx, sy; reflexivity.
Qed.

(** Negation commutes with a product: rounding is symmetric. *)
Lemma float_mul_opp_l (a b : float) :
  PrimFloat.mul (PrimFloat.opp a) b = PrimFloat.opp (PrimFloat.mul a b).
Proof.
  apply Prim2SF_inj.
  rewrite mul_spec, !opp_spec, mul_spec. apply SFmul_opp_l.
Qed.

(** A finite number and its negation add up to [+0]. *)
Lemma float_add_opp (x : float) :
  finiteNumber x = true -> PrimFloat.add x (PrimFloat.opp x) = PrimFloat.zero.
Proof.
  unfold finiteNumber. intros Hfin.
  apply Prim2SF_inj. rewrite add_spec, opp_spec.
  change (Prim2SF PrimFloat.zero) with (S754_zero false).
  destruct (Prim2SF x) as [sx|sx| |sx mx ex]; try discriminate Hfin.
  - destruct sx; reflexivity.
  - unfold SF64add, SFadd. cbn [SFopp].
    rewrite Z.min_id. unfold shl_align. rewrite Z.sub_diag. cbn [fst].
    destruct sx; cbn [negb cond_Zopp];
      rewrite ?Z.add_opp_diag_l, ?Z.add_opp_diag_r; reflexivity.
Qed.

(** In binary64 the matrix has the stated components, and the top-left
    corner of the displayed image is mapped to [+0] in each coordinate whose
    product [displayOffset * scale] is finite. *)
Lemma transform_top_left_binary64 (m : MaskData float) (info : ImageDisplayInfo float)
    (dims : Dimensions float) (frameWidth frameHeight : float) :
  imageDisplayInfo m = Some info ->
  imageDimensions m = Some dims ->
  let matrix := calculateTransformationMatrix m frameWidth frameHeight in
  let tl := transformCoordinates (displayOffsetX info) (displayOffsetY info) matrix in
  scaleX matrix
    = PrimFloat.div frameWidth (PrimFloat.mul (dimWidth dims) (displayScale info)) /\
  scaleY matrix
    = PrimFloat.div frameHeight (PrimFloat.mul (dimHeight dims) (displayScale info)) /\
  offsetX matrix = PrimFloat.mul (PrimFloat.opp (displayOffsetX info)) (scaleX matrix) /\
  offsetY matrix = PrimFloat.mul (PrimFloat.opp (displayOffsetY info)) (scaleY matrix) /\
  (finiteNumber (PrimFloat.mul (displayOffsetX info) (scaleX matrix)) = true ->
     fst tl = PrimFloat.zero) /\
  (finiteNumber (PrimFloat.mul (displayOffsetY info) (scaleY matrix)) = true ->
     snd tl = PrimFloat.zero).
Proof.
  intros Hinfo Hdims.
  unfold calculateTransformationMatrix, transformCoordinates.
  rewrite Hinfo, Hdims. cbn.
  repeat split; intros Hfin; rewrite float_mul_opp_l; by apply float_add_opp.
Qed.

(** *** In exact arithmetic *)

Section TransformFacts.
Local Open Scope Q_scope.

Lemma transform_corners_exact (m : MaskData Q) (info : ImageDisplayInfo Q)
    (dims : Dimensions Q) (frameWidth frameHeight : Q) :
  imageDisplayInfo m = Some info ->
  imageDimensions m = Some dims ->
  ~ displayScale info == 0 ->
  ~ dimWidth dims == 0 ->
  ~ dimHeight dims == 0 ->
  let matrix := calculateTransformationMatrix m frameWidth frameHeight in
  let tl := transformCoordinates (displayOffsetX info) (displayOffsetY info) matrix in
  let br := transformCoordinates
              (displayOffsetX info + dimWidth dims * displayScale info)
              (displayOffsetY info + dimHeight dims * displayScale info) matrix in
  scaleX matrix == frameWidth / (dimWidth dims * displayScale info) /\
  scaleY matrix == frameHeight / (dimHeight dims * displayScale info) /\
  offsetX matrix == - displayOffsetX info * scaleX matrix /\
  offsetY matrix == - displayOffsetY info * scaleY matrix /\
  fst tl == 0 /\ snd tl == 0 /\
  fst br == frameWidth /\ snd br == frameHeight.
Proof.
  intros Hinfo Hdims Hs Hw Hh.
  unfold calculateTransformationMatrix, transformCoordinates.
  rewrite Hinfo, Hdims. cbn.
  repeat split; try reflexivity; try ring; field; auto.
Qed.

End TransformFacts.

(** C1 (as amended): for a mask with display placement
    [{scale, offsetX, offsetY}] and natural image dimensions the matrix has
    [scaleX = frameWidth / (naturalWidth * scale)],
    [scaleY = frameHeight / (naturalHeight * scale)],
    [offsetX = -displayOffsetX * scaleX], [offsetY = -displayOffsetY * scaleY].
    In binary64 the top-left corner of the displayed image maps to [0] in
    each coordinate whose product [displayOffset * scale] is finite.  In
    exact arithmetic, when the scale and the natural dimensions are not
    zero, the top-left corner maps to [(0, 0)] and the bottom-right corner
    to [(frameWidth, frameHeight)]. *)
Theorem transform_corners :
  (forall (m : MaskData float) (info : ImageDisplayInfo float) (dims : Dimensions float)
          (frameWidth frameHeight : float),
     imageDisplayInfo m = Some info ->
     imageDimensions m = Some dims ->
     let matrix := calculateTransformationMatrix m frameWidth frameHeight in
     let tl := transformCoordinates (displayOffsetX info) (displayOffsetY info) matrix in
     scaleX matrix
       = PrimFloat.div frameWidth (PrimFloat.mul (dimWidth dims) (displayScale info)) /\
     scaleY matrix
       = PrimFloat.div frameHeight (PrimFloat.mul (dimHeight dims) (displayScale info)) /\
     offsetX matrix = PrimFloat.mul (PrimFloat.opp (displayOffsetX info)) (scaleX matrix) /\
     offsetY matrix = PrimFloat.mul (PrimFloat.opp (displayOffsetY info)) (scaleY matrix) /\
     (finiteNumber (PrimFloat.mul (displayOffsetX info) (scaleX matrix)) = true ->
        fst tl = PrimFloat.zero) /\
     (finiteNumber (PrimFloat.mul (displayOffsetY info) (scaleY matrix)) = true ->
        snd tl = PrimFloat.zero)) /\
  (forall (m : MaskData Q) (info : ImageDisplayInfo Q) (dims : Dimensions Q)
          (frameWidth frameHeight : Q),
     imageDisplayInfo m = Some info ->
     imageDimensions m = Some dims ->
     ~ (displayScale info == 0)%Q ->
     ~ (dimWidth dims == 0)%Q ->
     ~ (dimHeight dims == 0)%Q ->
     let matrix := calculateTransformationMatrix m frameWidth frameHeight in
     let tl := transformCoordinates (displayOffsetX info) (displayOffsetY info) matrix in
     let br := transformCoordinates
                 (displayOffsetX info + dimWidth dims * displayScale info)%Q
                 (displayOffsetY info + dimHeight dims * displayScale info)%Q matrix in
     (scaleX matrix == frameWidth / (dimWidth dims * displayScale info))%Q /\
     (scaleY matrix == frameHeight / (dimHeight dims * displayScale info))%Q /\
     (offsetX matrix == - displayOffsetX info * scaleX matrix)%Q /\
     (offsetY matrix == - displayOffsetY info * scaleY matrix)%Q /\
     (fst tl == 0)%Q /\ (snd tl == 0)%Q /\
     (fst br == frameWidth)%Q /\ (snd br == frameHeight)%Q).
Proof.
  split.
  - exact transform_top_left_binary64.
  - exact transform_corners_exact.
Qed.

Lemma transform_corners_witness :
  (let scale := PrimFloat.div 600 224 in
   let m := placedMask scale 100%float 0%float 224%float 224%float in
   let matrix := calculateTransformationMatrix m 224%float 224%float in
   fst (transformCoordinates 100%float 0%float matrix) = PrimFloat.zero /\
   snd (transformCoordinates 100%float 0%float matrix) = PrimFloat.zero) /\
  (let m := placedMask (5 # 8)%Q 0%Q 75%Q 1280%Q 720%Q in
   let matrix := calculateTransformationMatrix m 224%Q 224%Q in
   (fst (transformCoordinates (0 + 1280 * (5 # 8)) (75 + 720 * (5 # 8)) matrix) == 224)%Q /\
   (snd (transformCoordinates (0 + 1280 * (5 # 8)) (75 + 720 * (5 # 8)) matrix) == 224)%Q).
Proof.
  destruct transform_corners as [Hfloat Hexact]. split.
  - pose proof (Hfloat (placedMask (PrimFloat.div 600 224) 100%float 0%float 224%float 224%float)
      {| displayScale := PrimFloat.div 600 224; displayOffsetX := 100%float;
         displayOffsetY := 0%float |}
      {| dimWidth := 224%float; dimHeight := 224%float |} 224%float 224%float
      eq_refl eq_refl) as H.
    cbv zeta in H. cbn [displayOffsetX displayOffsetY] in H.
    destruct H as (_ & _ & _ & _ & Hx & Hy).
    split; [apply Hx | apply Hy]; vm_compute; reflexivity.
  - pose proof (Hexact (placedMask (5 # 8)%Q 0%Q 75%Q 1280%Q 720%Q)
      {| displayScale := (5 # 8)%Q; displayOffsetX := 0%Q; displayOffsetY := 75%Q |}
      {| dimWidth := 1280%Q; dimHeight := 720%Q |} 224%Q 224%Q
      eq_refl eq_refl) as H.
    cbv zeta in H.
    destruct H as (_ & _ & _ & _ & _ & _ & Hx & Hy);
      [ intros E; vm_compute in E; discriminate
      | intros E; vm_compute in E; discriminate
      | intros E; vm_compute in E; discriminate | ].
    split; [exact Hx | exact Hy].
Defined.

(** C1, in the engine's arithmetic: a 224x224 image shown on an 800x600
    canvas (scale [600/224], bars of 100 pixels left and right) and a
    224x224 frame.  The bottom-right corner [(100 + 224*scale, 0 + 224*scale)]
    of the displayed image is mapped to an abscissa that is not 224. *)
Lemma transform_corner_binary64_inexact :
  let scale := PrimFloat.div 600 224 in
  let m := placedMask scale 100%float 0%float 224%float 224%float in
  let matrix := calculateTransformationMatrix m 224%float 224%float in
  let br := transformCoordinates
              (PrimFloat.add 100 (PrimFloat.mul 224 scale))
              (PrimFloat.add 0 (PrimFloat.mul 224 scale)) matrix in
  PrimFloat.eqb (fst br) 224 = false /\
  PrimFloat.ltb 224 (fst br) = true.
Proof. vm_compute. split; reflexivity. Qed.

(** ** Buffers *)

Lemma length_writeRgba (buf : list Z) (i : nat) (r g b a : Z) :
  length (writeRgba buf i r g b a) = length buf.
Proof. unfold writeRgba. by rewrite !length_insert. Qed.

Lemma lookup_writeRgba_other (buf : list Z) (i k : nat) (r g b a : Z) :
  (k < i \/ i + 4 <= k)%nat ->
  writeRgba buf i r g b a !! k = buf !! k.
Proof.
  intros Hk. unfold writeRgba.
  rewrite !list_lookup_insert_ne by lia. reflexivity.
Qed.

Lemma lookup_writeRgba_in (buf : list Z) (i c : nat) (r g b a : Z) :
  (i + 3 < length buf)%nat -> (c < 4)%nat ->
  writeRgba buf i r g b a !! (i + c)%nat =
    Some (toUint8 (match c with 0%nat => r | 1%nat => g | 2%nat => b | _ => a end)).
Proof.
  intros Hlen Hc. unfold writeRgba.
  destruct c as [|[|[|[|c]]]]; try lia.
  - rewrite !list_lookup_insert_ne by lia.
    rewrite Nat.add_0_r. apply list_lookup_insert_eq. lia.
  - rewrite !list_lookup_insert_ne by lia.
    apply list_lookup_insert_eq. rewrite length_insert. lia.
  - rewrite list_lookup_insert_ne by lia.
    apply list_lookup_insert_eq. rewrite !length_insert. lia.
  - apply list_lookup_insert_eq. rewrite !length_insert. lia.
Qed.

Lemma fold_left_seq_S {A} (f : A -> nat -> A) (n : nat) (a : A) :
  fold_left f (seq 0 (S n)) a = f (fold_left f (seq 0 n) a) n.
Proof. rewrite seq_S, fold_left_app. reflexivity. Qed.

(** ** Raster-payload path *)

(** The state of the output buffer after the first [n] iterations of the
    detection loop. *)
Lemma detect_loop_invariant (maskRaw : list Z) (maskChannels pixelCount n : nat) :
  (n <= pixelCount)%nat ->
  let buf := fold_left (detectStep maskRaw maskChannels) (seq 0 n) (alloc (pixelCount * 4)) in
  length buf = (pixelCount * 4)%nat /\
  forall j c, (j < pixelCount)%nat -> (c < 4)%nat ->
    buf !! (j * 4 + c)%nat =
      Some (if (j <? n)%nat && detected (maskPixel maskRaw maskChannels j) then 255 else 0).
Proof.
  induction n as [|n IH]; intros Hn buf.
  - subst buf. cbn [seq fold_left]. split.
    + apply length_replicate.
    + intros j c Hj Hc. cbn [andb Nat.ltb Nat.leb].
      apply lookup_replicate_2. lia.
  - subst buf. rewrite fold_left_seq_S.
    destruct (IH ltac:(lia)) as [Hlen Hget]. clear IH.
    set (prev := fold_left _ (seq 0 n) _) in *.
    destruct (detected (maskPixel maskRaw maskChannels n)) eqn:Hd;
      unfold detectStep; rewrite Hd.
    + split; [by rewrite length_writeRgba|].
      intros j c Hj Hc.
      destruct (decide (j = n)) as [->|Hne].
      * rewrite lookup_writeRgba_in by lia.
        assert ((n <? S n)%nat = true) as -> by (apply Nat.ltb_lt; lia).
        rewrite Hd. cbn [andb].
        destruct c as [|[|[|[|c]]]]; try lia; reflexivity.
      * rewrite lookup_writeRgba_other by lia.
        rewrite Hget by lia.
        assert ((j <? S n)%nat = (j <? n)%nat) as ->; [|reflexivity].
        destruct (Nat.ltb_spec j (S n)), (Nat.ltb_spec j n); try reflexivity; lia.
    + split; [exact Hlen|].
      intros j c Hj Hc. rewrite Hget by lia.
      destruct (decide (j = n)) as [->|Hne].
      * rewrite Hd, !andb_false_r. reflexivity.
      * assert ((j <? S n)%nat = (j <? n)%nat) as ->; [|reflexivity].
        destruct (Nat.ltb_spec j (S n)), (Nat.ltb_spec j n); try reflexivity; lia.
Qed.

Lemma detectMask_lookup (maskRaw : list Z) (maskChannels pixelCount j c : nat) :
  (j < pixelCount)%nat -> (c < 4)%nat ->
  detectMask maskRaw maskChannels pixelCount !! (j * 4 + c)%nat =
    Some (if detected (maskPixel maskRaw maskChannels j) then 255 else 0).
Proof.
  intros Hj Hc. unfold detectMask.
  destruct (detect_loop_invariant maskRaw maskChannels pixelCount pixelCount (le_n _))
    as [_ Hget].
  rewrite Hget by assumption.
  assert ((j <? pixelCount)%nat = true) as -> by (apply Nat.ltb_lt; lia).
  reflexivity.
Qed.

Lemma Qgtb_lt (x y : Q) : Qgtb x y = true <-> (y < x)%Q.
Proof.
  unfold Qgtb. rewrite negb_true_iff. split.
  - intros Hb. apply Qnot_le_lt. intros Hle.
    apply Qle_bool_iff in Hle. congruence.
  - intros Hlt. destruct (Qle_bool x y) eqn:Hb; [|reflexivity].
    apply Qle_bool_iff in Hb. exfalso. apply (Qlt_not_le _ _ Hlt Hb).
Qed.

Lemma detected_iff (r g b a : Z) :
  detected (r, g, b, a) = true <->
  128 < a /\ 150 < r /\
  (inject_Z g * (3 # 2) < inject_Z r)%Q /\ (inject_Z b * (3 # 2) < inject_Z r)%Q.
Proof.
  unfold detected, alphaThreshold, redMinimum, redDominanceRatio.
  rewrite !andb_true_iff, !Z.ltb_lt, !Qgtb_lt. tauto.
Qed.

(** C2: in the raster-payload path, for every pixel of the scaled mask raster
    with channel values [(r, g, b, a)], the output pixel is opaque white
    [(255,255,255,255)] iff [a > 128], [r > 150], [r > 1.5 * g] and
    [r > 1.5 * b], and fully transparent [(0,0,0,0)] otherwise. *)
Theorem raster_pixel_classification (E : Collaborators) (url base64Data : string)
    (frameWidth frameHeight : Z) (maskData : option (MaskData Q))
    (scaled : RawImage) (i : nat) :
  extractBase64 url = Ok base64Data ->
  scaleMaskPayload E base64Data frameWidth frameHeight maskData = Ok scaled ->
  (i < Z.to_nat (frameWidth * frameHeight))%nat ->
  let '(r, g, b, a) := maskPixel (rawData scaled) (rawChannels scaled) i in
  let out := createMaskFromBase64 E url frameWidth frameHeight maskData in
  let outPixel :=
    (out !! (i * 4)%nat, out !! (i * 4 + 1)%nat, out !! (i * 4 + 2)%nat, out !! (i * 4 + 3)%nat) in
  let masked :=
    128 < a /\ 150 < r /\
    (inject_Z g * (3 # 2) < inject_Z r)%Q /\ (inject_Z b * (3 # 2) < inject_Z r)%Q in
  (outPixel = (Some 255, Some 255, Some 255, Some 255) <-> masked) /\
  (outPixel = (Some 0, Some 0, Some 0, Some 0) <-> ~ masked).
Proof.
  intros Hurl Hscale Hi.
  destruct (maskPixel (rawData scaled) (rawChannels scaled) i) as [[[r g] b] a] eqn:Hpx.
  cbv zeta.
  unfold createMaskFromBase64. rewrite Hurl. exc_simpl.
  rewrite Hscale. exc_simpl.
  pose proof (detectMask_lookup (rawData scaled) (rawChannels scaled) _ i 0 Hi) as H0.
  pose proof (detectMask_lookup (rawData scaled) (rawChannels scaled) _ i 1 Hi) as H1.
  pose proof (detectMask_lookup (rawData scaled) (rawChannels scaled) _ i 2 Hi) as H2.
  pose proof (detectMask_lookup (rawData scaled) (rawChannels scaled) _ i 3 Hi) as H3.
  rewrite Nat.add_0_r in H0.
  rewrite H0, H1, H2, H3 by lia. rewrite Hpx.
  pose proof (detected_iff r g b a) as Hiff.
  destruct (detected (r, g, b, a)).
  - split; split; intros H; try (apply Hiff; reflexivity); try reflexivity.
    + discriminate H.
    + exfalso. apply H, Hiff. reflexivity.
  - assert (~ (128 < a /\ 150 < r /\
              (inject_Z g * (3 # 2) < inject_Z r)%Q /\
              (inject_Z b * (3 # 2) < inject_Z r)%Q)) as Hno.
    { intros H. apply Hiff in H. discriminate H. }
    split; split; intros H; try reflexivity; try assumption.
    + discriminate H.
    + contradiction.
Qed.

Lemma raster_pixel_classification_witness :
  let E := exampleCollaborators
             (fun _ w h => Ok {| rawData := [255; 0; 0; 255; 10; 200; 10; 255];
                                 rawWidth := w; rawHeight := h; rawChannels := 4 |})
             (fun _ => Ok (Some 2, Some 1)) (fun _ => Ok []) (fun _ _ => Ok []) in
  let out := createMaskFromBase64 E "data:image/png;base64,AAAA" 2 1 None in
  (out !! 0%nat, out !! 1%nat, out !! 2%nat, out !! 3%nat)
    = (Some 255, Some 255, Some 255, Some 255).
Proof.
  intros E out.
  pose proof (raster_pixel_classification E "data:image/png;base64,AAAA" "AAAA" 2 1 None
    {| rawData := [255; 0; 0; 255; 10; 200; 10; 255];
       rawWidth := 2; rawHeight := 1; rawChannels := 4 |} 0
    eq_refl eq_refl ltac:(vm_compute; lia)) as H.
  cbn in H. destruct H as [[_ H] _].
  apply H. repeat split; reflexivity.
Defined.

(** ** Compositing *)

Lemma blacken_transparent (imageChannels : nat) (maskRgba framePixels : list Z) (i : nat) :
  (forall a, maskRgba !! (i * 4 + 3)%nat = Some a -> a <= 0) ->
  blacken imageChannels maskRgba framePixels i = framePixels.
Proof.
  intros Hzero. unfold blacken.
  destruct (maskRgba !! (i * 4 + 3)%nat) as [a|] eqn:Ha; [|reflexivity].
  specialize (Hzero a eq_refl).
  destruct (Z.ltb_spec 0 a); [lia | reflexivity].
Qed.

Lemma applyMask_transparent (pixels imageChannels : nat) (maskRgba framePixels : list Z) :
  (forall i a, maskRgba !! (i * 4 + 3)%nat = Some a -> a <= 0) ->
  applyMask pixels imageChannels maskRgba framePixels = framePixels.
Proof.
  intros Hzero. unfold applyMask.
  induction pixels as [|n IH]; [reflexivity|].
  rewrite fold_left_seq_S, IH.
  apply blacken_transparent. intros a. apply Hzero.
Qed.

Lemma applyMask_alloc (pixels imageChannels size : nat) (framePixels : list Z) :
  applyMask pixels imageChannels (alloc size) framePixels = framePixels.
Proof.
  apply applyMask_transparent. intros i a Ha.
  apply lookup_replicate in Ha. lia.
Qed.

Lemma orDefault_pos (v d : Z) : 0 < v -> orDefault (Some v) d = v.
Proof.
  intros Hv. unfold orDefault.
  destruct (Z.eqb_spec v 0); [lia | reflexivity].
Qed.

(** C9: when decoding or scaling the raster payload throws,
    [createMaskFromBase64] returns the fully transparent buffer of
    [frameWidth * frameHeight * 4] zero bytes; compositing with it leaves
    every frame pixel unchanged, and [processFrame] reports the frame as
    successful, its output being the encoding of the unchanged pixels. *)
Theorem raster_failure_is_transparent (E : Collaborators) (task : Task)
    (referenceDimensions referenceDimensions' : option (Z * Z))
    (url msg : string) (width height : Z) (frameRgb : RawImage)
    (unprocessed processed : list Z) :
  canvasDataUrl (taskMask task) = Some url ->
  url <> EmptyString ->
  (extractBase64 url ≫= fun base64Data =>
     scaleMaskPayload E base64Data width height (Some (taskMask task))) = Throw msg ->
  0 < width -> 0 < height ->
  sharpMetadata E (frameBuffer task) = Ok (Some width, Some height) ->
  validateDimensions (frameNumber task) width height referenceDimensions
    = Ok referenceDimensions' ->
  sharpRaw E (frameBuffer task) = Ok frameRgb ->
  sharpEncode E Png
    {| rawData := rawData frameRgb; rawWidth := width; rawHeight := height;
       rawChannels := rawChannels frameRgb |} (frameResize task) = Ok processed ->
  sharpToPng E (frameBuffer task) = Ok unprocessed ->
  (forall path data, writeFile E path data = Ok tt) ->
  (forall image, isOk (sharpEncode E Png image None) = true) ->
  createMaskFromBase64 E url width height (Some (taskMask task))
    = replicate (Z.to_nat (width * height) * 4) 0 /\
  (forall pixels channels framePixels,
     applyMask pixels channels
       (createMaskFromBase64 E url width height (Some (taskMask task))) framePixels
     = framePixels) /\
  processFrame E task referenceDimensions
    = (succeeded (frameNumber task) processed, referenceDimensions').
Proof.
  intros Hurl Hne Hthrow Hw Hh Hmeta Hdims Hraw Henc Hpng Hwrite Hdebug.
  assert (createMaskFromBase64 E url width height (Some (taskMask task))
          = alloc (Z.to_nat (width * height) * 4)) as Hmask.
  { unfold createMaskFromBase64.
    destruct (extractBase64 url) as [base64Data|m] eqn:Hx; cbn [mbind Exc_bind] in *.
    - rewrite Hthrow. reflexivity.
    - reflexivity. }
  split; [exact Hmask|]. split.
  { intros. rewrite Hmask. apply applyMask_alloc. }
  unfold processFrame.
  assert ((_ ← (if (frameNumber task =? 0)%nat
                then unprocessedBuffer ← sharpToPng E (frameBuffer task);
                     writeFile E "output/debug_frame_0_original.png" unprocessedBuffer
                else mret tt);
           metadata ← sharpMetadata E (frameBuffer task);
           mret (orDefault (fst metadata) 1920, orDefault (snd metadata) 1080))
          = Ok (width, height)) as ->.
  { destruct (frameNumber task =? 0)%nat.
    - rewrite Hpng. exc_simpl. rewrite Hwrite. exc_simpl.
      rewrite Hmeta. exc_simpl.
      by rewrite !orDefault_pos.
    - exc_simpl. rewrite Hmeta.
      exc_simpl.
      by rewrite !orDefault_pos. }
  rewrite Hdims, Hraw. exc_simpl.
  unfold createMaskRgbaBuffer. rewrite Hurl.
  destruct (String.eqb_spec url EmptyString) as [->|_]; [contradiction|].
  destruct (Z.leb_spec width 0); [lia|]. destruct (Z.leb_spec height 0); [lia|].
  cbn [orb mbind Exc_bind]. rewrite Hmask, applyMask_alloc, Henc.
  exc_simpl.
  destruct (frameNumber task =? 0)%nat.
  - rewrite Hwrite. exc_simpl.
    specialize (Hdebug {| rawData := alloc (Z.to_nat (width * height) * 4);
                          rawWidth := width; rawHeight := height; rawChannels := 4 |}).
    destruct (sharpEncode E Png _ None); [|discriminate Hdebug].
    exc_simpl. rewrite Hwrite. reflexivity.
  - reflexivity.
Qed.

Lemma raster_failure_is_transparent_witness :
  let E := exampleCollaborators (fun _ _ _ => Throw "Input buffer contains unsupported image format")
             (fun _ => Ok (Some 2, Some 1)) (fun _ => Ok []) (fun _ _ => Ok []) in
  let task := {| frameBuffer := [9; 8; 7; 6; 5; 4];
                 taskMask := rasterMaskData "data:image/png;base64,AAAA";
                 outputSize := (2, 1);
                 outputSettings := exampleSettings;
                 frameNumber := 0 |} in
  processFrame E task None = (succeeded 0 [9; 8; 7; 6; 5; 4], Some (2, 1)).
Proof.
  intros E task.
  refine (proj2 (proj2 (raster_failure_is_transparent E task None (Some (2, 1))
    "data:image/png;base64,AAAA" "Input buffer contains unsupported image format" 2 1
    {| rawData := [9; 8; 7; 6; 5; 4]; rawWidth := 0; rawHeight := 0; rawChannels := 3 |}
    [9; 8; 7; 6; 5; 4] [9; 8; 7; 6; 5; 4]
    eq_refl _ eq_refl _ _ eq_refl eq_refl eq_refl eq_refl eq_refl _ _))).
  - discriminate.
  - lia.
  - lia.
  - reflexivity.
  - reflexivity.
Defined.

(** ** The clamping step *)

Lemma Qltb_false (x y : Q) : Qltb x y = false -> (y <= x)%Q.
Proof.
  unfold Qltb. rewrite negb_false_iff. apply Qle_bool_iff.
Qed.

Lemma Qgtb_false (x y : Q) : Qgtb x y = false -> (x <= y)%Q.
Proof.
  unfold Qgtb. rewrite negb_false_iff. apply Qle_bool_iff.
Qed.

Lemma clamp_range (lo hi v : Q) :
  (lo <= hi)%Q -> (lo <= Qmax lo (Qmin v hi) /\ Qmax lo (Qmin v hi) <= hi)%Q.
Proof.
  intros Hle. split.
  - apply Q.le_max_l.
  - apply Q.max_lub; [exact Hle | apply Q.le_min_r].
Qed.

(** C3 (as amended): for every rectangle and every frame of at least one
    pixel in each direction, the rectangle after the clamping step satisfies
    [0 <= x], [0 <= y], [x + width <= frameWidth], [y + height <= frameHeight];
    [width >= 1] and [height >= 1] hold when the rectangle exceeded the frame
    (the step then clamps) or already had them: a rectangle that does not
    exceed the frame is left as it is.  The rectangle [(90, 90, 20, 20)] on a
    100x100 frame becomes [(90, 90, 10, 10)]. *)
Theorem clamp_within_frame (pixelCoords : PixelCoords) (frameWidth frameHeight : Q) :
  (1 <= frameWidth)%Q -> (1 <= frameHeight)%Q ->
  let clamped := clampToFrame pixelCoords frameWidth frameHeight in
  (0 <= pcX clamped)%Q /\ (0 <= pcY clamped)%Q /\
  (pcX clamped + pcWidth clamped <= frameWidth)%Q /\
  (pcY clamped + pcHeight clamped <= frameHeight)%Q /\
  (exceedsFrame pixelCoords frameWidth frameHeight = true ->
     (1 <= pcWidth clamped)%Q /\ (1 <= pcHeight clamped)%Q) /\
  (exceedsFrame pixelCoords frameWidth frameHeight = false -> clamped = pixelCoords) /\
  ((1 <= pcWidth pixelCoords)%Q -> (1 <= pcWidth clamped)%Q) /\
  ((1 <= pcHeight pixelCoords)%Q -> (1 <= pcHeight clamped)%Q) /\
  clampToFrame {| pcX := 90; pcY := 90; pcWidth := 20; pcHeight := 20 |} 100 100
    = {| pcX := 90; pcY := 90; pcWidth := 10; pcHeight := 10 |}.
Proof.
  intros HW HH clamped. subst clamped. unfold clampToFrame.
  destruct (exceedsFrame pixelCoords frameWidth frameHeight) eqn:Hex.
  - cbn [pcX pcY pcWidth pcHeight].
    destruct (clamp_range 0 (frameWidth - 1) (pcX pixelCoords) ltac:(lra)) as [Hx0 Hx1].
    destruct (clamp_range 0 (frameHeight - 1) (pcY pixelCoords) ltac:(lra)) as [Hy0 Hy1].
    set (x := Qmax 0 (Qmin (pcX pixelCoords) (frameWidth - 1))) in *.
    set (y := Qmax 0 (Qmin (pcY pixelCoords) (frameHeight - 1))) in *.
    destruct (clamp_range 1 (frameWidth - x) (pcWidth pixelCoords) ltac:(lra)) as [Hw0 Hw1].
    destruct (clamp_range 1 (frameHeight - y) (pcHeight pixelCoords) ltac:(lra)) as [Hh0 Hh1].
    set (w := Qmax 1 (Qmin (pcWidth pixelCoords) (frameWidth - x))) in *.
    set (h := Qmax 1 (Qmin (pcHeight pixelCoords) (frameHeight - y))) in *.
    repeat split; try assumption; try lra; discriminate.
  - unfold exceedsFrame in Hex.
    apply orb_false_elim in Hex as [Hex Hh].
    apply orb_false_elim in Hex as [Hex Hw].
    apply orb_false_elim in Hex as [Hx Hy].
    apply Qltb_false in Hx, Hy. apply Qgtb_false in Hw, Hh.
    repeat split; try assumption; try discriminate; auto.
Qed.

Lemma clamp_within_frame_witness :
  let clamped :=
    clampToFrame {| pcX := 90; pcY := 90; pcWidth := 20; pcHeight := 20 |} 100 100 in
  (0 <= pcX clamped)%Q /\ (pcX clamped + pcWidth clamped <= 100)%Q /\
  (1 <= pcWidth clamped)%Q.
Proof.
  pose proof (clamp_within_frame
    {| pcX := 90; pcY := 90; pcWidth := 20; pcHeight := 20 |} 100 100
    ltac:(vm_compute; discriminate) ltac:(vm_compute; discriminate)) as H.
  cbv zeta in H. destruct H as (Hx & _ & Hw & _ & Hmin & _).
  destruct (Hmin eq_refl) as [Hw1 _].
  split; [exact Hx | split; [exact Hw | exact Hw1]].
Defined.

(** C3, the claim as stated: a rectangle inside the frame with width and
    height 0 does not exceed the frame, so it is not clamped and keeps its
    width 0. *)
Lemma clamp_keeps_empty_rectangle :
  let clamped :=
    clampToFrame {| pcX := 5; pcY := 5; pcWidth := 0; pcHeight := 0 |} 100 100 in
  clamped = {| pcX := 5; pcY := 5; pcWidth := 0; pcHeight := 0 |} /\
  ~ (1 <= pcWidth clamped)%Q.
Proof.
  split; [reflexivity|]. vm_compute. intros H. apply H. reflexivity.
Qed.

(** ** Vector-shape path *)

Lemma fold_left_preserves {A B} (P : A -> Prop) (f : A -> B -> A) (l : list B) (a : A) :
  P a -> (forall a' b, P a' -> P (f a' b)) -> P (fold_left f l a).
Proof.
  intros Ha Hf. revert a Ha. induction l as [|b l IH]; intros a Ha; cbn [fold_left].
  - exact Ha.
  - apply IH, Hf, Ha.
Qed.

Lemma fold_left_related {A B} (R : A -> A -> Prop) (f g : A -> B -> A)
    (l : list B) (a a' : A) :
  R a a' -> (forall x x' b, R x x' -> R (f x b) (g x' b)) ->
  R (fold_left f l a) (fold_left g l a').
Proof.
  intros Ha Hf. revert a a' Ha. induction l as [|b l IH]; intros a a' Ha; cbn [fold_left].
  - exact Ha.
  - apply IH, Hf, Ha.
Qed.

Lemma alphaIn_alloc (opacityByte : Z) (n : nat) : alphaIn opacityByte (alloc n).
Proof.
  intros j v Hv. apply lookup_replicate in Hv. left. apply Hv.
Qed.

Lemma alphaIn_writeRgba (opacityByte : Z) (buf : list Z) (q : nat) :
  alphaIn opacityByte buf ->
  alphaIn opacityByte (writeRgba buf (q * 4) 255 255 255 opacityByte).
Proof.
  intros Hbuf j v Hv.
  destruct (decide (j = q)) as [->|Hne].
  - destruct (decide (q * 4 + 3 < length buf)%nat) as [Hlt|Hge].
    + rewrite (lookup_writeRgba_in buf (q * 4) 3) in Hv by lia.
      right. congruence.
    + apply lookup_lt_Some in Hv. rewrite length_writeRgba in Hv. lia.
  - rewrite lookup_writeRgba_other in Hv by lia.
    apply (Hbuf j v Hv).
Qed.

Lemma alphaIn_writeRgbaZ (opacityByte : Z) (buf : list Z) (p : Z) :
  alphaIn opacityByte buf ->
  alphaIn opacityByte (writeRgbaZ buf (p * 4) 255 255 255 opacityByte).
Proof.
  intros Hbuf. unfold writeRgbaZ.
  destruct (Z.ltb_spec (p * 4) 0); [exact Hbuf|].
  replace (Z.to_nat (p * 4)) with (Z.to_nat p * 4)%nat by lia.
  apply alphaIn_writeRgba, Hbuf.
Qed.

Lemma alphaIn_fillRect (width height x y w h opacityByte : Z) (buf : list Z) :
  alphaIn opacityByte buf ->
  alphaIn opacityByte (fillRect width height x y w h opacityByte buf).
Proof.
  intros Hbuf. unfold fillRect.
  apply fold_left_preserves; [exact Hbuf|]. intros b py Hb.
  apply fold_left_preserves; [exact Hb|]. intros b' px Hb'.
  apply alphaIn_writeRgbaZ, Hb'.
Qed.

Lemma alphaIn_fillCircle (width height : Z) (cx cy radius : Q) (opacityByte : Z)
    (buf : list Z) :
  alphaIn opacityByte buf ->
  alphaIn opacityByte (fillCircle width height cx cy radius opacityByte buf).
Proof.
  intros Hbuf. unfold fillCircle.
  apply fold_left_preserves; [exact Hbuf|]. intros b py Hb.
  apply fold_left_preserves; [exact Hb|]. intros b' px Hb'.
  destruct (inCircle px py cx cy radius); [|exact Hb'].
  apply alphaIn_writeRgbaZ, Hb'.
Qed.

Lemma alphaIn_fillAll (pixelCount : nat) (opacityByte : Z) (buf : list Z) :
  alphaIn opacityByte buf -> alphaIn opacityByte (fillAll pixelCount opacityByte buf).
Proof.
  intros Hbuf. unfold fillAll.
  apply fold_left_preserves; [exact Hbuf|]. intros b i Hb.
  apply alphaIn_writeRgba, Hb.
Qed.

Create HintDb masks.
#[local] Hint Resolve alphaIn_alloc alphaIn_fillRect alphaIn_fillCircle alphaIn_fillAll : masks.

(** The alpha bytes of the rasterized vector shape are 0 or the opacity
    byte [floor((opacity / 100) * 255)]. *)
Lemma alphaIn_vectorMask (m : MaskData Q) (width height : Z) :
  alphaIn (Qfloor ((opacity m / 100) * 255)%Q) (vectorMask m width height).
Proof.
  unfold vectorMask.
  destruct (maskType m), (coordinates m) as [l|x y w h]; cbv zeta beta iota;
    repeat case_match; auto with masks.
Qed.

Lemma sameCoverage_refl (buf : list Z) : sameCoverage buf buf.
Proof.
  apply Forall_Forall2_diag, Forall_forall. intros; reflexivity.
Qed.

Lemma sameCoverage_writeRgba (buf1 buf2 : list Z) (i : nat) (a1 a2 : Z) :
  0 < toUint8 a1 -> 0 < toUint8 a2 ->
  sameCoverage buf1 buf2 ->
  sameCoverage (writeRgba buf1 i 255 255 255 a1) (writeRgba buf2 i 255 255 255 a2).
Proof.
  intros Ha1 Ha2 Hbuf. unfold writeRgba, sameCoverage.
  repeat apply Forall2_insert; try exact Hbuf; try reflexivity.
  split; intros _; assumption.
Qed.

Lemma sameCoverage_writeRgbaZ (buf1 buf2 : list Z) (p a1 a2 : Z) :
  0 < toUint8 a1 -> 0 < toUint8 a2 ->
  sameCoverage buf1 buf2 ->
  sameCoverage (writeRgbaZ buf1 p 255 255 255 a1) (writeRgbaZ buf2 p 255 255 255 a2).
Proof.
  intros Ha1 Ha2 Hbuf. unfold writeRgbaZ.
  destruct (p <? 0); [exact Hbuf|].
  by apply sameCoverage_writeRgba.
Qed.

Lemma sameCoverage_fillRect (width height x y w h a1 a2 : Z) (buf1 buf2 : list Z) :
  0 < toUint8 a1 -> 0 < toUint8 a2 ->
  sameCoverage buf1 buf2 ->
  sameCoverage (fillRect width height x y w h a1 buf1) (fillRect width height x y w h a2 buf2).
Proof.
  intros Ha1 Ha2 Hbuf. unfold fillRect.
  apply fold_left_related; [exact Hbuf|]. intros b b' py Hb.
  apply fold_left_related; [exact Hb|]. intros c c' px Hc.
  by apply sameCoverage_writeRgbaZ.
Qed.

Lemma sameCoverage_fillCircle (width height : Z) (cx cy radius : Q) (a1 a2 : Z)
    (buf1 buf2 : list Z) :
  0 < toUint8 a1 -> 0 < toUint8 a2 ->
  sameCoverage buf1 buf2 ->
  sameCoverage (fillCircle width height cx cy radius a1 buf1)
               (fillCircle width height cx cy radius a2 buf2).
Proof.
  intros Ha1 Ha2 Hbuf. unfold fillCircle.
  apply fold_left_related; [exact Hbuf|]. intros b b' py Hb.
  apply fold_left_related; [exact Hb|]. intros c c' px Hc.
  destruct (inCircle px py cx cy radius); [|exact Hc].
  by apply sameCoverage_writeRgbaZ.
Qed.

Lemma sameCoverage_fillAll (pixelCount : nat) (a1 a2 : Z) (buf1 buf2 : list Z) :
  0 < toUint8 a1 -> 0 < toUint8 a2 ->
  sameCoverage buf1 buf2 ->
  sameCoverage (fillAll pixelCount a1 buf1) (fillAll pixelCount a2 buf2).
Proof.
  intros Ha1 Ha2 Hbuf. unfold fillAll.
  apply fold_left_related; [exact Hbuf|]. intros b b' i Hb.
  by apply sameCoverage_writeRgba.
Qed.

#[local] Hint Resolve sameCoverage_refl sameCoverage_fillRect sameCoverage_fillCircle
  sameCoverage_fillAll : masks.

(** Two opacities whose bytes are positive give masks that are positive
    at the same places. *)
Lemma sameCoverage_vectorMask (m : MaskData Q) (o1 o2 : Q) (width height : Z) :
  0 < toUint8 (Qfloor ((o1 / 100) * 255)%Q) ->
  0 < toUint8 (Qfloor ((o2 / 100) * 255)%Q) ->
  sameCoverage (vectorMask (withOpacity m o1) width height)
               (vectorMask (withOpacity m o2) width height).
Proof.
  intros H1 H2. unfold vectorMask.
  cbn [withOpacity maskType coordinates opacity].
  destruct (maskType m), (coordinates m) as [l|x y w h]; cbv zeta beta iota;
    repeat case_match; auto with masks.
Qed.

Lemma blacken_sameCoverage (imageChannels : nat) (mask1 mask2 framePixels : list Z) (i : nat) :
  sameCoverage mask1 mask2 ->
  blacken imageChannels mask1 framePixels i = blacken imageChannels mask2 framePixels i.
Proof.
  intros Hcov. unfold blacken.
  destruct (mask1 !! (i * 4 + 3)%nat) as [a1|] eqn:H1.
  - destruct (Forall2_lookup_l _ _ _ _ _ Hcov H1) as (a2 & -> & Ha).
    destruct (Z.ltb_spec 0 a1), (Z.ltb_spec 0 a2); try reflexivity; lia.
  - destruct (mask2 !! (i * 4 + 3)%nat) as [a2|] eqn:H2; [|reflexivity].
    destruct (Forall2_lookup_r _ _ _ _ _ Hcov H2) as (a1 & Ha1 & _). congruence.
Qed.

Lemma applyMask_sameCoverage (pixels imageChannels : nat) (mask1 mask2 framePixels : list Z) :
  sameCoverage mask1 mask2 ->
  applyMask pixels imageChannels mask1 framePixels
  = applyMask pixels imageChannels mask2 framePixels.
Proof.
  intros Hcov. unfold applyMask.
  induction pixels as [|n IH]; [reflexivity|].
  rewrite !fold_left_seq_S, IH. by apply blacken_sameCoverage.
Qed.

(** What an iteration of the compositing loop writes is 0. *)
Lemma blacken_keeps_zero (imageChannels : nat) (maskRgba framePixels : list Z) (i k : nat) :
  framePixels !! k = Some 0 ->
  blacken imageChannels maskRgba framePixels i !! k = Some 0.
Proof.
  intros Hk. unfold blacken.
  destruct (maskRgba !! (i * 4 + 3)%nat) as [a|]; [|exact Hk].
  destruct (0 <? a); [|exact Hk].
  assert (forall (l : list Z) (j : nat), l !! k = Some 0 -> <[j:=0]> l !! k = Some 0) as Hins.
  { intros l j Hl. destruct (decide (j = k)) as [->|Hne].
    - apply list_lookup_insert_eq. by eapply lookup_lt_Some.
    - by rewrite list_lookup_insert_ne. }
  by repeat apply Hins.
Qed.

Lemma blacken_opaque (imageChannels : nat) (maskRgba framePixels : list Z) (i c : nat) (a : Z) :
  maskRgba !! (i * 4 + 3)%nat = Some a -> 0 < a ->
  (c < 3)%nat -> (i * imageChannels + c < length framePixels)%nat ->
  blacken imageChannels maskRgba framePixels i !! (i * imageChannels + c)%nat = Some 0.
Proof.
  intros Ha Hpos Hc Hlen. unfold blacken. rewrite Ha.
  destruct (Z.ltb_spec 0 a); [|lia].
  destruct c as [|[|[|c]]]; try lia.
  - rewrite Nat.add_0_r in *. rewrite !list_lookup_insert_ne by lia.
    by apply list_lookup_insert_eq.
  - rewrite list_lookup_insert_ne by lia.
    apply list_lookup_insert_eq. by rewrite length_insert.
  - apply list_lookup_insert_eq. by rewrite !length_insert.
Qed.

Lemma length_blacken (imageChannels : nat) (maskRgba framePixels : list Z) (i : nat) :
  length (blacken imageChannels maskRgba framePixels i) = length framePixels.
Proof.
  unfold blacken. destruct (maskRgba !! _) as [a|]; [|reflexivity].
  destruct (0 <? a); [|reflexivity]. by rewrite !length_insert.
Qed.

Lemma length_applyMask (pixels imageChannels : nat) (maskRgba framePixels : list Z) :
  length (applyMask pixels imageChannels maskRgba framePixels) = length framePixels.
Proof.
  unfold applyMask. induction pixels as [|n IH]; [reflexivity|].
  by rewrite fold_left_seq_S, length_blacken.
Qed.

(** The compositor sets the first three channels of a pixel whose mask
    alpha is positive to 0. *)
Lemma applyMask_opaque (pixels imageChannels : nat) (maskRgba framePixels : list Z)
    (i c : nat) (a : Z) :
  (i < pixels)%nat ->
  maskRgba !! (i * 4 + 3)%nat = Some a -> 0 < a ->
  (c < 3)%nat -> (i * imageChannels + c < length framePixels)%nat ->
  applyMask pixels imageChannels maskRgba framePixels !! (i * imageChannels + c)%nat = Some 0.
Proof.
  intros Hi Ha Hpos Hc Hlen. unfold applyMask.
  induction pixels as [|n IH]; [lia|].
  rewrite fold_left_seq_S.
  destruct (decide (i = n)) as [->|Hne].
  - apply (blacken_opaque _ _ _ _ _ a); try assumption.
    pose proof (length_applyMask n imageChannels maskRgba framePixels) as Hl.
    unfold applyMask in Hl. by rewrite Hl.
  - apply blacken_keeps_zero, IH. lia.
Qed.

Lemma opacity_byte_range (o : Q) :
  (1 <= o <= 100)%Q -> 2 <= Qfloor ((o / 100) * 255)%Q <= 255.
Proof.
  intros [Hlo Hhi].
  assert ((o / 100) * 255 == o * (51 # 20))%Q as Heq by field.
  split.
  - change 2 with (Qfloor (51 # 20)). apply Qfloor_resp_le. rewrite Heq. lra.
  - change 255 with (Qfloor 255). apply Qfloor_resp_le. rewrite Heq. lra.
Qed.

Lemma toUint8_small (v : Z) : 0 <= v < 256 -> toUint8 v = v.
Proof. intros Hv. unfold toUint8. by apply Z.mod_small. Qed.



(** ** Windowing of 16-bit samples *)

Lemma Qle_bool_false (x y : Q) : Qle_bool x y = false <-> (y < x)%Q.
Proof.
  split.
  - intros Hb. apply Qnot_le_lt. intros Hle. apply Qle_bool_iff in Hle. congruence.
  - intros Hlt. destruct (Qle_bool x y) eqn:Hb; [|reflexivity].
    apply Qle_bool_iff in Hb. exfalso. apply (Qlt_not_le _ _ Hlt Hb).
Qed.

Lemma mathRound_byte (x : Q) : (0 <= x <= 255)%Q -> 0 <= mathRound x <= 255.
Proof.
  intros [Hlo Hhi]. unfold mathRound. split.
  - change 0 with (Qfloor 0). apply Qfloor_resp_le. lra.
  - change 255 with (Qfloor (255 + (1 # 2))). apply Qfloor_resp_le. lra.
Qed.

(** Between the bounds of the window the interpolated value lies between 0
    and 255. *)
Lemma interpolation_range (windowMin windowMax v : Q) :
  (windowMin < v)%Q -> (v < windowMax)%Q ->
  (0 <= ((v - windowMin) / (windowMax - windowMin)) * 255 <= 255)%Q.
Proof.
  intros Hlo Hhi.
  assert (0 < windowMax - windowMin)%Q as Hd by lra.
  assert (0 <= (v - windowMin) / (windowMax - windowMin))%Q as H0.
  { apply Qle_shift_div_l; [exact Hd | lra]. }
  assert ((v - windowMin) / (windowMax - windowMin) <= 1)%Q as H1.
  { apply Qle_shift_div_r; [exact Hd | lra]. }
  set (t := ((v - windowMin) / (windowMax - windowMin))%Q) in *.
  split; lra.
Qed.

Lemma windowingFormula_byte (windowMin windowMax : Q) (sample : Z) :
  (windowMin < windowMax)%Q ->
  0 <= windowingFormula windowMin windowMax sample <= 255.
Proof.
  intros Hw. unfold windowingFormula.
  destruct (Qle_bool (inject_Z sample) windowMin) eqn:Hlo; [lia|].
  destruct (Qle_bool windowMax (inject_Z sample)) eqn:Hhi; [lia|].
  apply Qle_bool_false in Hlo, Hhi.
  apply mathRound_byte, interpolation_range; assumption.
Qed.

Lemma helperWindowSample_formula (windowMin windowMax : Q) (sample : Z) :
  (windowMin < windowMax)%Q ->
  helperWindowSample windowMin windowMax sample = windowingFormula windowMin windowMax sample.
Proof.
  intros Hw. pose proof (windowingFormula_byte windowMin windowMax sample Hw) as Hb.
  unfold helperWindowSample, windowingFormula, Qgeb in *.
  destruct (Qle_bool (inject_Z sample) windowMin); [reflexivity|].
  destruct (Qle_bool windowMax (inject_Z sample)); [reflexivity|].
  apply toUint8_small. lia.
Qed.

Lemma imageWindowSample_formula (windowMin windowMax : Q) (pixelRepresentation raw : Z) :
  (windowMin < windowMax)%Q ->
  imageWindowSample windowMin windowMax pixelRepresentation raw
  = windowingFormula windowMin windowMax (sampleValue pixelRepresentation raw).
Proof.
  intros Hw.
  pose proof (windowingFormula_byte windowMin windowMax
                (sampleValue pixelRepresentation raw) Hw) as Hb.
  unfold imageWindowSample, windowingFormula, Qgeb in *.
  destruct (Qle_bool (inject_Z (sampleValue pixelRepresentation raw)) windowMin);
    [reflexivity|].
  destruct (Qle_bool windowMax (inject_Z (sampleValue pixelRepresentation raw)));
    [reflexivity|].
  apply toUint8_small. lia.
Qed.



(** C6, on the two-frame CT file without window attributes: the helper that
    serves the per-frame extraction has no modality preset; it normalises
    each frame over its own minimum and maximum ([0; 255] for both frames),
    whereas [extractDicomImage] applies the CT window 40/400 to the same
    samples. *)
Lemma helper_has_no_modality_preset :
  helperWindow None None = None /\
  (imageWindow None None "CT" [240; 1000] = (40 - 400 / 2, 40 + 400 / 2)%Q) /\
  extractDicomFrame quietCollaborators ctDataset 1 = Ok [0; 255] /\
  image16 None None "CT" 0 [240; 1000] = [255; 255] /\
  extractDicomFrame quietCollaborators ctDataset 0 = Ok [0; 255] /\
  extractDicomImage quietCollaborators ctDataset = [102; 166].
Proof. repeat split; vm_compute; reflexivity. Qed.

(** ** Frame extraction from a multi-frame file *)

Lemma toIndex_integer (q : Q) (z : Z) :
  (q == inject_Z z)%Q -> 0 <= z -> toIndex q = Ok (Z.to_nat z).
Proof.
  intros Heq Hz. unfold toIndex.
  unfold Qeq in Heq. cbn [inject_Z Qnum Qden] in Heq.
  rewrite Z.mul_1_r in Heq. rewrite Heq.
  rewrite Z.quot_mul by lia.
  destruct (Z.ltb_spec z 0); [lia | reflexivity].
Qed.

Lemma bytesPerFrame_integer (rows cols bitsAllocated : Z) :
  (8 | bitsAllocated) ->
  (bytesPerFrameOf rows cols bitsAllocated == inject_Z (rows * cols * (bitsAllocated / 8)))%Q.
Proof.
  intros [k ->]. rewrite Z.div_mul by lia.
  unfold bytesPerFrameOf. rewrite !inject_Z_mult. field.
Qed.

Lemma Qltb_lt (x y : Q) : Qltb x y = true <-> (x < y)%Q.
Proof.
  unfold Qltb. rewrite negb_true_iff. apply Qle_bool_false.
Qed.

(** C8: in [extractDicomFrame], a requested index at or beyond the
    detected frame count is replaced by 0; when the pixel buffer holds fewer
    than [frameIndex * bytesPerFrame + bytesPerFrame] bytes
    ([bytesPerFrame = rows * cols * bitsAllocated / 8]) the result is that of
    the first-frame extraction [extractDicomImage]; otherwise the helper is
    run on exactly [bytesPerFrame] bytes read at offset
    [frameIndex * bytesPerFrame]. *)
Theorem frame_extraction_bounds (E : Collaborators) (dataset : Dataset)
    (frameIndex : Z) (pixelBuffer : list Z) :
  let rows := orDefault (Rows dataset) 512 in
  let cols := orDefault (Columns dataset) 512 in
  let bitsAllocated := orDefault (BitsAllocated dataset) 16 in
  let bytesPerFrame := bytesPerFrameOf rows cols bitsAllocated in
  let frameBytes := rows * cols * (bitsAllocated / 8) in
  pixelBufferOf (PixelDataOf dataset) = Ok pixelBuffer ->
  0 <= rows -> 0 <= cols -> 0 <= bitsAllocated -> (8 | bitsAllocated) ->
  0 <= frameIndex ->
  (detectDicomFrameCount dataset <= frameIndex ->
     extractDicomFrame E dataset frameIndex = extractDicomFrame E dataset 0) /\
  (frameIndex < detectDicomFrameCount dataset ->
     ((inject_Z (Z.of_nat (length pixelBuffer))
         < inject_Z frameIndex * bytesPerFrame + bytesPerFrame)%Q ->
        extractDicomFrame E dataset frameIndex = Ok (extractDicomImage E dataset)) /\
     ((inject_Z frameIndex * bytesPerFrame + bytesPerFrame
         <= inject_Z (Z.of_nat (length pixelBuffer)))%Q ->
        extractDicomFrame E dataset frameIndex
        = processDicomPixelDataHelper E dataset
            (take (Z.to_nat frameBytes) (drop (Z.to_nat (frameIndex * frameBytes)) pixelBuffer))
            rows cols bitsAllocated)).
Proof.
  intros rows cols bitsAllocated bytesPerFrame frameBytes Hbuf Hr Hc Hb Hdiv Hidx.
  assert (exists pixelData, PixelDataOf dataset = Some pixelData) as [pixelData Hpd].
  { destruct (PixelDataOf dataset) as [pd|]; [by exists pd | discriminate Hbuf]. }
  split.
  - intros Hge. unfold extractDicomFrame.
    destruct (Z.leb_spec (detectDicomFrameCount dataset) frameIndex); [|lia].
    by destruct (detectDicomFrameCount dataset <=? 0).
  - intros Hlt. unfold extractDicomFrame.
    destruct (Z.leb_spec (detectDicomFrameCount dataset) frameIndex); [lia|].
    fold rows cols bitsAllocated.
    unfold framePixelData. rewrite Hpd. rewrite <- Hpd, Hbuf.
    exc_simpl. fold bytesPerFrame.
    split.
    + intros Hshort. apply Qltb_lt in Hshort. by rewrite Hshort.
    + intros Henough.
      destruct (Qltb _ _) eqn:Hcmp.
      { apply Qltb_lt in Hcmp. lra. }
      pose proof (bytesPerFrame_integer rows cols bitsAllocated Hdiv) as Hbpf.
      fold bytesPerFrame frameBytes in Hbpf.
      assert (0 <= bitsAllocated / 8) by (apply Z.div_pos; lia).
      assert (0 <= frameBytes) by (subst frameBytes; lia).
      assert (inject_Z frameIndex * bytesPerFrame == inject_Z (frameIndex * frameBytes))%Q
        as Hoff by (rewrite Hbpf, inject_Z_mult; reflexivity).
      unfold uint8View.
      rewrite (toIndex_integer _ _ Hoff) by lia. exc_simpl.
      rewrite (toIndex_integer _ _ Hbpf) by lia. exc_simpl.
      rewrite Hoff, Hbpf, <- inject_Z_plus, <- Zle_Qle in Henough.
      destruct (Nat.ltb_spec (length pixelBuffer)
                  (Z.to_nat (frameIndex * frameBytes) + Z.to_nat frameBytes)); [lia|].
      reflexivity.
Qed.

Lemma frame_extraction_bounds_witness :
  extractDicomFrame quietCollaborators ctDataset 5
    = extractDicomFrame quietCollaborators ctDataset 0 /\
  extractDicomFrame quietCollaborators ctDataset 1
    = processDicomPixelDataHelper quietCollaborators ctDataset [240; 0; 232; 3] 1 2 16.
Proof.
  split.
  - refine (proj1 (frame_extraction_bounds quietCollaborators ctDataset 5
      [0; 0; 100; 0; 240; 0; 232; 3] eq_refl _ _ _ _ _) _);
      try (vm_compute; discriminate).
    exists 2. reflexivity.
  - refine (proj2 (proj2 (frame_extraction_bounds quietCollaborators ctDataset 1
      [0; 0; 100; 0; 240; 0; 232; 3] eq_refl _ _ _ _ _) _) _);
      try (vm_compute; discriminate).
    + exists 2. reflexivity.
    + vm_compute. reflexivity.
Defined.

(** ** Frames of different dimensions *)




(** ** Batch scheduler *)

Lemma mapM_Exc_Ok {A B} (f : A -> Exc B) (l : list A) (k : list B) :
  mapM f l = Ok k <-> Forall2 (fun x y => f x = Ok y) l k.
Proof.
  split.
  - revert k. induction l as [|x l IH]; intros k Hk; cbn in Hk.
    + injection Hk as <-. constructor.
    + destruct (f x) as [y|] eqn:Hx; cbn in Hk; [|discriminate Hk].
      destruct (mapM f l) as [k'|] eqn:Hl; cbn in Hk; [|discriminate Hk].
      injection Hk as <-. constructor; [exact Hx | by apply IH].
  - induction 1 as [|x y l k Hx _ IH]; cbn.
    + reflexivity.
    + rewrite Hx. cbn. rewrite IH. reflexivity.
Qed.

Lemma Forall2_fmap_eq {A B C} (P : A -> B -> Prop) (f : A -> C) (g : B -> C)
    (l : list A) (k : list B) :
  Forall2 P l k -> (forall x y, P x y -> f x = g y) -> f <$> l = g <$> k.
Proof.
  intros HF Hfg. induction HF as [|x y l k Hxy _ IH]; [reflexivity|].
  cbn. by rewrite (Hfg x y Hxy), IH.
Qed.

Lemma fmap_concat {A B} (f : A -> B) (ls : list (list A)) :
  f <$> concat ls = concat ((fun l : list A => f <$> l) <$> ls).
Proof.
  induction ls as [|l ls IH]; [reflexivity|].
  cbn [concat]. rewrite fmap_app, IH. reflexivity.
Qed.

Lemma failed_frame_numbers (tasks : list Task) (msg : string) :
  resultFrameNumber <$> ((fun task => failedWith (frameNumber task) msg) <$> tasks)
  = frameNumber <$> tasks.
Proof.
  rewrite <- list_fmap_compose. by apply list_fmap_ext.
Qed.

(** [processFrameBatch] gives one result per task, in the order of the
    tasks and with their frame numbers, whether it succeeds or fails. *)
Lemma processFrameBatch_frame_numbers (E : Collaborators) (tasks : list Task) :
  resultFrameNumber <$> processFrameBatch E tasks = frameNumber <$> tasks.
Proof.
  unfold processFrameBatch.
  destruct (mapM _ tasks) as [loaded|msg] eqn:Hloaded; exc_simpl;
    [|apply failed_frame_numbers].
  apply mapM_Exc_Ok in Hloaded. pose proof (Forall2_length _ _ _ Hloaded) as Hlen.
  destruct tasks as [|firstTask rest]; [reflexivity|].
  destruct loaded as [|[pixels [[volumeWidth volumeHeight] imageChannels]] loaded'];
    [discriminate Hlen|].
  destruct (createMaskRgbaBuffer E (taskMask firstTask) volumeWidth volumeHeight)
    as [maskRgba|msg]; exc_simpl; [|apply failed_frame_numbers].
  destruct (mapM _ (zip _ _)) as [results|msg] eqn:Hresults; cbn [catch];
    [|apply failed_frame_numbers].
  apply mapM_Exc_Ok in Hresults.
  transitivity ((frameNumber ∘ fst) <$>
                  zip (firstTask :: rest)
                      ((pixels, (volumeWidth, volumeHeight, imageChannels)) :: loaded')).
  - symmetry. apply (Forall2_fmap_eq _ _ _ _ _ Hresults).
    intros [task [framePixels meta]] result Hrun. cbn in Hrun.
    destruct (sharpEncode E Jpeg _ _) as [outputBuffer|]; cbn in Hrun; [|discriminate Hrun].
    injection Hrun as <-. reflexivity.
  - rewrite list_fmap_compose, fst_zip by (rewrite Hlen; reflexivity). reflexivity.
Qed.

Lemma volumeTasks_frame_numbers (maskData : MaskData Q) (size : Z * Z)
    (settings : OutputSettings) (batch : Batch) (volumeStart : nat)
    (volumeFrameBuffers : list (list Z)) :
  frameNumber <$> volumeTasks maskData size settings batch volumeStart volumeFrameBuffers
  = seq (batchStart batch + volumeStart) (length volumeFrameBuffers).
Proof.
  unfold volumeTasks. rewrite fmap_imap.
  rewrite (imap_ext _ (fun j _ => id (batchStart batch + volumeStart + j)%nat))
    by (intros; reflexivity).
  rewrite (imap_seq volumeFrameBuffers id). apply list_fmap_id.
Qed.

(** The volumes of a list cover its indices in order, once each. *)
Lemma volumesFrom_covers {A} (items : list A) (offset fuel volumeStart : nat) :
  (length items - volumeStart <= fuel)%nat ->
  concat ((fun volume : nat * list A => seq (offset + fst volume) (length (snd volume)))
            <$> volumesFrom fuel volumeStart items)
  = seq (offset + volumeStart) (length items - volumeStart).
Proof.
  revert volumeStart. induction fuel as [|fuel IH]; intros volumeStart Hfuel.
  - cbn. replace (length items - volumeStart)%nat with 0%nat by lia. reflexivity.
  - cbn [volumesFrom].
    destruct (Nat.ltb_spec volumeStart (length items)) as [Hlt|Hge].
    + cbn [fmap list_fmap concat fst snd].
      rewrite length_take, length_drop.
      rewrite IH by (unfold VOLUME_BATCH_SIZE; lia).
      unfold VOLUME_BATCH_SIZE.
      destruct (Nat.le_gt_cases (volumeStart + 8) (length items)) as [Hfull|Hlast].
      * replace (Nat.min (volumeStart + 8) (length items) - volumeStart)%nat with 8%nat by lia.
        rewrite Nat.min_l by lia.
        replace (length items - volumeStart)%nat
          with (8 + (length items - (volumeStart + 8)))%nat by lia.
        rewrite seq_app. do 2 f_equal. lia.
      * replace (length items - (volumeStart + 8))%nat with 0%nat by lia.
        cbn [seq]. rewrite app_nil_r. f_equal. lia.
    + cbn. replace (length items - volumeStart)%nat with 0%nat by lia. reflexivity.
Qed.

Lemma createFrameBatchesFrom_covers (size totalFrames fuel start : nat) :
  (1 <= size)%nat -> (totalFrames - start <= fuel)%nat ->
  concat ((fun batch => seq (batchStart batch) (batchEnd batch - batchStart batch + 1))
            <$> createFrameBatchesFrom fuel start totalFrames size)
  = seq start (totalFrames - start).
Proof.
  intros Hsize. revert start. induction fuel as [|fuel IH]; intros start Hfuel.
  - cbn. replace (totalFrames - start)%nat with 0%nat by lia. reflexivity.
  - cbn [createFrameBatchesFrom].
    destruct (Nat.ltb_spec start totalFrames) as [Hlt|Hge].
    + cbn [fmap list_fmap concat batchStart batchEnd].
      rewrite IH by lia.
      destruct (Nat.le_gt_cases (start + size) totalFrames) as [Hfull|Hlast].
      * replace (Nat.min (start + size - 1) (totalFrames - 1) - start + 1)%nat
          with size by lia.
        replace (totalFrames - start)%nat with (size + (totalFrames - (start + size)))%nat by lia.
        rewrite seq_app. reflexivity.
      * replace (totalFrames - (start + size))%nat with 0%nat by lia.
        cbn [seq]. rewrite app_nil_r. f_equal. lia.
    + cbn. replace (totalFrames - start)%nat with 0%nat by lia. reflexivity.
Qed.

Lemma batchSizeOf_pos (settings : OutputSettings) : (1 <= batchSizeOf settings)%nat.
Proof.
  unfold batchSizeOf. destruct (Nat.eqb_spec (batchSize settings) 0); lia.
Qed.

Lemma insertByFrameNumber_Permutation (x : ProcessedFrame) (l : list ProcessedFrame) :
  insertByFrameNumber x l ≡ₚ x :: l.
Proof.
  induction l as [|y l IH]; cbn; [reflexivity|].
  destruct (pfFrameNumber x <=? pfFrameNumber y)%nat; [reflexivity|].
  rewrite IH. apply Permutation_swap.
Qed.

Lemma sortByFrameNumber_Permutation (l : list ProcessedFrame) :
  sortByFrameNumber l ≡ₚ l.
Proof.
  induction l as [|x l IH]; cbn; [reflexivity|].
  rewrite insertByFrameNumber_Permutation, IH. reflexivity.
Qed.

Lemma insertByFrameNumber_sorted (x : ProcessedFrame) (l : list ProcessedFrame) :
  Sorted le (pfFrameNumber <$> l) ->
  Sorted le (pfFrameNumber <$> insertByFrameNumber x l).
Proof.
  induction l as [|y l IH]; intros Hs; cbn.
  - repeat constructor.
  - destruct (Nat.leb_spec (pfFrameNumber x) (pfFrameNumber y)) as [Hle|Hgt].
    + cbn. constructor; [exact Hs | by constructor].
    + cbn in *. apply Sorted_inv in Hs as [Hs Hhd].
      constructor; [by apply IH|].
      destruct l as [|z l]; cbn.
      * constructor. lia.
      * destruct (pfFrameNumber x <=? pfFrameNumber z)%nat; cbn.
        -- constructor. lia.
        -- constructor. by apply HdRel_inv in Hhd.
Qed.

Lemma sortByFrameNumber_sorted (l : list ProcessedFrame) :
  Sorted le (pfFrameNumber <$> sortByFrameNumber l).
Proof.
  induction l as [|x l IH]; cbn; [constructor|].
  by apply insertByFrameNumber_sorted.
Qed.

Lemma Sorted_seq (start len : nat) : Sorted le (seq start len).
Proof.
  revert start. induction len as [|len IH]; intros start; cbn; [constructor|].
  constructor; [apply IH|]. destruct len; cbn; constructor. lia.
Qed.

(** Sorting any arrangement of frames whose numbers are [0 .. n-1] lists
    the numbers in ascending order. *)
Lemma sorted_arrival_numbers (arrival : list ProcessedFrame) (n : nat) :
  pfFrameNumber <$> arrival ≡ₚ seq 0 n ->
  pfFrameNumber <$> sortByFrameNumber arrival = seq 0 n.
Proof.
  intros Hperm. apply (Sorted_unique le).
  - apply sortByFrameNumber_sorted.
  - apply Sorted_seq.
  - rewrite sortByFrameNumber_Permutation. exact Hperm.
Qed.

Lemma toProcessedFrame_number (result : FrameResult) :
  pfFrameNumber (toProcessedFrame result) = resultFrameNumber result.
Proof. unfold toProcessedFrame. by destruct (success result). Qed.

(** The facts about a run share its collaborators, mask and settings, and
    a valid output size. *)
Section SchedulerFacts.
Variable E : Collaborators.
Variable maskData : MaskData Q.
Variable size : Z * Z.
Variable settings : OutputSettings.
Hypothesis validWidth : 0 < fst size.
Hypothesis validHeight : 0 < snd size.

(** When the extraction succeeds, a batch gives one result per extracted
    frame, numbered from the start of the batch. *)
Lemma processBatch_frame_numbers (batch : Batch) (frameBuffers : list (list Z)) :
  extractFrameBatch E (batchStart batch) (batchEnd batch) = Ok frameBuffers ->
  exists results,
    processBatch E maskData size settings batch = Ok results /\
    resultFrameNumber <$> results = seq (batchStart batch) (length frameBuffers).
Proof.
  intros Hextract.
  set (run := fun volume : nat * list (list Z) =>
                processFrameBatch E
                  (volumeTasks maskData size settings batch (fst volume) (snd volume))).
  exists (concat (run <$> volumes frameBuffers)). split.
  - unfold processBatch. rewrite Hextract. exc_simpl.
    assert (mapM (fun '(volumeStart, volumeFrameBuffers) =>
                    if (fst size <=? 0) || (snd size <=? 0)
                    then Throw "Invalid output dimensions"
                    else mret (processFrameBatch E
                                 (volumeTasks maskData size settings batch
                                    volumeStart volumeFrameBuffers)))
                 (volumes frameBuffers)
            = Ok (run <$> volumes frameBuffers)) as ->; [|reflexivity].
    apply mapM_Exc_Ok. apply Forall2_fmap_r, Forall_Forall2_diag, Forall_forall.
    intros [volumeStart volumeFrameBuffers] _.
    destruct (Z.leb_spec (fst size) 0); [lia|].
    destruct (Z.leb_spec (snd size) 0); [lia|]. reflexivity.
  - rewrite fmap_concat, <- list_fmap_compose.
    rewrite (list_fmap_ext _
               (fun volume => seq (batchStart batch + fst volume) (length (snd volume))));
      [|intros i volume _; unfold run; cbn;
        by rewrite processFrameBatch_frame_numbers, volumeTasks_frame_numbers].
    unfold volumes. rewrite volumesFrom_covers by lia.
    rewrite Nat.add_0_r, Nat.sub_0_r. reflexivity.
Qed.

(** When every batch is extracted in full, all batches succeed and their
    results, in the order of the batches, carry the frame numbers of the
    batches. *)
Lemma all_batches_frame_numbers (batches : list Batch) :
  Forall (fun batch => exists frameBuffers,
            extractFrameBatch E (batchStart batch) (batchEnd batch) = Ok frameBuffers /\
            length frameBuffers = (batchEnd batch - batchStart batch + 1)%nat) batches ->
  exists allBatchResults,
    mapM (processBatch E maskData size settings) batches = Ok allBatchResults /\
    resultFrameNumber <$> concat allBatchResults
    = concat ((fun batch => seq (batchStart batch) (batchEnd batch - batchStart batch + 1))
                <$> batches).
Proof.
  intros Hall. induction Hall as [|batch batches (frameBuffers & Hx & Hlen) _ IH].
  - exists []. split; reflexivity.
  - destruct IH as (rest & Hrest & Hnumbers).
    destruct (processBatch_frame_numbers batch frameBuffers Hx) as (results & Hrun & Hres).
    exists (results :: rest). split.
    + cbn. rewrite Hrun. cbn. rewrite Hrest. reflexivity.
    + cbn [concat fmap list_fmap]. rewrite fmap_app, Hres, Hnumbers, Hlen. reflexivity.
Qed.

(** C4 (as amended): for a job of [totalFrames] frames with a valid output
    size in which every batch extraction returns one buffer per requested
    frame, the run succeeds and the list handed to output assembly has the
    frame numbers [0 .. totalFrames-1], each once, in ascending order; the
    same list of numbers results from sorting the results in any order of
    arrival; every result is in the list, a failed one as an entry with an
    empty buffer. *)
Theorem results_ordered_and_complete (totalFrames : nat) :
  let batches := createFrameBatches totalFrames (batchSizeOf settings) in
  (forall batch, batch ∈ batches ->
     exists frameBuffers,
       extractFrameBatch E (batchStart batch) (batchEnd batch) = Ok frameBuffers /\
       length frameBuffers = (batchEnd batch - batchStart batch + 1)%nat) ->
  exists allBatchResults frames,
    mapM (processBatch E maskData size settings) batches = Ok allBatchResults /\
    processBatchesInParallel E batches maskData size settings = Ok frames /\
    pfFrameNumber <$> frames = seq 0 totalFrames /\
    (forall arrival,
       arrival ≡ₚ toProcessedFrame <$> concat allBatchResults ->
       pfFrameNumber <$> sortByFrameNumber arrival = seq 0 totalFrames) /\
    (forall result, result ∈ concat allBatchResults ->
       toProcessedFrame result ∈ frames /\
       (success result = false -> pfBuffer (toProcessedFrame result) = [])).
Proof.
  intros batches Hextract.
  destruct (all_batches_frame_numbers batches) as (allBatchResults & Hrun & Hnumbers).
  { apply Forall_forall. exact Hextract. }
  assert (pfFrameNumber <$> (toProcessedFrame <$> concat allBatchResults) = seq 0 totalFrames)
    as Hseq.
  { rewrite <- list_fmap_compose.
    rewrite (list_fmap_ext _ resultFrameNumber)
      by (intros; apply toProcessedFrame_number).
    rewrite Hnumbers. subst batches. unfold createFrameBatches.
    rewrite createFrameBatchesFrom_covers by (try apply batchSizeOf_pos; lia).
    by rewrite Nat.sub_0_r. }
  exists allBatchResults, (sortByFrameNumber (toProcessedFrame <$> concat allBatchResults)).
  split; [exact Hrun|]. split; [|split; [|split]].
  - unfold processBatchesInParallel. fold batches. rewrite Hrun. reflexivity.
  - apply sorted_arrival_numbers. by rewrite Hseq.
  - intros arrival Harrival. apply sorted_arrival_numbers.
    by rewrite Harrival, Hseq.
  - intros result Hin. split.
    + rewrite sortByFrameNumber_Permutation. by apply list_elem_of_fmap_2.
    + intros Hfail. unfold toProcessedFrame. by rewrite Hfail.
Qed.

End SchedulerFacts.

Lemma results_ordered_and_complete_witness :
  let E := exampleCollaborators (fun _ _ _ => Throw "unused") (fun _ => Ok (Some 1, Some 1))
             (fun _ => Throw "unused")
             (fun startFrame endFrame => Ok (replicate (endFrame - startFrame + 1) [10; 20; 30])) in
  let maskData := vectorMaskData rectangle (CoordArray [0%Q; 0%Q; 1%Q; 1%Q]) 100%Q in
  exists frames,
    processBatchesInParallel E (createFrameBatches 20 (batchSizeOf exampleSettings))
      maskData (1, 1) exampleSettings = Ok frames /\
    pfFrameNumber <$> frames = seq 0 20.
Proof.
  intros E maskData.
  destruct (results_ordered_and_complete E maskData (1, 1) exampleSettings
              eq_refl eq_refl 20)
    as (allBatchResults & frames & _ & Hrun & Hnumbers & _).
  - intros batch _. eexists. split; [reflexivity|]. apply length_replicate.
  - exists frames. split; [exact Hrun | exact Hnumbers].
Defined.

(** C4, the claim as stated: a video announced with 3 frames whose decoder
    yields 2 frames for the batch 0..2.  The list handed to output assembly
    has the frame numbers 0 and 1 only: frame 2 has no entry, not even a
    placeholder. *)
Lemma short_extraction_leaves_gap :
  let maskData := vectorMaskData rectangle (CoordArray [0%Q; 0%Q; 1%Q; 1%Q]) 100%Q in
  createFrameBatches 3 (batchSizeOf exampleSettings) = [{| batchStart := 0; batchEnd := 2 |}] /\
  processBatchesInParallel shortVideoCollaborators
    (createFrameBatches 3 (batchSizeOf exampleSettings)) maskData (1, 1) exampleSettings
  = Ok [{| pfFrameNumber := 0; pfBuffer := [0; 0; 0] |};
        {| pfFrameNumber := 1; pfBuffer := [0; 0; 0] |}] /\
  (forall frames,
     processBatchesInParallel shortVideoCollaborators
       (createFrameBatches 3 (batchSizeOf exampleSettings)) maskData (1, 1) exampleSettings
     = Ok frames ->
     pfFrameNumber <$> frames <> seq 0 3).
Proof.
  intros maskData.
  assert (processBatchesInParallel shortVideoCollaborators
            (createFrameBatches 3 (batchSizeOf exampleSettings)) maskData (1, 1) exampleSettings
          = Ok [{| pfFrameNumber := 0; pfBuffer := [0; 0; 0] |};
                {| pfFrameNumber := 1; pfBuffer := [0; 0; 0] |}]) as Hrun
    by (vm_compute; reflexivity).
  split; [reflexivity|]. split; [exact Hrun|].
  intros frames Hframes. rewrite Hrun in Hframes. injection Hframes as <-.
  discriminate.
Qed.

(** * Further properties of the pipeline *)

(** ** Batches *)

Lemma createFrameBatchesFrom_lookup (fuel start totalFrames size k : nat) :
  (1 <= size)%nat -> (totalFrames - start <= fuel)%nat ->
  createFrameBatchesFrom fuel start totalFrames size !! k =
    if (start + k * size <? totalFrames)%nat
    then Some {| batchStart := start + k * size;
                 batchEnd := Nat.min (start + k * size + size - 1) (totalFrames - 1) |}
    else None.
Proof.
  intros Hsize. revert start k. induction fuel as [|fuel IH]; intros start k Hfuel.
  - cbn [createFrameBatchesFrom]. rewrite lookup_nil.
    destruct (Nat.ltb_spec (start + k * size) totalFrames); [nia | reflexivity].
  - cbn [createFrameBatchesFrom].
    destruct (Nat.ltb_spec start totalFrames) as [Hlt|Hge].
    + destruct k as [|k].
      * cbn [lookup list_lookup]. rewrite Nat.mul_0_l, Nat.add_0_r.
        destruct (Nat.ltb_spec start totalFrames); [reflexivity | lia].
      * cbn [lookup list_lookup]. fold (@lookup _ _ _ (@list_lookup Batch)).
        rewrite IH by lia.
        replace (start + size + k * size)%nat with (start + S k * size)%nat by lia.
        reflexivity.
    + rewrite lookup_nil.
      destruct (Nat.ltb_spec (start + k * size) totalFrames); [nia | reflexivity].
Qed.

(** X1: for a positive batch size, [createFrameBatches] gives
    [ceil(totalFrames / batchSize)] batches; batch [k] starts at
    [k * batchSize] and ends at [min(k * batchSize + batchSize - 1, totalFrames - 1)],
    so it holds between 1 and [batchSize] frames, all below [totalFrames],
    and the next batch starts right after it. *)
Theorem createFrameBatches_shape (totalFrames size : nat) :
  (1 <= size)%nat ->
  let batches := createFrameBatches totalFrames size in
  length batches = ((totalFrames + size - 1) / size)%nat /\
  (forall k batch,
     batches !! k = Some batch <->
     (k * size < totalFrames)%nat /\
     batch = {| batchStart := k * size;
                batchEnd := Nat.min (k * size + size - 1) (totalFrames - 1) |}) /\
  (forall k batch,
     batches !! k = Some batch ->
     (batchStart batch <= batchEnd batch < totalFrames)%nat /\
     (batchEnd batch - batchStart batch + 1 <= size)%nat /\
     (forall next, batches !! S k = Some next -> batchStart next = S (batchEnd batch))).
Proof.
  intros Hsize batches.
  assert (forall k, batches !! k =
            if (k * size <? totalFrames)%nat
            then Some {| batchStart := k * size;
                         batchEnd := Nat.min (k * size + size - 1) (totalFrames - 1) |}
            else None) as Hlookup.
  { intros k. subst batches. unfold createFrameBatches.
    rewrite createFrameBatchesFrom_lookup by lia. reflexivity. }
  assert (forall k batch,
            batches !! k = Some batch <->
            (k * size < totalFrames)%nat /\
            batch = {| batchStart := k * size;
                       batchEnd := Nat.min (k * size + size - 1) (totalFrames - 1) |}) as Hiff.
  { intros k batch. rewrite Hlookup.
    destruct (Nat.ltb_spec (k * size) totalFrames); split.
    - intros [= <-]. by split.
    - intros [_ ->]. reflexivity.
    - discriminate.
    - intros [? _]. lia. }
  split; [|split].
  - set (L := length batches).
    assert (totalFrames <= L * size)%nat as Hupper.
    { destruct (Nat.ltb_spec (L * size) totalFrames) as [Hlt|]; [|assumption].
      pose proof (Hlookup L) as HL.
      destruct (Nat.ltb_spec (L * size) totalFrames); [|lia].
      apply lookup_lt_Some in HL. subst L. lia. }
    assert (L = 0 \/ (L - 1) * size < totalFrames)%nat as Hlower.
    { destruct L as [|L'] eqn:HL; [by left | right].
      assert (is_Some (batches !! L')) as [batch Hb] by (apply lookup_lt_is_Some; lia).
      apply Hiff in Hb as [Hb _]. replace (S L' - 1)%nat with L' by lia. exact Hb. }
    apply (Nat.div_unique _ _ _ (totalFrames + size - 1 - size * L)%nat).
    + destruct Hlower as [-> | Hlower]; nia.
    + destruct Hlower as [Hz | Hlower]; [rewrite Hz in *|]; nia.
  - exact Hiff.
  - intros k batch Hb. apply Hiff in Hb as [Hk ->]. cbn [batchStart batchEnd].
    split; [lia|]. split; [lia|].
    intros next Hnext. apply Hiff in Hnext as [Hnk ->]. cbn [batchStart]. lia.
Qed.

Lemma createFrameBatches_shape_witness :
  createFrameBatches 30 12
  = [{| batchStart := 0; batchEnd := 11 |}; {| batchStart := 12; batchEnd := 23 |};
     {| batchStart := 24; batchEnd := 29 |}] /\
  length (createFrameBatches 30 12) = ((30 + 12 - 1) / 12)%nat.
Proof.
  split; [reflexivity|].
  exact (proj1 (createFrameBatches_shape 30 12 ltac:(lia))).
Defined.

(** ** Volumes *)

(** The outcome of [processFrameBatch] is shared by its tasks. *)
Lemma processFrameBatch_outcome (E : Collaborators) (tasks : list Task) :
  allSucceeded (processFrameBatch E tasks) \/
  exists msg,
    processFrameBatch E tasks = (fun task => failedWith (frameNumber task) msg) <$> tasks.
Proof.
  unfold processFrameBatch.
  destruct (mapM _ tasks) as [loaded|msg]; exc_simpl; [|right; by exists msg].
  destruct tasks as [|firstTask rest];
    [right; by exists "Cannot read properties of undefined"%string|].
  destruct loaded as [|[pixels [[volumeWidth volumeHeight] imageChannels]] loaded'];
    [right; by eexists|].
  destruct (createMaskRgbaBuffer E (taskMask firstTask) volumeWidth volumeHeight)
    as [maskRgba|msg]; exc_simpl; [|right; by exists msg].
  destruct (mapM _ (zip _ _)) as [results|msg] eqn:Hresults; cbn [catch];
    [|right; by exists msg].
  left. apply mapM_Exc_Ok in Hresults.
  unfold allSucceeded. clear -Hresults.
  induction Hresults as [|[task [framePixels meta]] result l k Hrun _ IH]; constructor; [|exact IH].
  cbn in Hrun.
  destruct (sharpEncode E Jpeg _ _) as [outputBuffer|]; cbn in Hrun; [|discriminate Hrun].
  injection Hrun as <-. by split.
Qed.

Lemma length_processFrameBatch (E : Collaborators) (tasks : list Task) :
  length (processFrameBatch E tasks) = length tasks.
Proof.
  pose proof (processFrameBatch_frame_numbers E tasks) as Hnumbers.
  apply (f_equal length) in Hnumbers. by rewrite !length_fmap in Hnumbers.
Qed.

(** X2: [processFrameBatch] never throws and answers every task, in order
    and under its frame number; the outcome is shared by the volume: either
    every result is a success, or every result is the failure carrying the
    message of the one error that was caught. *)
Theorem processFrameBatch_all_or_nothing (E : Collaborators) (tasks : list Task) :
  let results := processFrameBatch E tasks in
  length results = length tasks /\
  resultFrameNumber <$> results = frameNumber <$> tasks /\
  (allSucceeded results \/
   exists msg, results = (fun task => failedWith (frameNumber task) msg) <$> tasks).
Proof.
  intros results. split; [apply length_processFrameBatch|].
  split; [apply processFrameBatch_frame_numbers | apply processFrameBatch_outcome].
Qed.

Lemma volumesFrom_beyond {A} (items : list A) (fuel volumeStart : nat) :
  (length items <= volumeStart)%nat -> volumesFrom fuel volumeStart items = [].
Proof.
  intros Hge. destruct fuel as [|fuel]; [reflexivity|]. cbn [volumesFrom].
  destruct (Nat.ltb_spec volumeStart (length items)); [lia | reflexivity].
Qed.

(** The result at position [i] of the concatenated volume results comes
    from volume [i / 8], at position [i mod 8]. *)
Lemma volume_results_lookup {A B} (run : nat * list A -> list B) (items : list A)
    (fuel volumeStart i : nat) (r : B) :
  (forall volume, length (run volume) = length (snd volume)) ->
  concat (run <$> volumesFrom fuel volumeStart items) !! i = Some r ->
  exists volume,
    volumesFrom fuel volumeStart items !! (i / 8)%nat = Some volume /\
    run volume !! (i mod 8)%nat = Some r.
Proof.
  intros Hrun. revert volumeStart i.
  induction fuel as [|fuel IH]; intros volumeStart i Hi; [discriminate Hi|].
  cbn [volumesFrom] in *.
  destruct (Nat.ltb_spec volumeStart (length items)) as [Hlt|Hge]; [|discriminate Hi].
  cbn [fmap list_fmap concat] in Hi.
  set (volume := (volumeStart,
                  take (Nat.min (volumeStart + VOLUME_BATCH_SIZE) (length items) - volumeStart)
                       (drop volumeStart items))) in *.
  assert (length (run volume) =
          (Nat.min (volumeStart + 8) (length items) - volumeStart)%nat) as Hlen.
  { rewrite Hrun. subst volume. cbn [snd].
    rewrite length_take, length_drop. unfold VOLUME_BATCH_SIZE. lia. }
  destruct (Nat.lt_ge_cases i (length (run volume))) as [Hin|Hout].
  - rewrite lookup_app_l in Hi by assumption.
    exists volume.
    rewrite Nat.div_small, Nat.mod_small by lia. by split.
  - rewrite lookup_app_r in Hi by assumption.
    destruct (Nat.le_gt_cases (length items) (volumeStart + 8)) as [Hlast|Hmore].
    + unfold VOLUME_BATCH_SIZE in Hi.
      rewrite (volumesFrom_beyond items fuel (volumeStart + 8)) in Hi by assumption.
      discriminate Hi.
    + assert (length (run volume) = 8)%nat as H8 by lia. rewrite H8 in *.
      destruct (IH _ _ Hi) as (volume' & Hvol & Hres).
      exists volume'.
      replace (i / 8)%nat with (S ((i - 8) / 8)).
      2:{ replace i with ((i - 8) + 1 * 8)%nat at 2 by lia.
          rewrite Nat.div_add by lia. lia. }
      replace (i mod 8)%nat with ((i - 8) mod 8)%nat.
      2:{ replace i with ((i - 8) + 1 * 8)%nat at 2 by lia.
          rewrite Nat.Div0.mod_add. reflexivity. }
      by split.
Qed.

(** X3: within the results of a batch, the frames of one volume (eight
    consecutive positions, starting at a multiple of 8) share their outcome:
    a frame that cannot be loaded or encoded makes its whole volume fail with
    the same error, and leaves the other volumes of the batch alone. *)
Theorem volume_shares_outcome (E : Collaborators) (maskData : MaskData Q) (size : Z * Z)
    (settings : OutputSettings) (batch : Batch) (results : list FrameResult)
    (i j : nat) (ri rj : FrameResult) :
  processBatch E maskData size settings batch = Ok results ->
  results !! i = Some ri -> results !! j = Some rj ->
  (i / 8 = j / 8)%nat ->
  success ri = success rj /\ error ri = error rj.
Proof.
  intros Hrun Hi Hj Hsame. unfold processBatch in Hrun.
  destruct (extractFrameBatch E (batchStart batch) (batchEnd batch)) as [frameBuffers|];
    [|discriminate Hrun].
  cbn [mbind Exc_bind] in Hrun.
  destruct (mapM _ (volumes frameBuffers)) as [batchResults|] eqn:Hvolumes;
    [|discriminate Hrun].
  cbn [mbind Exc_bind mret Exc_ret] in Hrun. injection Hrun as <-.
  set (run := fun volume : nat * list (list Z) =>
                processFrameBatch E
                  (volumeTasks maskData size settings batch (fst volume) (snd volume))).
  assert (batchResults = run <$> volumes frameBuffers) as ->.
  { apply mapM_Exc_Ok in Hvolumes. rewrite <- (list_fmap_id batchResults). symmetry.
    apply (Forall2_fmap_eq _ _ _ _ _ Hvolumes).
    intros [volumeStart volumeFrameBuffers] group Hgroup.
    destruct ((fst size <=? 0) || (snd size <=? 0)); [discriminate Hgroup|].
    by injection Hgroup. }
  assert (forall volume, length (run volume) = length (snd volume)) as Hlen.
  { intros volume. unfold run.
    rewrite length_processFrameBatch.
    unfold volumeTasks. by rewrite length_imap. }
  unfold volumes in Hi, Hj.
  destruct (volume_results_lookup run _ _ _ _ _ Hlen Hi) as (vi & Hvi & Hri).
  destruct (volume_results_lookup run _ _ _ _ _ Hlen Hj) as (vj & Hvj & Hrj).
  rewrite Hsame in Hvi. rewrite Hvi in Hvj. injection Hvj as <-.
  destruct (processFrameBatch_outcome E
              (volumeTasks maskData size settings batch (fst vi) (snd vi)))
    as [Hall | [msg Hfail]]; fold (run vi) in *.
  - unfold allSucceeded in Hall. rewrite Forall_lookup in Hall.
    destruct (Hall _ _ Hri) as [-> ->]. destruct (Hall _ _ Hrj) as [-> ->]. by split.
  - rewrite Hfail in Hri, Hrj.
    apply list_lookup_fmap_Some in Hri as (ti & -> & _).
    apply list_lookup_fmap_Some in Hrj as (tj & -> & _). by split.
Qed.

Lemma volume_shares_outcome_witness :
  let E := exampleCollaborators (fun _ _ _ => Throw "unused")
             (fun buffer => match buffer with
                            | [] => Throw "Input Buffer is empty"
                            | _ => Ok (Some 1, Some 1)
                            end)
             (fun _ => Throw "unused")
             (fun _ _ => Ok (replicate 9 [10; 20; 30] ++ [[]])) in
  let maskData := vectorMaskData rectangle (CoordArray [0%Q; 0%Q; 1%Q; 1%Q]) 100%Q in
  exists results r8 r9,
    processBatch E maskData (1, 1) exampleSettings {| batchStart := 0; batchEnd := 9 |}
      = Ok results /\
    success <$> results
      = [true; true; true; true; true; true; true; true; false; false] /\
    results !! 8%nat = Some r8 /\ results !! 9%nat = Some r9 /\
    success r8 = success r9 /\ error r8 = error r9.
Proof.
  intros E maskData.
  assert (exists results,
            processBatch E maskData (1, 1) exampleSettings {| batchStart := 0; batchEnd := 9 |}
            = Ok results) as [results Hrun] by (eexists; vm_compute; reflexivity).
  pose proof Hrun as Hval. vm_compute in Hval. injection Hval as Hval. subst results.
  eexists _, _, _.
  split; [exact Hrun|]. split; [reflexivity|].
  split; [reflexivity|]. split; [reflexivity|].
  exact (volume_shares_outcome E maskData (1, 1) exampleSettings
           {| batchStart := 0; batchEnd := 9 |} _ 8 9 _ _ Hrun eq_refl eq_refl eq_refl).
Defined.

(** ** Compositing, sample by sample *)

Lemma blacken_lookup (imageChannels : nat) (maskRgba framePixels : list Z) (i k : nat) :
  blacken imageChannels maskRgba framePixels i !! k =
    (fun v => if (0 <? maskAlphaAt maskRgba i)
                 && (i * imageChannels <=? k)%nat && (k <=? i * imageChannels + 2)%nat
              then 0 else v) <$> framePixels !! k.
Proof.
  unfold blacken, maskAlphaAt.
  destruct (maskRgba !! (i * 4 + 3)%nat) as [maskAlpha|].
  2:{ change (default 0 None) with 0. cbn [Z.ltb Z.compare andb].
      by destruct (framePixels !! k). }
  change (default 0 (Some maskAlpha)) with maskAlpha.
  destruct (0 <? maskAlpha); cbn [andb]; [|by destruct (framePixels !! k)].
  set (p := (i * imageChannels)%nat).
  destruct (framePixels !! k) as [v|] eqn:Hk; cbn [fmap option_fmap option_map].
  - pose proof (lookup_lt_Some _ _ _ Hk) as Hlt.
    destruct (Nat.leb_spec p k), (Nat.leb_spec k (p + 2)); cbn [andb];
      try (rewrite !list_lookup_insert_ne by lia; exact Hk).
    destruct (decide (k = p + 2)%nat) as [->|];
      [apply list_lookup_insert_eq; by rewrite !length_insert|].
    rewrite list_lookup_insert_ne by lia.
    destruct (decide (k = p + 1)%nat) as [->|];
      [apply list_lookup_insert_eq; by rewrite !length_insert|].
    rewrite list_lookup_insert_ne by lia.
    assert (k = p) as -> by lia. by apply list_lookup_insert_eq.
  - apply lookup_ge_None. rewrite !length_insert. by apply lookup_ge_None.
Qed.

Lemma applyMask_lookup (pixels imageChannels : nat) (maskRgba framePixels : list Z) (k : nat) :
  applyMask pixels imageChannels maskRgba framePixels !! k =
    (fun v => if blackened pixels imageChannels maskRgba k then 0 else v) <$> framePixels !! k.
Proof.
  unfold applyMask, blackened.
  induction pixels as [|n IH].
  - cbn. by destruct (framePixels !! k).
  - rewrite fold_left_seq_S, blacken_lookup, IH, seq_S, existsb_app.
    cbn [existsb]. rewrite orb_false_r, Nat.add_0_l.
    destruct (framePixels !! k) as [v|]; [|reflexivity].
    cbn [fmap option_fmap option_map]. f_equal.
    destruct (existsb _ (seq 0 n)); cbn [orb]; [|reflexivity].
    by destruct (_ && _ && _).
Qed.

(** The positions the loop reaches when a pixel has at least three
    channels: the first three channels of the pixels with a positive alpha. *)
Lemma blackened_rgb (pixels imageChannels : nat) (maskRgba : list Z) (k : nat) :
  (3 <= imageChannels)%nat ->
  blackened pixels imageChannels maskRgba k =
    (k / imageChannels <? pixels)%nat && (k mod imageChannels <? 3)%nat
    && (0 <? maskAlphaAt maskRgba (k / imageChannels)).
Proof.
  intros Hch. unfold blackened.
  pose proof (Nat.div_mod_eq k imageChannels) as Hk.
  pose proof (Nat.mod_upper_bound k imageChannels ltac:(lia)) as Hm.
  set (q := (k / imageChannels)%nat) in *. set (r := (k mod imageChannels)%nat) in *.
  apply eq_true_iff_eq. rewrite existsb_exists, !andb_true_iff.
  split.
  - intros (i & Hi & Hcond). apply in_seq in Hi.
    rewrite !andb_true_iff in Hcond. destruct Hcond as [[Ha Hlo] Hhi].
    apply Nat.leb_le in Hlo, Hhi.
    assert (i = q) as -> by nia.
    repeat split; [apply Nat.ltb_lt; lia | apply Nat.ltb_lt; nia | exact Ha].
  - intros [[Hq Hr] Ha]. apply Nat.ltb_lt in Hq, Hr.
    exists q. split; [apply in_seq; lia|].
    rewrite Ha. cbn [andb].
    apply andb_true_iff. split; apply Nat.leb_le; nia.
Qed.

(** X4: the compositing loop keeps the length of the frame buffer and
    changes a sample only by setting it to 0; the sample at index [k] is set
    to 0 exactly when some pixel [i] below [pixels] with a positive mask
    alpha has [i * channels <= k <= i * channels + 2].  For frames of three
    or four channels these are the first three channels of the pixels with a
    positive alpha: the other pixels and every fourth (alpha) channel keep
    their value. *)
Theorem applyMask_samples (pixels imageChannels : nat) (maskRgba framePixels : list Z) :
  length (applyMask pixels imageChannels maskRgba framePixels) = length framePixels /\
  (forall k,
     applyMask pixels imageChannels maskRgba framePixels !! k =
       (fun v => if blackened pixels imageChannels maskRgba k then 0 else v)
         <$> framePixels !! k) /\
  ((3 <= imageChannels)%nat ->
   forall i c,
     (c < imageChannels)%nat ->
     applyMask pixels imageChannels maskRgba framePixels !! (i * imageChannels + c)%nat =
       (fun v => if (i <? pixels)%nat && (c <? 3)%nat && (0 <? maskAlphaAt maskRgba i)
                 then 0 else v) <$> framePixels !! (i * imageChannels + c)%nat).
Proof.
  split; [apply length_applyMask|]. split; [apply applyMask_lookup|].
  intros Hch i c Hc. rewrite applyMask_lookup, blackened_rgb by assumption.
  replace ((i * imageChannels + c) / imageChannels)%nat with i.
  2:{ rewrite Nat.add_comm, Nat.div_add by lia. rewrite Nat.div_small by lia. reflexivity. }
  replace ((i * imageChannels + c) mod imageChannels)%nat with c.
  2:{ rewrite Nat.add_comm, Nat.Div0.mod_add. by rewrite Nat.mod_small. }
  reflexivity.
Qed.

Lemma applyMask_samples_witness :
  applyMask 2 4 [255; 255; 255; 255; 0; 0; 0; 0] [10; 20; 30; 40; 50; 60; 70; 80]
    !! 3%nat = Some 40 /\
  applyMask 2 4 [255; 255; 255; 255; 0; 0; 0; 0] [10; 20; 30; 40; 50; 60; 70; 80]
    !! 1%nat = Some 0.
Proof.
  destruct (applyMask_samples 2 4 [255; 255; 255; 255; 0; 0; 0; 0]
              [10; 20; 30; 40; 50; 60; 70; 80]) as (_ & _ & Hrgb).
  split.
  - exact (Hrgb ltac:(lia) 0%nat 3%nat ltac:(lia)).
  - exact (Hrgb ltac:(lia) 0%nat 1%nat ltac:(lia)).
Defined.

(** X5: on a frame with a single channel per pixel (a greyscale frame) the
    three stores of the loop reach the two following pixels: the sample at
    [k] is set to 0 exactly when one of the mask pixels [k - 2], [k - 1], [k]
    below [pixels] has a positive alpha; in particular a pixel under a
    transparent mask pixel is blackened when its left neighbour is masked. *)
Theorem applyMask_greyscale_reach (pixels : nat) (maskRgba framePixels : list Z) (k : nat) :
  applyMask pixels 1 maskRgba framePixels !! k =
    (fun v => if existsb (fun i => (i <? pixels)%nat && (0 <? maskAlphaAt maskRgba i))
                         (seq (k - 2) (k - (k - 2) + 1))
              then 0 else v) <$> framePixels !! k.
Proof.
  rewrite applyMask_lookup.
  destruct (framePixels !! k) as [v|]; [|reflexivity].
  cbn [fmap option_fmap option_map]. f_equal.
  match goal with |- (if ?a then _ else _) = (if ?b then _ else _) =>
    assert (a = b) as ->; [|reflexivity] end.
  unfold blackened. apply eq_true_iff_eq. rewrite !existsb_exists. split.
  - intros (i & Hi & Hcond). apply in_seq in Hi.
    rewrite !andb_true_iff in Hcond. destruct Hcond as [[Ha Hlo] Hhi].
    apply Nat.leb_le in Hlo, Hhi.
    exists i. split; [apply in_seq; lia|].
    apply andb_true_iff. split; [apply Nat.ltb_lt; lia | exact Ha].
  - intros (i & Hi & Hcond). apply in_seq in Hi.
    apply andb_true_iff in Hcond as [Hlt Ha]. apply Nat.ltb_lt in Hlt.
    exists i. split; [apply in_seq; lia|].
    rewrite Ha. cbn [andb]. apply andb_true_iff. split; apply Nat.leb_le; lia.
Qed.

(** ** The vector shapes, pixel by pixel *)

(** A loop that paints the pixels [pixelOf b] of the items [b] selected by
    [selected]: the alpha byte of pixel [j] afterwards. *)
Lemma paint_alpha {B} (pixelOf : B -> Z) (selected : B -> bool) (items : list B)
    (opacityByte : Z) (maskBuffer : list Z) (j : nat) :
  let painted :=
    fold_left (fun buf b => if selected b
                            then writeRgbaZ buf (pixelOf b * 4) 255 255 255 opacityByte
                            else buf) items maskBuffer in
  (j * 4 + 3 < length maskBuffer)%nat ->
  painted !! (j * 4 + 3)%nat =
    if existsb (fun b => selected b && (pixelOf b =? Z.of_nat j)) items
    then Some (toUint8 opacityByte) else maskBuffer !! (j * 4 + 3)%nat.
Proof.
  cbv zeta. revert maskBuffer.
  induction items as [|b items IH]; intros maskBuffer Hj; [reflexivity|].
  cbn [fold_left existsb].
  set (next := if selected b then writeRgbaZ maskBuffer (pixelOf b * 4) 255 255 255 opacityByte
               else maskBuffer).
  assert (length next = length maskBuffer) as Hlen.
  { subst next. destruct (selected b); [|reflexivity]. unfold writeRgbaZ.
    destruct (pixelOf b * 4 <? 0); [reflexivity | apply length_writeRgba]. }
  rewrite IH by (rewrite Hlen; exact Hj).
  destruct (existsb _ items); [by rewrite orb_true_r|]. rewrite orb_false_r.
  subst next. destruct (selected b); cbn [andb]; [|reflexivity].
  unfold writeRgbaZ.
  destruct (Z.ltb_spec (pixelOf b * 4) 0).
  - destruct (Z.eqb_spec (pixelOf b) (Z.of_nat j)); [lia | reflexivity].
  - destruct (Z.eqb_spec (pixelOf b) (Z.of_nat j)) as [Heq|Hne].
    + replace (Z.to_nat (pixelOf b * 4)) with (j * 4)%nat by lia.
      by rewrite (lookup_writeRgba_in maskBuffer (j * 4) 3) by lia.
    + apply lookup_writeRgba_other. lia.
Qed.

Lemma fold_left_nested {A B C} (f : A -> B -> C -> A) (inner : B -> list C)
    (outer : list B) (a : A) :
  fold_left (fun acc b => fold_left (fun acc c => f acc b c) (inner b) acc) outer a
  = fold_left (fun acc bc => f acc (fst bc) (snd bc))
      (b ← outer; (fun c => (b, c)) <$> inner b) a.
Proof.
  revert a. induction outer as [|b outer IH]; intros a; [reflexivity|].
  cbn [fold_left]. rewrite bind_cons, fold_left_app, <- IH. f_equal.
  generalize (inner b). clear. intros l. revert a.
  induction l as [|c l IH]; intros a; [reflexivity|]. cbn. apply IH.
Qed.

Lemma elem_of_rangeZ (lo hi v : Z) : v ∈ rangeZ lo hi <-> lo <= v < hi.
Proof. unfold rangeZ. rewrite elem_of_seqZ. lia. Qed.

Lemma length_fillRect (width height x y w h opacityByte : Z) (maskBuffer : list Z) :
  length (fillRect width height x y w h opacityByte maskBuffer) = length maskBuffer.
Proof.
  unfold fillRect.
  apply (fold_left_preserves (fun buf => length buf = length maskBuffer)); [reflexivity|].
  intros buf py Hbuf.
  apply (fold_left_preserves (fun buf => length buf = length maskBuffer)); [exact Hbuf|].
  intros buf' px Hbuf'. unfold writeRgbaZ.
  destruct (_ <? 0); [exact Hbuf' | by rewrite length_writeRgba].
Qed.

(** The alpha byte [fillRect] leaves at a pixel of the frame, for a
    rectangle that starts at a non-negative abscissa. *)
Lemma fillRect_alpha (width height x y w h opacityByte px py : Z) (maskBuffer : list Z) :
  0 <= x -> 0 <= px < width -> 0 <= py < height ->
  length maskBuffer = (Z.to_nat (width * height) * 4)%nat ->
  fillRect width height x y w h opacityByte maskBuffer !! Z.to_nat ((py * width + px) * 4 + 3) =
    if (x <=? px) && (px <? x + w) && (y <=? py) && (py <? y + h)
    then Some (toUint8 opacityByte)
    else maskBuffer !! Z.to_nat ((py * width + px) * 4 + 3).
Proof.
  intros Hx Hpx Hpy Hlen. unfold fillRect.
  rewrite (fold_left_nested (fun buf py px =>
             writeRgbaZ buf ((py * width + px) * 4) 255 255 255 opacityByte)).
  set (j := Z.to_nat (py * width + px)).
  assert (Z.to_nat ((py * width + px) * 4 + 3) = (j * 4 + 3)%nat) as -> by (subst j; nia).
  pose proof (paint_alpha (fun bc : Z * Z => fst bc * width + snd bc) (fun _ => true)
                (b ← rangeZ y (Z.min (y + h) height);
                 (fun c => (b, c)) <$> rangeZ x (Z.min (x + w) width))
                opacityByte maskBuffer j) as Hpaint.
  cbv zeta in Hpaint. cbn [andb] in Hpaint.
  rewrite Hpaint by (subst j; nia). clear Hpaint.
  match goal with |- (if ?a then _ else _) = (if ?b then _ else _) =>
    assert (a = b) as ->; [|reflexivity] end.
  apply eq_true_iff_eq. rewrite existsb_exists, !andb_true_iff.
  rewrite !Z.leb_le, !Z.ltb_lt. split.
  - intros ([py' px'] & Hin & Heq). apply Z.eqb_eq in Heq. cbn [fst snd] in Heq.
    apply list_elem_of_In, list_elem_of_bind in Hin as (b & Hin & Hb).
    apply list_elem_of_fmap in Hin as (c & Hpair & Hc).
    injection Hpair as -> ->.
    apply elem_of_rangeZ in Hb, Hc.
    assert (Z.of_nat j = py * width + px) as Hj by (subst j; nia).
    assert (b = py) as ->.
    { destruct (Z.lt_trichotomy b py) as [Hlt | [Heq' | Hgt]]; [|exact Heq'|].
      - assert (b * width + width <= py * width) by nia. lia.
      - assert (py * width + width <= b * width) by nia. lia. }
    assert (c = px) as -> by lia. lia.
  - intros Hin. exists (py, px). split.
    + apply list_elem_of_In, list_elem_of_bind. exists py. split.
      * apply list_elem_of_fmap. exists px. split; [reflexivity|].
        apply elem_of_rangeZ. lia.
      * apply elem_of_rangeZ. lia.
    + apply Z.eqb_eq. cbn [fst snd]. subst j. rewrite Z2Nat.id by nia. reflexivity.
Qed.

Lemma Qltb_ge (x y : Q) : (y <= x)%Q -> Qltb x y = false.
Proof. intros Hle. unfold Qltb. apply negb_false_iff, Qle_bool_iff, Hle. Qed.

Lemma Qgtb_le (x y : Q) : (x <= y)%Q -> Qgtb x y = false.
Proof. intros Hle. unfold Qgtb. apply negb_false_iff, Qle_bool_iff, Hle. Qed.

Lemma Qle_bool_gt (x y : Q) : (y < x)%Q -> Qle_bool x y = false.
Proof. apply Qle_bool_false. Qed.

Lemma alloc_lookup_alpha (pixelCount j : nat) :
  (j < pixelCount)%nat -> alloc (pixelCount * 4) !! (j * 4 + 3)%nat = Some 0.
Proof. intros Hj. apply lookup_replicate_2. lia. Qed.

Lemma pixel_index_bound (width height px py : Z) :
  0 <= px < width -> 0 <= py < height ->
  0 <= py * width + px < width * height.
Proof. intros Hpx Hpy. nia. Qed.



(** X7: rectangle coordinates that are not valid fractions ([x] or [y]
    outside [0, 1], or a width or height that is not positive) raise no
    error and give no empty mask: the mask is the centred rectangle from
    [(floor(W/4), floor(H/4))] of size [floor(W/2) x floor(H/2)]. *)
Theorem invalid_rectangle_masks_centre (m : MaskData Q) (width height : Z)
    (xq yq wq hq : Q) (rest : list Q) (px py : Z) :
  maskType m = rectangle ->
  coordinates m = CoordObject xq yq wq hq \/
    coordinates m = CoordArray (xq :: yq :: wq :: hq :: rest) ->
  (xq < 0 \/ 1 < xq \/ yq < 0 \/ 1 < yq \/ wq <= 0 \/ hq <= 0)%Q ->
  0 <= px < width -> 0 <= py < height ->
  let x := Qfloor (inject_Z width * (1 # 4)) in
  let y := Qfloor (inject_Z height * (1 # 4)) in
  let w := Qfloor (inject_Z width * (1 # 2)) in
  let h := Qfloor (inject_Z height * (1 # 2)) in
  let opacityByte := Qfloor ((opacity m / 100) * 255) in
  vectorMask m width height !! Z.to_nat ((py * width + px) * 4 + 3) =
    Some (if (x <=? px) && (px <? x + w) && (y <=? py) && (py <? y + h)
          then toUint8 opacityByte else 0).
Proof.
  intros Htype Hcoords Hinvalid Hpx Hpy x y w h opacityByte.
  pose proof (pixel_index_bound width height px py Hpx Hpy) as Hidx.
  assert ((if (x <=? px) && (px <? x + w) && (y <=? py) && (py <? y + h)
           then Some (toUint8 opacityByte)
           else alloc (Z.to_nat (width * height) * 4)
                  !! Z.to_nat ((py * width + px) * 4 + 3))
          = Some (if (x <=? px) && (px <? x + w) && (y <=? py) && (py <? y + h)
                  then toUint8 opacityByte else 0)) as Hbase.
  { destruct (_ && _ && _ && _); [reflexivity|].
    replace (Z.to_nat ((py * width + px) * 4 + 3))
      with (Z.to_nat (py * width + px) * 4 + 3)%nat by lia.
    apply alloc_lookup_alpha. lia. }
  assert (0 <= x) as Hxpos.
  { subst x. change 0 with (Qfloor 0). apply Qfloor_resp_le.
    apply Qmult_le_0_compat; [|discriminate]. change 0%Q with (inject_Z 0).
    rewrite <- Zle_Qle. lia. }
  assert (Qltb xq 0 || Qgtb xq 1 || Qltb yq 0 || Qgtb yq 1
          || Qle_bool wq 0 || Qle_bool hq 0 = true) as Htest.
  { rewrite !orb_true_iff, !Qltb_lt, !Qgtb_lt, !Qle_bool_iff. tauto. }
  unfold vectorMask. rewrite Htype.
  destruct Hcoords as [-> | ->]; cbn [lookup list_lookup holds];
    rewrite Htest;
    rewrite fillRect_alpha by (try assumption; apply length_replicate);
    exact Hbase.
Qed.

Lemma invalid_rectangle_masks_centre_witness :
  let m := vectorMaskData rectangle (CoordObject 120 80 200 100)%Q 100%Q in
  vectorMask m 4 4 !! Z.to_nat ((1 * 4 + 1) * 4 + 3) = Some 255 /\
  vectorMask m 4 4 !! Z.to_nat ((0 * 4 + 0) * 4 + 3) = Some 0.
Proof.
  intros m. split.
  - exact (invalid_rectangle_masks_centre m 4 4 120 80 200 100 [] 1 1
             eq_refl (or_introl eq_refl) (or_intror (or_introl eq_refl))
             ltac:(lia) ltac:(lia)).
  - exact (invalid_rectangle_masks_centre m 4 4 120 80 200 100 [] 0 0
             eq_refl (or_introl eq_refl) (or_intror (or_introl eq_refl))
             ltac:(lia) ltac:(lia)).
Defined.

Lemma fillCircle_alpha (width height : Z) (cx cy radius : Q) (opacityByte px py : Z)
    (maskBuffer : list Z) :
  0 <= px < width -> 0 <= py < height ->
  length maskBuffer = (Z.to_nat (width * height) * 4)%nat ->
  fillCircle width height cx cy radius opacityByte maskBuffer
    !! Z.to_nat ((py * width + px) * 4 + 3) =
    if inCircle px py cx cy radius
    then Some (toUint8 opacityByte)
    else maskBuffer !! Z.to_nat ((py * width + px) * 4 + 3).
Proof.
  intros Hpx Hpy Hlen. unfold fillCircle.
  rewrite (fold_left_nested (fun buf py px =>
             if inCircle px py cx cy radius
             then writeRgbaZ buf ((py * width + px) * 4) 255 255 255 opacityByte
             else buf)).
  pose proof (pixel_index_bound width height px py Hpx Hpy) as Hidx.
  set (j := Z.to_nat (py * width + px)).
  assert (Z.to_nat ((py * width + px) * 4 + 3) = (j * 4 + 3)%nat) as -> by (subst j; lia).
  pose proof (paint_alpha (fun bc : Z * Z => fst bc * width + snd bc)
                (fun bc : Z * Z => inCircle (snd bc) (fst bc) cx cy radius)
                (b ← rangeZ 0 height; (fun c => (b, c)) <$> rangeZ 0 width)
                opacityByte maskBuffer j) as Hpaint.
  cbv zeta in Hpaint.
  rewrite Hpaint by (subst j; lia). clear Hpaint.
  match goal with |- (if ?a then _ else _) = (if ?b then _ else _) =>
    assert (a = b) as ->; [|reflexivity] end.
  apply eq_true_iff_eq. rewrite existsb_exists. split.
  - intros ([py' px'] & Hin & Hsel). apply andb_true_iff in Hsel as [Hsel Heq].
    apply Z.eqb_eq in Heq. cbn [fst snd] in *.
    apply list_elem_of_In, list_elem_of_bind in Hin as (b & Hin & Hb).
    apply list_elem_of_fmap in Hin as (c & Hpair & Hc).
    injection Hpair as -> ->.
    apply elem_of_rangeZ in Hb, Hc.
    assert (Z.of_nat j = py * width + px) as Hj by (subst j; lia).
    assert (b = py) as ->.
    { destruct (Z.lt_trichotomy b py) as [Hlt | [Heq' | Hgt]]; [|exact Heq'|].
      - assert (b * width + width <= py * width) by nia. lia.
      - assert (py * width + width <= b * width) by nia. lia. }
    assert (c = px) as -> by lia. exact Hsel.
  - intros Hin. exists (py, px). split.
    + apply list_elem_of_In, list_elem_of_bind. exists py. split.
      * apply list_elem_of_fmap. exists px. split; [reflexivity|].
        apply elem_of_rangeZ. lia.
      * apply elem_of_rangeZ. lia.
    + cbn [fst snd]. rewrite Hin. apply Z.eqb_eq. subst j. lia.
Qed.

Lemma inCircle_spec (px py : Z) (cx cy radius : Q) :
  inCircle px py cx cy radius = true <->
  (0 <= radius /\
   (inject_Z px - cx) * (inject_Z px - cx) + (inject_Z py - cy) * (inject_Z py - cy)
     <= radius * radius)%Q.
Proof. unfold inCircle. by rewrite andb_true_iff, !Qle_bool_iff. Qed.



Lemma fillAll_alpha (pixelCount n j : nat) (opacityByte : Z) :
  (n <= pixelCount)%nat -> (j < pixelCount)%nat ->
  let buf := fold_left (fun buf i => writeRgba buf (i * 4) 255 255 255 opacityByte)
               (seq 0 n) (alloc (pixelCount * 4)) in
  length buf = (pixelCount * 4)%nat /\
  buf !! (j * 4 + 3)%nat = Some (if (j <? n)%nat then toUint8 opacityByte else 0).
Proof.
  intros Hn Hj. induction n as [|n IH]; cbv zeta.
  - cbn [seq fold_left]. split; [apply length_replicate|].
    by apply alloc_lookup_alpha.
  - rewrite fold_left_seq_S.
    destruct (IH ltac:(lia)) as [Hlen Hget]. clear IH.
    set (prev := fold_left _ (seq 0 n) _) in *.
    split; [by rewrite length_writeRgba|].
    destruct (decide (j = n)) as [->|Hne].
    + rewrite (lookup_writeRgba_in prev (n * 4) 3) by lia.
      assert ((n <? S n)%nat = true) as -> by (apply Nat.ltb_lt; lia). reflexivity.
    + rewrite lookup_writeRgba_other by lia. rewrite Hget.
      assert ((j <? S n)%nat = (j <? n)%nat) as ->; [|reflexivity].
      destruct (Nat.ltb_spec j (S n)), (Nat.ltb_spec j n); try reflexivity; lia.
Qed.

(** X9: a polygon or freeform mask that carries no raster payload is not
    drawn from its coordinates: the vector path marks every pixel of the frame
    with the opacity byte, so for an opacity between 1 and 100 the compositor
    blackens the first three channels of every pixel. *)
Theorem shape_without_payload_masks_whole_frame (E : Collaborators) (m : MaskData Q)
    (width height : Z) :
  maskType m = polygon \/ maskType m = freeform ->
  canvasDataUrl m = None \/ canvasDataUrl m = Some EmptyString ->
  0 <= width * height ->
  let opacityByte := Qfloor ((opacity m / 100) * 255) in
  exists maskRgba,
    createMaskRgbaBuffer E m width height = Ok maskRgba /\
    length maskRgba = (Z.to_nat (width * height) * 4)%nat /\
    (forall j, (j < Z.to_nat (width * height))%nat ->
       maskRgba !! (j * 4 + 3)%nat = Some (toUint8 opacityByte)) /\
    ((1 <= opacity m <= 100)%Q ->
     forall pixels channels framePixels i c,
       (i < pixels)%nat -> (i < Z.to_nat (width * height))%nat ->
       (c < 3)%nat -> (i * channels + c < length framePixels)%nat ->
       applyMask pixels channels maskRgba framePixels !! (i * channels + c)%nat = Some 0).
Proof.
  intros Htype Hurl Hsize opacityByte.
  exists (vectorMask m width height).
  assert (vectorMask m width height
          = fillAll (Z.to_nat (width * height)) opacityByte
              (alloc (Z.to_nat (width * height) * 4))) as Hmask.
  { unfold vectorMask. by destruct Htype as [-> | ->]. }
  split; [|split; [|split]].
  - unfold createMaskRgbaBuffer.
    destruct (Z.ltb_spec (width * height) 0); [lia|].
    by destruct Hurl as [-> | ->].
  - rewrite Hmask. unfold fillAll.
    destruct (Z.to_nat (width * height)) as [|n] eqn:Hn; [reflexivity|].
    apply (fillAll_alpha (S n) (S n) 0 opacityByte); lia.
  - intros j Hj. rewrite Hmask. unfold fillAll.
    destruct (fillAll_alpha (Z.to_nat (width * height)) (Z.to_nat (width * height)) j
                opacityByte (le_n _) Hj) as [_ Hget].
    rewrite Hget. by apply Nat.ltb_lt in Hj as ->.
  - intros Hopacity pixels channels framePixels i c Hi Hin Hc Hlen.
    pose proof (opacity_byte_range (opacity m) Hopacity) as Hbyte.
    apply (applyMask_opaque _ _ _ _ _ _ (toUint8 opacityByte)); try assumption.
    + rewrite Hmask. unfold fillAll.
      destruct (fillAll_alpha (Z.to_nat (width * height)) (Z.to_nat (width * height)) i
                  opacityByte (le_n _) Hin) as [_ Hget].
      rewrite Hget. by apply Nat.ltb_lt in Hin as ->.
    + rewrite toUint8_small; subst opacityByte; lia.
Qed.

Lemma shape_without_payload_masks_whole_frame_witness :
  let m := vectorMaskData freeform (CoordArray [(1 # 4); (1 # 4); (1 # 2); (1 # 2)])%Q 100%Q in
  exists maskRgba,
    createMaskRgbaBuffer quietCollaborators m 2 2 = Ok maskRgba /\
    applyMask 4 3 maskRgba (replicate 12 200) !! 0%nat = Some 0.
Proof.
  intros m.
  destruct (shape_without_payload_masks_whole_frame quietCollaborators m 2 2
              (or_intror eq_refl) (or_introl eq_refl) ltac:(lia))
    as (maskRgba & Hmask & _ & _ & Hblack).
  exists maskRgba. split; [exact Hmask|].
  apply (Hblack ltac:(split; vm_compute; discriminate) 4%nat 3%nat (replicate 12 200) 0%nat 0%nat);
    cbn; lia.
Defined.

(** ** Splitting and joining strings *)

Lemma splitOn_not_nil (c : ascii) (s : string) : splitOn c s <> [].
Proof.
  induction s as [|a s IH]; cbn; [discriminate|].
  destruct (Ascii.eqb a c); [discriminate|].
  by destruct (splitOn c s).
Qed.

Lemma splitOn_no_char (c : ascii) (s : string) :
  hasChar c s = false -> splitOn c s = [s].
Proof.
  induction s as [|a s IH]; cbn; [reflexivity|].
  intros Hno. apply orb_false_elim in Hno as [Ha Hs].
  rewrite Ha, IH by assumption. reflexivity.
Qed.

Lemma append_nil (s : string) : EmptyString +:+ s = s.
Proof. reflexivity. Qed.

Lemma append_cons (c : ascii) (a b : string) : String c a +:+ b = String c (a +:+ b).
Proof. reflexivity. Qed.

Lemma splitOn_app (c : ascii) (a b : string) :
  hasChar c a = false ->
  splitOn c (a +:+ String c b) = a :: splitOn c b.
Proof.
  induction a as [|x a IH]; rewrite ?append_nil, ?append_cons;
    cbn [hasChar splitOn]; intros Hno.
  - by rewrite Ascii.eqb_refl.
  - apply orb_false_elim in Hno as [Hx Ha].
    rewrite Hx, IH by assumption. reflexivity.
Qed.

(** Joining the parts of a split with the separator gives the string back,
    and no part holds the separator. *)
Lemma splitOn_join (c : ascii) (s : string) :
  String.concat (String c EmptyString) (splitOn c s) = s /\
  Forall (fun part => hasChar c part = false) (splitOn c s).
Proof.
  induction s as [|a s [IHjoin IHparts]]; cbn [splitOn].
  - split; [reflexivity | by repeat constructor].
  - destruct (Ascii.eqb_spec a c) as [->|Hne].
    + pose proof (splitOn_not_nil c s) as Hnil.
      split.
      * cbn [String.concat]. destruct (splitOn c s) as [|p ps]; [contradiction|].
        cbn in IHjoin |- *. by rewrite IHjoin.
      * by constructor.
    + pose proof (splitOn_not_nil c s) as Hnil.
      destruct (splitOn c s) as [|p ps]; [contradiction|].
      apply Forall_cons in IHparts as [Hp Hps]. split.
      * cbn [String.concat] in *. destruct ps as [|p' ps].
        -- by rewrite IHjoin.
        -- cbn. by rewrite <- IHjoin.
      * constructor; [|exact Hps]. cbn.
        rewrite Hp, orb_false_r. by apply Ascii.eqb_neq.
Qed.

(** X10: [createMaskFromBase64] accepts a data URL exactly when it starts
    with [data:image/], holds exactly one comma, and its part before the
    comma mentions [base64]; the payload handed to the decoder is then
    everything after the comma.  (Any other URL, for instance one whose
    payload itself contains a comma, takes the error path.) *)
Theorem extractBase64_accepts (url payload : string) :
  extractBase64 url = Ok payload <->
  exists header,
    url = header +:+ String "," payload /\
    hasChar "," header = false /\ hasChar "," payload = false /\
    String.prefix "data:image/" url = true /\
    includes "base64" header = true.
Proof.
  unfold extractBase64. split.
  - destruct (String.eqb url EmptyString); [discriminate|].
    destruct (String.prefix "data:image/" url) eqn:Hprefix; [|discriminate]. cbn [negb].
    destruct (splitOn_join "," url) as [Hjoin Hparts].
    destruct (splitOn "," url) as [|p0 [|p1 [|p2 ps]]]; try discriminate.
    destruct (includes "base64" p0) eqn:Hinc; [|discriminate].
    intros [= <-]. exists p0.
    apply Forall_cons in Hparts as [Hp0 Hparts].
    apply Forall_cons in Hparts as [Hp1 _].
    cbn [String.concat] in Hjoin. rewrite append_cons, append_nil in Hjoin.
    subst url. done.
  - intros (header & -> & Hheader & Hpayload & Hprefix & Hinc).
    destruct (String.eqb_spec (header +:+ String "," payload) EmptyString) as [Hempty|_].
    { rewrite Hempty in Hprefix. discriminate Hprefix. }
    rewrite Hprefix. cbn [negb].
    rewrite splitOn_app, (splitOn_no_char _ payload), Hinc by assumption.
    reflexivity.
Qed.

Lemma extractBase64_accepts_witness :
  extractBase64 "data:image/png;base64,iVBORw0KGgo=" = Ok "iVBORw0KGgo="%string.
Proof.
  apply extractBase64_accepts. exists "data:image/png;base64"%string.
  repeat split; reflexivity.
Defined.

(** ** The two raster converters *)

Lemma convert_loop_invariant (maskData : list Z) (channels pixelCount n : nat) :
  (n <= pixelCount)%nat ->
  let buf := fold_left (convertStep maskData channels) (seq 0 n) (alloc (pixelCount * 4)) in
  length buf = (pixelCount * 4)%nat /\
  forall j c, (j < pixelCount)%nat -> (c < 4)%nat ->
    buf !! (j * 4 + c)%nat =
      Some (if (j <? n)%nat && detected (maskPixel maskData channels j)
            then match c with 0%nat | 3%nat => 255 | _ => 0 end
            else 0).
Proof.
  induction n as [|n IH]; intros Hn buf.
  - subst buf. cbn [seq fold_left]. split; [apply length_replicate|].
    intros j c Hj Hc. cbn [andb Nat.ltb Nat.leb]. apply lookup_replicate_2. lia.
  - subst buf. rewrite fold_left_seq_S.
    destruct (IH ltac:(lia)) as [Hlen Hget]. clear IH.
    set (prev := fold_left _ (seq 0 n) _) in *.
    assert (length (convertStep maskData channels prev n) = (pixelCount * 4)%nat) as Hlen'.
    { unfold convertStep. destruct (detected _); by rewrite length_writeRgba. }
    split; [exact Hlen'|].
    intros j c Hj Hc.
    destruct (decide (j = n)) as [->|Hne].
    + assert ((n <? S n)%nat = true) as -> by (apply Nat.ltb_lt; lia). cbn [andb].
      unfold convertStep.
      destruct (detected (maskPixel maskData channels n));
        rewrite lookup_writeRgba_in by lia;
        by destruct c as [|[|[|[|c]]]]; try lia.
    + assert (convertStep maskData channels prev n !! (j * 4 + c)%nat
              = prev !! (j * 4 + c)%nat) as ->.
      { unfold convertStep. destruct (detected _); apply lookup_writeRgba_other; lia. }
      rewrite Hget by lia.
      assert ((j <? S n)%nat = (j <? n)%nat) as ->; [|reflexivity].
      destruct (Nat.ltb_spec j (S n)), (Nat.ltb_spec j n); try reflexivity; lia.
Qed.

(** Only the alpha bytes of its pixels matter to the compositor, and only
    whether they are positive. *)
Lemma applyMask_alpha_ext (pixels imageChannels : nat) (mask1 mask2 framePixels : list Z) :
  (forall i, (i < pixels)%nat ->
     (0 <? maskAlphaAt mask1 i) = (0 <? maskAlphaAt mask2 i)) ->
  applyMask pixels imageChannels mask1 framePixels
  = applyMask pixels imageChannels mask2 framePixels.
Proof.
  intros Halpha. apply list_eq. intros k. rewrite !applyMask_lookup.
  destruct (framePixels !! k) as [v|]; [|reflexivity].
  cbn [fmap option_fmap option_map]. f_equal.
  assert (blackened pixels imageChannels mask1 k = blackened pixels imageChannels mask2 k)
    as ->; [|reflexivity].
  unfold blackened. apply eq_true_iff_eq. rewrite !existsb_exists.
  split; intros (i & Hi & Hcond); exists i; (split; [exact Hi|]);
    apply in_seq in Hi; [rewrite <- Halpha by lia | rewrite Halpha by lia]; exact Hcond.
Qed.

(** X11: [convertToRgbaBuffer] classifies a pixel by the same test as the
    raster path of [createMaskFromBase64] (alpha above 128, red above 150 and
    above 1.5 times green and blue): it writes [(255, 0, 0, 255)] for a
    detected pixel and [(0, 0, 0, 0)] otherwise, where the other converter
    writes opaque white; under the compositor the two buffers give the same
    frame. *)
Theorem convertToRgbaBuffer_pixels (maskData : list Z) (width height : Z) (channels : nat)
    (rgbaBuffer : list Z) :
  convertToRgbaBuffer maskData width height channels = Ok rgbaBuffer ->
  let pixelCount := Z.to_nat (width * height) in
  length rgbaBuffer = (pixelCount * 4)%nat /\
  (forall i, (i < pixelCount)%nat ->
     (rgbaBuffer !! (i * 4)%nat, rgbaBuffer !! (i * 4 + 1)%nat,
      rgbaBuffer !! (i * 4 + 2)%nat, rgbaBuffer !! (i * 4 + 3)%nat)
     = if detected (maskPixel maskData channels i)
       then (Some 255, Some 0, Some 0, Some 255)
       else (Some 0, Some 0, Some 0, Some 0)) /\
  (forall pixels imageChannels framePixels,
     applyMask pixels imageChannels rgbaBuffer framePixels
     = applyMask pixels imageChannels (detectMask maskData channels pixelCount) framePixels).
Proof.
  unfold convertToRgbaBuffer. cbv zeta.
  destruct (width * height <? 0); [discriminate|]. intros [= <-].
  set (pixelCount := Z.to_nat (width * height)).
  destruct (convert_loop_invariant maskData channels pixelCount pixelCount (le_n _))
    as [Hlen Hget].
  split; [exact Hlen|]. split.
  - intros i Hi.
    pose proof (Hget i 0%nat Hi ltac:(lia)) as H0. rewrite Nat.add_0_r in H0.
    rewrite H0, !Hget by lia.
    assert ((i <? pixelCount)%nat = true) as -> by (apply Nat.ltb_lt; lia). cbn [andb].
    by destruct (detected _).
  - intros pixels imageChannels framePixels. apply applyMask_alpha_ext.
    intros i _. unfold maskAlphaAt.
    destruct (Nat.lt_ge_cases i pixelCount) as [Hi|Hi].
    + rewrite Hget, detectMask_lookup by lia.
      assert ((i <? pixelCount)%nat = true) as -> by (apply Nat.ltb_lt; lia). cbn [andb].
      by destruct (detected _).
    + rewrite !lookup_ge_None_2; [reflexivity | |lia].
      unfold detectMask.
      destruct (detect_loop_invariant maskData channels pixelCount pixelCount (le_n _))
        as [Hlen' _].
      lia.
Qed.

Lemma convertToRgbaBuffer_pixels_witness :
  convertToRgbaBuffer [255; 0; 0; 255; 10; 200; 10; 255] 2 1 4
    = Ok [255; 0; 0; 255; 0; 0; 0; 0] /\
  applyMask 2 3 [255; 0; 0; 255; 0; 0; 0; 0] [9; 8; 7; 6; 5; 4]
    = applyMask 2 3 (detectMask [255; 0; 0; 255; 10; 200; 10; 255] 4 2) [9; 8; 7; 6; 5; 4].
Proof.
  split; [reflexivity|].
  exact (proj2 (proj2 (convertToRgbaBuffer_pixels [255; 0; 0; 255; 10; 200; 10; 255] 2 1 4
                         [255; 0; 0; 255; 0; 0; 0; 0] eq_refl)) 2%nat 3%nat [9; 8; 7; 6; 5; 4]).
Defined.

(** ** Frame-level steps *)

(** X12: the clamping step is idempotent on every frame of at least one
    pixel in each direction: a rectangle it returns no longer exceeds the
    frame, so clamping it again changes nothing. *)
Theorem clampToFrame_idempotent (pixelCoords : PixelCoords) (frameWidth frameHeight : Q) :
  (1 <= frameWidth)%Q -> (1 <= frameHeight)%Q ->
  let clamped := clampToFrame pixelCoords frameWidth frameHeight in
  exceedsFrame clamped frameWidth frameHeight = false /\
  clampToFrame clamped frameWidth frameHeight = clamped.
Proof.
  intros HW HH clamped.
  assert (exceedsFrame clamped frameWidth frameHeight = false) as Hin.
  { subst clamped. unfold clampToFrame.
    destruct (exceedsFrame pixelCoords frameWidth frameHeight) eqn:Hex; [|exact Hex].
    unfold exceedsFrame. cbn [pcX pcY pcWidth pcHeight].
    destruct (clamp_range 0 (frameWidth - 1) (pcX pixelCoords) ltac:(lra)) as [Hx0 Hx1].
    destruct (clamp_range 0 (frameHeight - 1) (pcY pixelCoords) ltac:(lra)) as [Hy0 Hy1].
    set (x := Qmax 0 (Qmin (pcX pixelCoords) (frameWidth - 1))) in *.
    set (y := Qmax 0 (Qmin (pcY pixelCoords) (frameHeight - 1))) in *.
    destruct (clamp_range 1 (frameWidth - x) (pcWidth pixelCoords) ltac:(lra)) as [Hw0 Hw1].
    destruct (clamp_range 1 (frameHeight - y) (pcHeight pixelCoords) ltac:(lra)) as [Hh0 Hh1].
    set (w := Qmax 1 (Qmin (pcWidth pixelCoords) (frameWidth - x))) in *.
    set (h := Qmax 1 (Qmin (pcHeight pixelCoords) (frameHeight - y))) in *.
    rewrite !Qltb_ge by assumption. rewrite !Qgtb_le by lra. reflexivity. }
  split; [exact Hin|]. unfold clampToFrame at 1. by rewrite Hin.
Qed.

Lemma clampToFrame_idempotent_witness :
  clampToFrame (clampToFrame {| pcX := -5; pcY := 90; pcWidth := 200; pcHeight := 20 |} 100 100)
    100 100
  = clampToFrame {| pcX := -5; pcY := 90; pcWidth := 200; pcHeight := 20 |} 100 100.
Proof.
  exact (proj2 (clampToFrame_idempotent
                  {| pcX := -5; pcY := 90; pcWidth := 200; pcHeight := 20 |} 100 100
                  ltac:(discriminate) ltac:(discriminate))).
Defined.

Section FallbackTransform.
Local Open Scope Q_scope.


End FallbackTransform.


(** X14: the global [referenceDimensions] is written by frame 0 only.
    Whatever [processFrame] does with a frame of another number (success,
    dimension mismatch, any other failure), it leaves the reference as it was;
    frame 0, once its metadata is read, is never compared: it overwrites the
    reference, whatever an earlier job left there, with its own dimensions
    ([1920] and [1080] standing in for a missing or zero width and height). *)
Theorem reference_dimensions_set_by_frame_0 (E : Collaborators) (task : Task)
    (referenceDimensions : option (Z * Z)) :
  (frameNumber task <> 0%nat ->
   snd (processFrame E task referenceDimensions) = referenceDimensions) /\
  (frameNumber task = 0%nat ->
   forall unprocessedBuffer width height,
     sharpToPng E (frameBuffer task) = Ok unprocessedBuffer ->
     writeFile E "output/debug_frame_0_original.png" unprocessedBuffer = Ok tt ->
     sharpMetadata E (frameBuffer task) = Ok (width, height) ->
     snd (processFrame E task referenceDimensions)
     = Some (orDefault width 1920, orDefault height 1080)).
Proof.
  split.
  - intros Hn. unfold processFrame.
    destruct (Nat.eqb_spec (frameNumber task) 0) as [|_]; [contradiction|].
    exc_simpl.
    destruct (sharpMetadata E (frameBuffer task)) as [[width height]|]; exc_simpl;
      [|reflexivity].
    unfold validateDimensions.
    destruct (Nat.eqb_spec (frameNumber task) 0) as [|_]; [contradiction|].
    destruct referenceDimensions as [[refWidth refHeight]|]; [|reflexivity].
    by destruct (negb _ || negb _).
  - intros Hn unprocessedBuffer width height Hpng Hwrite Hmeta.
    unfold processFrame, validateDimensions. rewrite Hn. cbn [Nat.eqb].
    rewrite Hpng. exc_simpl. rewrite Hwrite. exc_simpl. rewrite Hmeta. exc_simpl.
    reflexivity.
Qed.

Lemma reference_dimensions_set_by_frame_0_witness :
  snd (processFrame mismatchedCollaborators
         (imageTask [1; 1; 1] (rasterMaskData "data:image/png;base64,AAAA") (0, 0)
            exampleSettings 0)
         (Some (640, 480)))
  = Some (100, 100) /\
  snd (processFrame mismatchedCollaborators
         (imageTask [2; 2; 2] (rasterMaskData "data:image/png;base64,AAAA") (0, 0)
            exampleSettings 3)
         (Some (640, 480)))
  = Some (640, 480).
Proof.
  split.
  - exact (proj2 (reference_dimensions_set_by_frame_0 mismatchedCollaborators
                    (imageTask [1; 1; 1] (rasterMaskData "data:image/png;base64,AAAA") (0, 0)
                       exampleSettings 0) (Some (640, 480)))
             eq_refl [1; 1; 1] (Some 100) (Some 100) eq_refl eq_refl eq_refl).
  - exact (proj1 (reference_dimensions_set_by_frame_0 mismatchedCollaborators
                    (imageTask [2; 2; 2] (rasterMaskData "data:image/png;base64,AAAA") (0, 0)
                       exampleSettings 3) (Some (640, 480)))
             ltac:(discriminate)).
Defined.

(** ** Windowing keeps the order of the samples *)

Lemma fold_min_le (l : list Z) (a : Z) :
  fold_left Z.min l a <= a /\ forall x, x ∈ l -> fold_left Z.min l a <= x.
Proof.
  revert a. induction l as [|y l IH]; intros a; cbn [fold_left].
  - split; [lia|]. intros x Hx. by apply elem_of_nil in Hx.
  - destruct (IH (Z.min a y)) as [Hacc Hall]. split; [lia|].
    intros x Hx. apply elem_of_cons in Hx as [-> | Hx]; [lia | by apply Hall].
Qed.

Lemma fold_max_ge (l : list Z) (a : Z) :
  a <= fold_left Z.max l a /\ forall x, x ∈ l -> x <= fold_left Z.max l a.
Proof.
  revert a. induction l as [|y l IH]; intros a; cbn [fold_left].
  - split; [lia|]. intros x Hx. by apply elem_of_nil in Hx.
  - destruct (IH (Z.max a y)) as [Hacc Hall]. split; [lia|].
    intros x Hx. apply elem_of_cons in Hx as [-> | Hx]; [lia | by apply Hall].
Qed.

Lemma minimum_le (l : list Z) (x : Z) : x ∈ l -> minimum l <= x.
Proof.
  destruct l as [|a l]; [intros Hx; by apply elem_of_nil in Hx|].
  intros Hx. cbn [minimum]. destruct (fold_min_le l a) as [Ha Hall].
  apply elem_of_cons in Hx as [-> | Hx]; [exact Ha | by apply Hall].
Qed.

Lemma maximum_ge (l : list Z) (x : Z) : x ∈ l -> x <= maximum l.
Proof.
  destruct l as [|a l]; [intros Hx; by apply elem_of_nil in Hx|].
  intros Hx. cbn [maximum]. destruct (fold_max_ge l a) as [Ha Hall].
  apply elem_of_cons in Hx as [-> | Hx]; [exact Ha | by apply Hall].
Qed.

Lemma mathRound_le (x y : Q) : (x <= y)%Q -> mathRound x <= mathRound y.
Proof. intros Hle. unfold mathRound. apply Qfloor_resp_le. lra. Qed.

Lemma mathRound_comp (x y : Q) : (x == y)%Q -> mathRound x = mathRound y.
Proof. intros Heq. unfold mathRound. by rewrite Heq. Qed.

(** The value a window assigns to a sample before it is rounded. *)
Lemma windowed_value_monotone (windowMin windowMax : Q) (s1 s2 : Z) :
  s1 <= s2 ->
  let value := fun s : Z =>
    if Qle_bool (inject_Z s) windowMin then 0%Q
    else if Qle_bool windowMax (inject_Z s) then 255%Q
    else (((inject_Z s - windowMin) / (windowMax - windowMin)) * 255)%Q in
  (0 <= value s1 /\ value s1 <= value s2 /\ value s2 <= 255)%Q.
Proof.
  intros Hle value. rewrite Zle_Qle in Hle.
  assert (forall s, 0 <= value s <= 255)%Q as Hrange.
  { intros s. subst value. cbv beta.
    destruct (Qle_bool (inject_Z s) windowMin) eqn:Hlo; [split; discriminate|].
    destruct (Qle_bool windowMax (inject_Z s)) eqn:Hhi; [split; discriminate|].
    apply Qle_bool_false in Hlo, Hhi. by apply interpolation_range. }
  split; [apply Hrange|]. split; [|apply Hrange].
  pose proof (Hrange s1) as [_ H1]. pose proof (Hrange s2) as [H2 _].
  subst value. cbv beta in *.
  destruct (Qle_bool (inject_Z s1) windowMin) eqn:Hlo1; [exact H2|].
  apply Qle_bool_false in Hlo1.
  destruct (Qle_bool (inject_Z s2) windowMin) eqn:Hlo2.
  { apply Qle_bool_iff in Hlo2. lra. }
  destruct (Qle_bool windowMax (inject_Z s2)) eqn:Hhi2; [exact H1|].
  destruct (Qle_bool windowMax (inject_Z s1)) eqn:Hhi1.
  { apply Qle_bool_iff in Hhi1. apply Qle_bool_false in Hhi2. lra. }
  apply Qle_bool_false in Hhi1, Hhi2.
  assert (0 < windowMax - windowMin)%Q as Hd by lra.
  apply Qmult_le_compat_r; [|discriminate].
  apply Qmult_le_compat_r; [lra|].
  apply Qlt_le_weak, Qinv_lt_0_compat, Hd.
Qed.

Lemma helperWindowSample_monotone (windowMin windowMax : Q) (s1 s2 : Z) :
  s1 <= s2 ->
  0 <= helperWindowSample windowMin windowMax s1
    <= helperWindowSample windowMin windowMax s2 /\
  helperWindowSample windowMin windowMax s2 <= 255.
Proof.
  intros Hle.
  destruct (windowed_value_monotone windowMin windowMax s1 s2 Hle) as (H0 & H12 & H255).
  cbv zeta beta in *. unfold helperWindowSample, Qgeb.
  set (v1 := if Qle_bool (inject_Z s1) windowMin then _ else _) in *.
  set (v2 := if Qle_bool (inject_Z s2) windowMin then _ else _) in *.
  pose proof (mathRound_byte v1 ltac:(split; lra)) as Hb1.
  pose proof (mathRound_byte v2 ltac:(split; lra)) as Hb2.
  pose proof (mathRound_le v1 v2 H12) as Hm.
  rewrite !toUint8_small by lia. lia.
Qed.

(** The automatic normalisation over the range of the samples of a frame. *)
Lemma auto_normalised_monotone (min max s1 s2 : Z) :
  min <= s1 -> s1 <= s2 -> s2 <= max ->
  let out := fun s : Z =>
    toUint8 (mathRound (((inject_Z s - inject_Z min) / inject_Z (max - min)) * 255)%Q) in
  0 <= out s1 <= out s2 /\ out s2 <= 255 /\
  (min < max -> out min = 0 /\ out max = 255).
Proof.
  intros Hlo Hle Hhi out.
  assert (forall s, min <= s <= max ->
            (0 <= ((inject_Z s - inject_Z min) / inject_Z (max - min)) * 255 <= 255)%Q)
    as Hrange.
  { intros s [Hs0 Hs1].
    destruct (Z.eq_dec min max) as [->|Hne].
    - rewrite Z.sub_diag. unfold Qdiv. change (/ inject_Z 0)%Q with 0%Q.
      rewrite Qmult_0_r, Qmult_0_l. split; discriminate.
    - assert (0 < inject_Z (max - min))%Q as Hd.
      { change 0%Q with (inject_Z 0). rewrite <- Zlt_Qlt. lia. }
      assert (0 <= inject_Z s - inject_Z min)%Q as Hn.
      { unfold Qminus. rewrite <- inject_Z_opp, <- inject_Z_plus.
        change 0%Q with (inject_Z 0). rewrite <- Zle_Qle. lia. }
      assert (inject_Z s - inject_Z min <= inject_Z (max - min))%Q as Hm.
      { unfold Qminus. rewrite <- inject_Z_opp, <- inject_Z_plus, <- Zle_Qle. lia. }
      assert (0 <= (inject_Z s - inject_Z min) / inject_Z (max - min))%Q as H0.
      { apply Qle_shift_div_l; [exact Hd | lra]. }
      assert ((inject_Z s - inject_Z min) / inject_Z (max - min) <= 1)%Q as H1.
      { apply Qle_shift_div_r; [exact Hd | lra]. }
      set (t := ((inject_Z s - inject_Z min) / inject_Z (max - min))%Q) in *.
      split; lra. }
  assert (forall s, min <= s <= max -> 0 <= out s <= 255 /\
            out s = mathRound (((inject_Z s - inject_Z min) / inject_Z (max - min)) * 255)%Q)
    as Hout.
  { intros s Hs. subst out. cbv beta.
    pose proof (mathRound_byte _ (Hrange s Hs)) as Hb.
    rewrite toUint8_small by lia. by split. }
  destruct (Hout s1 ltac:(lia)) as [Hb1 E1]. destruct (Hout s2 ltac:(lia)) as [Hb2 E2].
  split; [|split; [lia|]].
  - split; [lia|]. rewrite E1, E2. apply mathRound_le.
    destruct (Z.eq_dec min max) as [->|Hne].
    + rewrite Z.sub_diag. unfold Qdiv. change (/ inject_Z 0)%Q with 0%Q.
      rewrite !Qmult_0_r, !Qmult_0_l. discriminate.
    + assert (0 < inject_Z (max - min))%Q as Hd.
      { change 0%Q with (inject_Z 0). rewrite <- Zlt_Qlt. lia. }
      apply Qmult_le_compat_r; [|discriminate].
      apply Qmult_le_compat_r; [|apply Qlt_le_weak, Qinv_lt_0_compat, Hd].
      rewrite Zle_Qle in Hle. lra.
  - intros Hlt.
    destruct (Hout min ltac:(lia)) as [_ ->]. destruct (Hout max ltac:(lia)) as [_ ->].
    assert (~ inject_Z (max - min) == 0)%Q as Hd.
    { change 0%Q with (inject_Z 0). rewrite inject_Z_injective. lia. }
    split.
    + rewrite (mathRound_comp _ 0); [reflexivity|]. field. exact Hd.
    + rewrite (mathRound_comp _ 255); [reflexivity|].
      unfold Zminus in *. rewrite inject_Z_plus, inject_Z_opp in *. field. exact Hd.
Qed.



Lemma windowingFormula_monotone (windowMin windowMax : Q) (s1 s2 : Z) :
  s1 <= s2 ->
  0 <= windowingFormula windowMin windowMax s1 <= windowingFormula windowMin windowMax s2 /\
  windowingFormula windowMin windowMax s2 <= 255.
Proof.
  intros Hle.
  destruct (windowed_value_monotone windowMin windowMax s1 s2 Hle) as (H0 & H12 & H255).
  cbv zeta beta in *.
  assert (forall s, windowingFormula windowMin windowMax s
            = mathRound (if Qle_bool (inject_Z s) windowMin then 0%Q
                         else if Qle_bool windowMax (inject_Z s) then 255%Q
                         else (((inject_Z s - windowMin) / (windowMax - windowMin)) * 255)%Q))
    as Hform.
  { intros s. unfold windowingFormula.
    destruct (Qle_bool (inject_Z s) windowMin); [reflexivity|].
    by destruct (Qle_bool windowMax (inject_Z s)). }
  rewrite !Hform.
  set (v1 := if Qle_bool (inject_Z s1) windowMin then _ else _) in *.
  set (v2 := if Qle_bool (inject_Z s2) windowMin then _ else _) in *.
  pose proof (mathRound_byte v1 ltac:(split; lra)).
  pose proof (mathRound_byte v2 ltac:(split; lra)).
  pose proof (mathRound_le v1 v2 H12). lia.
Qed.

(** X16: the 16-bit branch of [extractDicomImage] keeps the order of the
    sample values (read as signed when the pixel representation is 1) for
    every window it may choose (explicit, modality preset or the range of the
    samples): a value that is not greater gets a byte that is not greater,
    and all bytes lie in [0, 255]. *)
Theorem image16_keeps_order (windowCenter windowWidth : option Q) (modality : string)
    (pixelRepresentation : Z) (pixelArray : list Z) (i j : nat) (ri rj : Z) :
  pixelArray !! i = Some ri -> pixelArray !! j = Some rj ->
  sampleValue pixelRepresentation ri <= sampleValue pixelRepresentation rj ->
  exists oi oj,
    image16 windowCenter windowWidth modality pixelRepresentation pixelArray !! i = Some oi /\
    image16 windowCenter windowWidth modality pixelRepresentation pixelArray !! j = Some oj /\
    0 <= oi <= oj /\ oj <= 255.
Proof.
  intros Hi Hj Hle. unfold image16.
  destruct (imageWindow windowCenter windowWidth modality pixelArray) as [windowMin windowMax].
  destruct (Qgtb (windowMax - windowMin) 0) eqn:Hrange.
  - apply Qgtb_lt in Hrange.
    eexists _, _. rewrite !list_lookup_fmap, Hi, Hj.
    split; [reflexivity|]. split; [reflexivity|].
    rewrite !imageWindowSample_formula by lra.
    pose proof (windowingFormula_monotone windowMin windowMax _ _ Hle). lia.
  - exists 128, 128. rewrite !list_lookup_fmap, Hi, Hj.
    split; [reflexivity|]. split; [reflexivity|]. lia.
Qed.

Lemma image16_keeps_order_witness :
  exists oi oj,
    image16 None None "CT" 1 [65000; 100] !! 0%nat = Some oi /\
    image16 None None "CT" 1 [65000; 100] !! 1%nat = Some oj /\
    0 <= oi <= oj /\ oj <= 255.
Proof.
  exact (image16_keeps_order None None "CT" 1 [65000; 100] 0 1 65000 100
           eq_refl eq_refl ltac:(vm_compute; discriminate)).
Defined.

Lemma minimum_replicate (n : nat) (v : Z) : minimum (replicate (S n) v) = v.
Proof.
  cbn [replicate minimum]. induction n as [|n IH]; [reflexivity|].
  cbn [replicate fold_left]. by rewrite Z.min_id.
Qed.

Lemma maximum_replicate (n : nat) (v : Z) : maximum (replicate (S n) v) = v.
Proof.
  cbn [replicate maximum]. induction n as [|n IH]; [reflexivity|].
  cbn [replicate fold_left]. by rewrite Z.max_id.
Qed.



(** ** What reaches the encoder *)

Lemma ensureSize_spec (expectedSize : Z) (data : list Z) :
  0 <= expectedSize ->
  length (ensureSize expectedSize data) = Z.to_nat expectedSize /\
  forall i, (i < Z.to_nat expectedSize)%nat ->
    ensureSize expectedSize data !! i = Some (default 0 (data !! i)).
Proof.
  intros Hsize. unfold ensureSize.
  destruct (Z.ltb_spec expectedSize (Z.of_nat (length data))) as [Hlt|Hge].
  - destruct (Z.ltb_spec expectedSize 0); [lia|]. split.
    + rewrite length_take. lia.
    + intros i Hi. rewrite lookup_take_lt by assumption.
      destruct (data !! i) eqn:Hd; [reflexivity|].
      apply lookup_ge_None in Hd. lia.
  - split.
    + rewrite length_app, length_replicate. lia.
    + intros i Hi. destruct (data !! i) eqn:Hd.
      * by rewrite (lookup_app_l_Some _ _ _ _ Hd).
      * apply lookup_ge_None in Hd. rewrite lookup_app_r by assumption.
        apply lookup_replicate_2. lia.
Qed.



(** ** Frame count and frame offsets *)

(** A frame whose bytes are all in the buffer is given to the helper. *)
Lemma extractDicomFrame_in_range (E : Collaborators) (dataset : Dataset)
    (frameIndex : Z) (pixelBuffer : list Z) :
  let rows := orDefault (Rows dataset) 512 in
  let cols := orDefault (Columns dataset) 512 in
  let bitsAllocated := orDefault (BitsAllocated dataset) 16 in
  let frameBytes := rows * cols * (bitsAllocated / 8) in
  pixelBufferOf (PixelDataOf dataset) = Ok pixelBuffer ->
  0 <= rows -> 0 <= cols -> 0 <= bitsAllocated -> (8 | bitsAllocated) ->
  0 <= frameIndex < detectDicomFrameCount dataset ->
  frameIndex * frameBytes + frameBytes <= Z.of_nat (length pixelBuffer) ->
  extractDicomFrame E dataset frameIndex
  = processDicomPixelDataHelper E dataset
      (take (Z.to_nat frameBytes) (drop (Z.to_nat (frameIndex * frameBytes)) pixelBuffer))
      rows cols bitsAllocated.
Proof.
  intros rows cols bitsAllocated frameBytes Hbuf Hr Hc Hb Hdiv [Hidx Hlt] Henough.
  assert (exists pixelData, PixelDataOf dataset = Some pixelData) as [pixelData Hpd].
  { destruct (PixelDataOf dataset) as [pd|]; [by exists pd | discriminate Hbuf]. }
  unfold extractDicomFrame.
  destruct (Z.leb_spec (detectDicomFrameCount dataset) frameIndex); [lia|].
  fold rows cols bitsAllocated.
  unfold framePixelData. rewrite Hpd. rewrite <- Hpd, Hbuf. exc_simpl.
  pose proof (bytesPerFrame_integer rows cols bitsAllocated Hdiv) as Hbpf.
  fold frameBytes in Hbpf.
  set (bytesPerFrame := bytesPerFrameOf rows cols bitsAllocated) in *.
  assert (0 <= bitsAllocated / 8) by (apply Z.div_pos; lia).
  assert (0 <= frameBytes) by (subst frameBytes; lia).
  assert (inject_Z frameIndex * bytesPerFrame == inject_Z (frameIndex * frameBytes))%Q
    as Hoff by (rewrite Hbpf, inject_Z_mult; reflexivity).
  destruct (Qltb _ _) eqn:Hcmp.
  { apply Qltb_lt in Hcmp.
    rewrite Hoff, Hbpf, <- inject_Z_plus, <- Zlt_Qlt in Hcmp. lia. }
  unfold uint8View.
  rewrite (toIndex_integer _ _ Hoff) by lia. exc_simpl.
  rewrite (toIndex_integer _ _ Hbpf) by lia. exc_simpl.
  destruct (Nat.ltb_spec (length pixelBuffer)
              (Z.to_nat (frameIndex * frameBytes) + Z.to_nat frameBytes)); [lia|].
  reflexivity.
Qed.

Lemma Qfloor_div_integers (a b : Z) : 0 < b -> Qfloor (inject_Z a / inject_Z b) = a / b.
Proof.
  intros Hb.
  assert (inject_Z a / inject_Z b == a # Z.to_pos b)%Q as ->.
  { rewrite (Qmake_Qdiv a (Z.to_pos b)). by rewrite Z2Pos.id. }
  unfold Qfloor. by rewrite Z2Pos.id.
Qed.

Lemma bytesPerFrameOf_pos (rows cols bitsAllocated : Z) :
  0 < rows -> 0 < cols -> 0 < bitsAllocated ->
  (0 < bytesPerFrameOf rows cols bitsAllocated)%Q.
Proof.
  intros Hr Hc Hb. unfold bytesPerFrameOf.
  assert (0 < inject_Z rows)%Q by (change 0%Q with (inject_Z 0); by rewrite <- Zlt_Qlt).
  assert (0 < inject_Z cols)%Q by (change 0%Q with (inject_Z 0); by rewrite <- Zlt_Qlt).
  assert (0 < inject_Z bitsAllocated)%Q
    by (change 0%Q with (inject_Z 0); by rewrite <- Zlt_Qlt).
  apply Qmult_lt_0_compat; [by apply Qmult_lt_0_compat|].
  apply Qlt_shift_div_l; [reflexivity | lra].
Qed.

Lemma detectDicomFrameCount_pos (dataset : Dataset) :
  0 < orDefault (Rows dataset) 512 -> 0 < orDefault (Columns dataset) 512 ->
  0 < orDefault (BitsAllocated dataset) 16 ->
  1 <= detectDicomFrameCount dataset.
Proof.
  intros Hr Hc Hb.
  pose proof (bytesPerFrameOf_pos _ _ _ Hr Hc Hb) as Hbpf_pos.
  unfold detectDicomFrameCount.
  set (bytesPerFrame := bytesPerFrameOf _ _ _) in *.
  assert (1 <= match PixelDataOf dataset with
               | Some pd =>
                   if Qgtb (inject_Z (pixelDataSize pd)) bytesPerFrame
                   then Qfloor (inject_Z (pixelDataSize pd) / bytesPerFrame)
                   else 1
               | None => 1
               end) as Hest.
  { destruct (PixelDataOf dataset) as [pd|]; [|lia].
    destruct (Qgtb _ _) eqn:Hgt; [|lia].
    apply Qgtb_lt in Hgt. change 1 with (Qfloor 1). apply Qfloor_resp_le.
    apply Qle_shift_div_l; [exact Hbpf_pos | lra]. }
  destruct (NumberOfFrames dataset) as [n|]; [|exact Hest].
  destruct (Z.ltb_spec 1 n); [lia | exact Hest].
Qed.



(** X20: for 8-bit data the two extraction paths agree on the first frame:
    [extractDicomImage] returns what the per-frame extraction returns for
    frame 0, and the placeholder image where that extraction fails in the
    encoder.  (For 16-bit data they window differently.) *)
Theorem eight_bit_paths_agree (E : Collaborators) (dataset : Dataset) :
  orDefault (BitsAllocated dataset) 16 = 8 ->
  0 < orDefault (Rows dataset) 512 -> 0 < orDefault (Columns dataset) 512 ->
  extractDicomImage E dataset
  = catch (extractDicomFrame E dataset 0) (fun _ => placeholderImage E).
Proof.
  intros Hbits Hr Hc.
  pose proof (detectDicomFrameCount_pos dataset Hr Hc ltac:(lia)) as Hcount.
  unfold extractDicomFrame.
  destruct (Z.leb_spec (detectDicomFrameCount dataset) 0); [lia|].
  set (rows := orDefault (Rows dataset) 512) in *.
  set (cols := orDefault (Columns dataset) 512) in *.
  rewrite Hbits.
  destruct (framePixelData dataset rows cols 8 0) as [[bytes|]|msg] eqn:Hframe;
    [|reflexivity|reflexivity].
  unfold framePixelData in Hframe.
  destruct (PixelDataOf dataset) as [pixelData|] eqn:Hpd; [|discriminate Hframe].
  rewrite <- Hpd in *.
  destruct (pixelBufferOf (PixelDataOf dataset)) as [pixelBuffer|] eqn:Hbuf;
    [|discriminate Hframe].
  cbn [mbind Exc_bind] in Hframe.
  pose proof (bytesPerFrame_integer rows cols 8 (Z.divide_refl 8)) as Hbpf.
  change (8 / 8) with 1 in Hbpf. rewrite Z.mul_1_r in Hbpf.
  set (bytesPerFrame := bytesPerFrameOf rows cols 8) in *.
  assert (inject_Z 0 * bytesPerFrame == inject_Z 0)%Q as Hoff by ring.
  destruct (Qltb _ _) eqn:Hcmp; [discriminate Hframe|].
  apply Qltb_false in Hcmp.
  rewrite Hoff, Hbpf, <- inject_Z_plus, <- Zle_Qle in Hcmp.
  unfold uint8View in Hframe.
  rewrite (toIndex_integer _ 0 Hoff) in Hframe by lia. cbn [mbind Exc_bind] in Hframe.
  rewrite (toIndex_integer _ _ Hbpf) in Hframe by lia. cbn [mbind Exc_bind] in Hframe.
  destruct (Nat.ltb_spec (length pixelBuffer) (Z.to_nat 0 + Z.to_nat (rows * cols)));
    [lia|].
  cbn [mret Exc_ret mbind Exc_bind] in Hframe. injection Hframe as <-.
  unfold extractDicomImage, processDicomPixelDataHelper.
  fold rows cols. rewrite Hbits, Hbuf. cbn [Z.leb Z.eqb Z.compare Pos.compare Pos.compare_cont Pos.eqb].
  exc_simpl.
  assert (ensureSize (rows * cols) pixelBuffer
          = ensureSize (rows * cols) (take (Z.to_nat (rows * cols)) (drop (Z.to_nat 0) pixelBuffer)))
    as ->; [|by destruct (sharpGrayPng E _ cols rows)].
  change (Z.to_nat 0) with 0%nat. rewrite drop_0.
  unfold ensureSize. rewrite length_take.
  destruct (Z.ltb_spec (rows * cols) (Z.of_nat (length pixelBuffer))) as [Hlt|Hge].
  - destruct (Z.ltb_spec (rows * cols) 0); [lia|].
    destruct (Z.ltb_spec (rows * cols)
                (Z.of_nat (Z.to_nat (rows * cols) `min` length pixelBuffer))); [lia|].
    replace (Z.to_nat (rows * cols - _)) with 0%nat by lia.
    by rewrite app_nil_r.
  - destruct (Z.ltb_spec (rows * cols)
                (Z.of_nat (Z.to_nat (rows * cols) `min` length pixelBuffer))); [lia|].
    rewrite take_ge by lia. do 2 f_equal. lia.
Qed.

Lemma eight_bit_paths_agree_witness :
  let dataset := {| Rows := Some 1; Columns := Some 2; BitsAllocated := Some 8;
                    BitsStored := None; PixelRepresentation := None; Modality := None;
                    WindowCenter := None; WindowWidth := None; NumberOfFrames := None;
                    PixelDataOf := Some (PdArrayBuffer [1; 2; 3; 4; 5; 6; 7]) |} in
  extractDicomImage quietCollaborators dataset = [1; 2].
Proof.
  intros dataset.
  rewrite (eight_bit_paths_agree quietCollaborators dataset eq_refl eq_refl eq_refl).
  reflexivity.
Defined.

(** ** Batches of frames from a file *)

Lemma length_omap_le {A B} (f : A -> option B) (l : list A) :
  (length (omap f l) <= length l)%nat /\
  (length (omap f l) = length l <-> Forall (fun x => is_Some (f x)) l).
Proof.
  induction l as [|x l [IHle IHeq]]; cbn [omap list_omap length].
  - split; [lia|]. split; [constructor | reflexivity].
  - fold (omap f l). destruct (f x) as [y|] eqn:Hx; cbn [length].
    + split; [lia|]. rewrite Forall_cons. split.
      * intros Hlen. split; [by rewrite Hx | apply IHeq; lia].
      * intros [_ Hall]. f_equal. by apply IHeq.
    + split; [lia|]. rewrite Forall_cons. split; [lia|].
      intros [Hsome _]. rewrite Hx in Hsome. by destruct Hsome.
Qed.

Lemma extractFrameBatch_dicom (E : Collaborators) (file : FrameFile)
    (startFrame endFrame : nat) :
  FrameExtractor.isDicomFile file = true ->
  exists frames,
    FrameExtractor.extractFrameBatch E file startFrame endFrame = Ok frames /\
    length frames = (S endFrame - startFrame)%nat.
Proof.
  intros Hdicom. unfold FrameExtractor.extractFrameBatch. rewrite Hdicom.
  eexists. split; [reflexivity|]. by rewrite length_fmap, length_seq.
Qed.

(** X21: [extractFrameBatch] on a DICOM file never throws and returns one
    buffer for every frame index from [startFrame] to [endFrame].  On a video
    it returns the frame files that could be read, in their order: never more
    than the [endFrame - startFrame + 1] requested, and exactly that many only
    when every file could be read. *)
Theorem extractFrameBatch_lengths (E : Collaborators) (file : FrameFile)
    (startFrame endFrame : nat) :
  (FrameExtractor.isDicomFile file = true ->
   exists frames,
     FrameExtractor.extractFrameBatch E file startFrame endFrame = Ok frames /\
     length frames = (S endFrame - startFrame)%nat) /\
  (FrameExtractor.isDicomFile file = false ->
   forall frames,
     FrameExtractor.extractFrameBatch E file startFrame endFrame = Ok frames ->
     ffmpegRun file startFrame endFrame = Ok tt /\
     (length frames <= S endFrame - startFrame)%nat /\
     (length frames = (S endFrame - startFrame)%nat <->
      forall i, (1 <= i <= S endFrame - startFrame)%nat ->
        isOk (readFrameFile file startFrame endFrame i) = true)).
Proof.
  split; [apply extractFrameBatch_dicom|].
  unfold FrameExtractor.extractFrameBatch. intros Hdicom; rewrite Hdicom.
  - intros frames Hrun.
    destruct (ffmpegRun file startFrame endFrame) as [[]|]; [|discriminate Hrun].
    cbn [mbind Exc_bind mret Exc_ret] in Hrun. injection Hrun as <-.
    split; [reflexivity|].
    destruct (length_omap_le
                (fun i => match readFrameFile file startFrame endFrame i with
                          | Ok buffer => Some buffer
                          | Throw _ => None
                          end) (seq 1 (S endFrame - startFrame))) as [Hle Heq].
    rewrite length_seq in Hle, Heq. split; [exact Hle|].
    rewrite Heq, Forall_forall. split.
    + intros Hall i Hi. specialize (Hall i).
      destruct (readFrameFile file startFrame endFrame i); [reflexivity|].
      destruct Hall as [? Hsome]; [apply elem_of_seq; lia | discriminate Hsome].
    + intros Hall i Hi. apply elem_of_seq in Hi. specialize (Hall i ltac:(lia)).
      by destruct (readFrameFile file startFrame endFrame i).
Qed.

Lemma extractFrameBatch_lengths_witness :
  FrameExtractor.extractFrameBatch quietCollaborators dicomFile 0 1 = Ok [[0; 255]; [0; 255]] /\
  FrameExtractor.extractFrameBatch quietCollaborators videoFile 0 2 = Ok [[1; 0; 0]; [3; 0; 0]] /\
  (length [[1; 0; 0]; [3; 0; 0]] <= 3)%nat.
Proof.
  destruct (proj1 (extractFrameBatch_lengths quietCollaborators dicomFile 0 1) eq_refl)
    as (frames & Hrun & _).
  split; [reflexivity|]. split; [reflexivity|].
  exact (proj1 (proj2 (proj2 (extractFrameBatch_lengths quietCollaborators videoFile 0 2)
                         eq_refl [[1; 0; 0]; [3; 0; 0]] eq_refl))).
Defined.

Lemma createFrameBatches_ordered (totalFrames size : nat) (batch : Batch) :
  (1 <= size)%nat -> batch ∈ createFrameBatches totalFrames size ->
  (batchStart batch <= batchEnd batch)%nat.
Proof.
  intros Hsize Hin. apply list_elem_of_lookup in Hin as [k Hk].
  unfold createFrameBatches in Hk.
  rewrite createFrameBatchesFrom_lookup in Hk by lia.
  destruct (Nat.ltb_spec (0 + k * size) totalFrames); [|discriminate Hk].
  injection Hk as <-. cbn [batchStart batchEnd]. lia.
Qed.

(** X22: a job on a DICOM file loses no frame: for every announced number
    of frames and every valid output size, the batches made by
    [createFrameBatches] are all extracted in full, the run succeeds, and the
    list handed to output assembly has exactly the frame numbers
    [0 .. totalFrames - 1] in ascending order. *)
Theorem dicom_job_has_every_frame (E : Collaborators) (file : FrameFile)
    (maskData : MaskData Q) (size : Z * Z) (settings : OutputSettings) (totalFrames : nat) :
  FrameExtractor.isDicomFile file = true ->
  0 < fst size -> 0 < snd size ->
  exists frames,
    processBatchesInParallel (readingFrom E file)
      (createFrameBatches totalFrames (batchSizeOf settings)) maskData size settings
    = Ok frames /\
    pfFrameNumber <$> frames = seq 0 totalFrames.
Proof.
  intros Hdicom Hw Hh.
  set (batches := createFrameBatches totalFrames (batchSizeOf settings)).
  destruct (all_batches_frame_numbers (readingFrom E file) maskData size settings Hw Hh batches)
    as (allBatchResults & Hrun & Hnumbers).
  { apply Forall_forall. intros batch Hin.
    destruct (extractFrameBatch_dicom E file (batchStart batch) (batchEnd batch) Hdicom)
      as (frames & Hx & Hlen).
    exists frames. split; [exact Hx|]. rewrite Hlen.
    pose proof (createFrameBatches_ordered _ _ _ (batchSizeOf_pos settings) Hin). lia. }
  exists (sortByFrameNumber (toProcessedFrame <$> concat allBatchResults)). split.
  - unfold processBatchesInParallel. fold batches. rewrite Hrun. reflexivity.
  - apply sorted_arrival_numbers.
    rewrite <- list_fmap_compose.
    rewrite (list_fmap_ext _ resultFrameNumber)
      by (intros; apply toProcessedFrame_number).
    rewrite Hnumbers. subst batches. unfold createFrameBatches.
    rewrite createFrameBatchesFrom_covers by (try apply batchSizeOf_pos; lia).
    by rewrite Nat.sub_0_r.
Qed.

Lemma dicom_job_has_every_frame_witness :
  let maskData := vectorMaskData rectangle (CoordArray [0%Q; 0%Q; 1%Q; 1%Q]) 100%Q in
  exists frames,
    processBatchesInParallel (readingFrom quietCollaborators dicomFile)
      (createFrameBatches 2 (batchSizeOf exampleSettings)) maskData (2, 1) exampleSettings
    = Ok frames /\
    pfFrameNumber <$> frames = [0; 1]%nat.
Proof.
  intros maskData.
  exact (dicom_job_has_every_frame quietCollaborators dicomFile maskData (2, 1)
           exampleSettings 2 eq_refl ltac:(reflexivity) ltac:(reflexivity)).
Defined.

(** ** The archive and its manifest *)

Lemma parseDecimal_decimal (n : nat) : parseDecimal (decimal n) = Some n.
Proof.
  unfold parseDecimal, decimal. rewrite NilEmpty.usu. cbn. f_equal.
  apply DecimalNat.Unsigned.of_to.
Qed.

Lemma parseDecimal_zero (s : string) : parseDecimal (String "0" s) = parseDecimal s.
Proof.
  unfold parseDecimal. cbn [NilEmpty.uint_of_string].
  destruct (NilEmpty.uint_of_string s) as [d|]; reflexivity.
Qed.

Lemma parseDecimal_padStart (targetLength : nat) (s : string) :
  parseDecimal (padStart targetLength "0" s) = parseDecimal s.
Proof.
  unfold padStart. induction (targetLength - String.length s)%nat as [|k IH].
  - reflexivity.
  - cbn [replicate string_of_list_ascii]. rewrite append_cons, parseDecimal_zero. exact IH.
Qed.

Lemma append_inv_head (a b c : string) : a +:+ b = a +:+ c -> b = c.
Proof.
  induction a as [|x a IH]; rewrite ?append_nil, ?append_cons; [done|].
  intros [= H]. by apply IH.
Qed.

Lemma list_ascii_of_append (a b : string) :
  list_ascii_of_string (a +:+ b) = list_ascii_of_string a ++ list_ascii_of_string b.
Proof.
  induction a as [|x a IH]; rewrite ?append_nil, ?append_cons; [reflexivity|].
  cbn [list_ascii_of_string]. by rewrite IH.
Qed.

Lemma append_inv_tail (a b c : string) : a +:+ c = b +:+ c -> a = b.
Proof.
  intros Heq. apply (f_equal list_ascii_of_string) in Heq.
  rewrite !list_ascii_of_append in Heq. apply app_inv_tail in Heq.
  apply (f_equal string_of_list_ascii) in Heq.
  by rewrite !string_of_list_ascii_of_string in Heq.
Qed.

(** X23: the file name of a frame carries its number: reading the digits
    between [frame_] and the extension back gives the frame number, so two
    frames with different numbers never get the same name in the archive. *)
Theorem frameFileName_injective (format : string) (n m : nat) :
  parseDecimal (padStart 6 "0" (decimal n)) = Some n /\
  (frameFileName format n = frameFileName format m -> n = m).
Proof.
  assert (forall k, parseDecimal (padStart 6 "0" (decimal k)) = Some k) as Hparse.
  { intros k. by rewrite parseDecimal_padStart, parseDecimal_decimal. }
  split; [apply Hparse|].
  unfold frameFileName. intros Heq.
  apply append_inv_head, append_inv_tail in Heq.
  apply (f_equal parseDecimal) in Heq. rewrite !Hparse in Heq. by injection Heq.
Qed.

Lemma frameFileName_injective_witness :
  frameFileName "png" 42 = "frame_000042.png"%string /\
  parseDecimal "000042" = Some 42%nat.
Proof.
  split; [reflexivity|].
  exact (proj1 (frameFileName_injective "png" 42 42)).
Defined.

(** X24: the archive and its manifest agree.  The manifest has one row per
    processed frame, in order, failed frames included; a row says [success]
    exactly when the frame has a non-empty buffer, which is exactly when the
    archive holds the frame under [frames/] and the file name of the row; the
    row of a failed frame says [failed] with a file size of 0, and the
    archive has no entry for it. *)
Theorem archive_matches_manifest (processedFrames : list ProcessedFrame)
    (columns : ManifestColumns) (format : string) (includeMetadata : bool) :
  let archive := createOutputZip processedFrames columns format includeMetadata in
  let rows := imap (csvRow format columns) processedFrames in
  length rows = length processedFrames /\
  (forall k frame,
     processedFrames !! k = Some frame ->
     exists filename status,
       rows !! k = Some [filename; decimal (pfFrameNumber frame);
                         originalWidthText columns; originalHeightText columns;
                         outputWidthText columns; outputHeightText columns;
                         timestampAt columns k; decimal (length (pfBuffer frame)); status] /\
       filename = frameFileName format (pfFrameNumber frame) /\
       (status = "success"%string \/ status = "failed"%string) /\
       (status = "success"%string <-> pfBuffer frame <> []) /\
       (status = "success"%string <->
        FrameEntry ("frames/" +:+ filename) (pfBuffer frame) ∈ archive)) /\
  (forall name data, FrameEntry name data ∈ archive ->
     data <> [] /\
     exists frame, frame ∈ processedFrames /\ data = pfBuffer frame /\
       name = "frames/" +:+ frameFileName format (pfFrameNumber frame)).
Proof.
  intros archive rows.
  assert (forall name data, FrameEntry name data ∈ archive <->
            exists frame, frame ∈ processedFrames /\ (0 < length (pfBuffer frame))%nat /\
              name = "frames/" +:+ frameFileName format (pfFrameNumber frame) /\
              data = pfBuffer frame) as Harchive.
  { intros name data. subst archive. unfold createOutputZip. cbv zeta.
    rewrite elem_of_app, list_elem_of_fmap. split.
    - intros [(frame & [= -> ->] & Hin) | Hcsv].
      + apply list_elem_of_filter in Hin as [Hlen Hin]. by exists frame.
      + destruct includeMetadata; [|by apply elem_of_nil in Hcsv].
        apply list_elem_of_singleton in Hcsv. discriminate Hcsv.
    - intros (frame & Hin & Hlen & -> & ->). left. exists frame.
      split; [reflexivity|]. by apply list_elem_of_filter. }
  split; [apply length_imap|]. split.
  - intros k frame Hk. eexists _, _.
    split; [subst rows; rewrite list_lookup_imap, Hk; reflexivity|].
    split; [reflexivity|].
    destruct (pfBuffer frame) as [|b buffer] eqn:Hbuf; cbn [length Nat.ltb Nat.leb].
    + split; [by right|]. split; [split; [discriminate | done]|].
      split; [discriminate|].
      intros Hin. apply Harchive in Hin as (frame' & _ & Hlen & _ & Hdata).
      rewrite <- Hdata in Hlen. cbn in Hlen. lia.
    + split; [by left|]. split; [done|]. split; [|done].
      intros _. apply Harchive. exists frame.
      split; [by eapply list_elem_of_lookup_2|].
      rewrite Hbuf. cbn [length]. split; [lia|]. by split.
  - intros name data Hin. apply Harchive in Hin as (frame & Hin & Hlen & -> & ->).
    split; [by destruct (pfBuffer frame); [cbn in Hlen; lia|]|].
    by exists frame.
Qed.

Lemma archive_matches_manifest_witness :
  let frames := [{| pfFrameNumber := 0; pfBuffer := [7; 7] |};
                 {| pfFrameNumber := 1; pfBuffer := [] |}] in
  createOutputZip frames exampleColumns "png" false
    = [FrameEntry "frames/frame_000000.png" [7; 7]] /\
  imap (csvRow "png" exampleColumns) frames !! 1%nat
    = Some ["frame_000001.png"; "1"; "640"; "480"; "224"; "224";
            "2025-01-01T00:00:00.000Z"; "0"; "failed"]%string.
Proof.
  intros frames. split; [reflexivity|].
  destruct (proj1 (proj2 (archive_matches_manifest frames exampleColumns "png" false))
              1%nat {| pfFrameNumber := 1; pfBuffer := [] |} eq_refl)
    as (filename & status & Hrow & _).
  reflexivity.
Defined.

Lemma hasChar_append (c : ascii) (a b : string) :
  hasChar c (a +:+ b) = hasChar c a || hasChar c b.
Proof.
  induction a as [|x a IH]; rewrite ?append_nil, ?append_cons; [reflexivity|].
  cbn [hasChar]. by rewrite IH, orb_assoc.
Qed.

Lemma hasChar_digits (c : ascii) (d : Decimal.uint) :
  hasChar c "0123456789" = false -> hasChar c (NilEmpty.string_of_uint d) = false.
Proof.
  intros Hc. cbn [hasChar] in Hc. repeat (apply orb_false_elim in Hc as [? Hc]).
  induction d; cbn [NilEmpty.string_of_uint hasChar]; [reflexivity|..];
    rewrite IHd, orb_false_r; assumption.
Qed.

Lemma hasChar_zeros (c : ascii) (k : nat) :
  hasChar c "0" = false -> hasChar c (string_of_list_ascii (replicate k "0"%char)) = false.
Proof.
  intros Hc. induction k as [|k IH]; [reflexivity|].
  cbn [replicate string_of_list_ascii hasChar] in *. by rewrite IH, orb_false_r in *.
Qed.

Lemma hasChar_concat (c : ascii) (sep : string) (parts : list string) :
  hasChar c sep = false -> Forall (fun part => hasChar c part = false) parts ->
  hasChar c (String.concat sep parts) = false.
Proof.
  intros Hsep Hparts. induction Hparts as [|part parts Hpart Hparts IH]; [reflexivity|].
  cbn [String.concat]. destruct parts as [|part' parts]; [exact Hpart|].
  rewrite !hasChar_append, Hpart, Hsep, IH. reflexivity.
Qed.

(** Splitting what was joined gives the parts back, when no part holds the
    separator. *)
Lemma splitOn_concat (c : ascii) (parts : list string) :
  parts <> [] -> Forall (fun part => hasChar c part = false) parts ->
  splitOn c (String.concat (String c EmptyString) parts) = parts.
Proof.
  intros Hne Hparts. induction Hparts as [|part parts Hpart Hparts IH]; [contradiction|].
  cbn [String.concat]. destruct parts as [|part' parts].
  - by apply splitOn_no_char.
  - rewrite append_cons, append_nil, splitOn_app by assumption.
    by rewrite IH.
Qed.

(** The fields of a row hold no character that the formats and columns do
    not bring in. *)
Lemma csvRow_clean (c : ascii) (format : string) (columns : ManifestColumns)
    (index : nat) (frame : ProcessedFrame) :
  hasChar c "frame_.0123456789successfailed" = false ->
  hasChar c format = false ->
  hasChar c (originalWidthText columns) = false ->
  hasChar c (originalHeightText columns) = false ->
  hasChar c (outputWidthText columns) = false ->
  hasChar c (outputHeightText columns) = false ->
  hasChar c (timestampAt columns index) = false ->
  Forall (fun field => hasChar c field = false) (csvRow format columns index frame).
Proof.
  intros Hc Hformat Hw Hh Hw' Hh' Ht.
  assert (hasChar c "0123456789" = false /\ hasChar c "frame_" = false /\
          hasChar c "." = false /\ hasChar c "success" = false /\
          hasChar c "failed" = false) as (Hdig & Hframe & Hdot & Hs & Hf).
  { cbn [hasChar] in Hc |- *. repeat (apply orb_false_elim in Hc as [? Hc]).
    repeat split; repeat (apply orb_false_intro; [assumption|]); reflexivity. }
  assert (forall n, hasChar c (decimal n) = false) as Hdec
    by (intros n; by apply hasChar_digits).
  unfold csvRow. cbv zeta. repeat constructor; try assumption; try apply Hdec.
  - unfold frameFileName, padStart.
    rewrite !hasChar_append, Hframe, Hdec, Hdot, Hformat, hasChar_zeros; [reflexivity|].
    cbn [hasChar] in Hdig |- *. apply orb_false_elim in Hdig as [-> _]. reflexivity.
  - by destruct (0 <? length (pfBuffer frame))%nat.
Qed.

(** X25: the manifest can be read back.  When the format, the fixed columns
    and the timestamps contain neither a comma nor a line feed, splitting the
    text of [generateMetadataCSV] at line feeds and each line at commas gives
    the header and, for every processed frame in order, the nine fields of its
    row. *)
Theorem manifest_reads_back (processedFrames : list ProcessedFrame)
    (columns : ManifestColumns) (format : string) :
  (forall c, c = ","%char \/ c = "010"%char ->
     hasChar c format = false /\
     hasChar c (originalWidthText columns) = false /\
     hasChar c (originalHeightText columns) = false /\
     hasChar c (outputWidthText columns) = false /\
     hasChar c (outputHeightText columns) = false /\
     forall index, hasChar c (timestampAt columns index) = false) ->
  splitOn "," <$> splitOn "010" (generateMetadataCSV processedFrames columns format)
  = csvHeaders :: imap (csvRow format columns) processedFrames.
Proof.
  intros Hclean.
  assert (forall c, c = ","%char \/ c = "010"%char ->
            forall index frame,
              Forall (fun field => hasChar c field = false)
                     (csvRow format columns index frame)) as Hrows.
  { intros c Hc index frame.
    destruct (Hclean c Hc) as (? & ? & ? & ? & ? & Ht).
    apply csvRow_clean; try done. by destruct Hc as [-> | ->]. }
  unfold generateMetadataCSV, newline.
  rewrite splitOn_concat; [|discriminate|].
  - cbn [fmap list_fmap]. f_equal.
    rewrite fmap_imap. apply imap_ext. intros index frame _. unfold compose.
    apply splitOn_concat; [discriminate|]. apply Hrows. by left.
  - constructor; [reflexivity|].
    apply Forall_forall. intros line Hline.
    apply list_elem_of_lookup in Hline as [index Hline].
    rewrite list_lookup_imap in Hline.
    destruct (processedFrames !! index) as [frame|]; [|discriminate Hline].
    injection Hline as <-.
    apply (hasChar_concat "010" "," (csvRow format columns index frame)); [reflexivity|].
    apply Hrows. by right.
Qed.

Lemma manifest_reads_back_witness :
  let frames := [{| pfFrameNumber := 0; pfBuffer := [7; 7] |};
                 {| pfFrameNumber := 1; pfBuffer := [] |}] in
  splitOn "," <$> splitOn "010" (generateMetadataCSV frames exampleColumns "png")
  = [csvHeaders;
     ["frame_000000.png"; "0"; "640"; "480"; "224"; "224";
      "2025-01-01T00:00:00.000Z"; "2"; "success"]%string;
     ["frame_000001.png"; "1"; "640"; "480"; "224"; "224";
      "2025-01-01T00:00:00.000Z"; "0"; "failed"]%string].
Proof.
  intros frames.
  rewrite (manifest_reads_back frames exampleColumns "png"); [reflexivity|].
  intros c [-> | ->]; repeat split; reflexivity.
Defined.

(** ** The job store *)

(** X26: [updateVideoJob] answers [undefined] for an unknown job and
    leaves the store as it is (no job is created).  For a stored job it
    stores and returns the merged record: a field named in the update takes
    the new value, every other field of the job keeps its value, the other
    jobs, the batches and the progress records are untouched; and two updates
    in a row leave the store as one update with the merged fields does (the
    later update winning). *)
Theorem updateVideoJob_merges (id : string) (updates : JsObject) (st : MemStorage) :
  (videoJobs st !! id = None -> Storage.updateVideoJob id updates st = (None, st)) /\
  (forall job, videoJobs st !! id = Some job ->
     let st' := snd (Storage.updateVideoJob id updates st) in
     fst (Storage.updateVideoJob id updates st) = Some (spread job updates) /\
     Storage.getVideoJob id st' = Some (spread job updates) /\
     (forall field value, updates !! field = Some value ->
        spread job updates !! field = Some value) /\
     (forall field, updates !! field = None -> spread job updates !! field = job !! field) /\
     (forall other, other <> id ->
        Storage.getVideoJob other st' = Storage.getVideoJob other st) /\
     frameBatches st' = frameBatches st /\
     processingProgress st' = processingProgress st /\
     (forall later,
        snd (Storage.updateVideoJob id later st')
        = snd (Storage.updateVideoJob id (spread updates later) st))).
Proof.
  unfold Storage.updateVideoJob, Storage.getVideoJob, spread. split.
  - by intros ->.
  - intros job ->. cbn [fst snd videoJobs frameBatches processingProgress].
    split; [reflexivity|]. split; [by rewrite lookup_insert_eq|].
    split; [intros field value Hf; by apply lookup_union_Some_l|].
    split; [intros field Hf; by rewrite lookup_union_r|].
    split; [intros other Hne; by rewrite lookup_insert_ne|].
    split; [reflexivity|]. split; [reflexivity|].
    intros later. rewrite lookup_insert_eq. cbn [snd].
    by rewrite insert_insert_eq, (assoc_L (∪)).
Qed.

Lemma updateVideoJob_merges_witness :
  let job : JsObject := list_to_map [("status", VString "uploaded"); ("width", VNumber 640)]%string in
  let st := {| videoJobs := {[ "job-1"%string := job ]}; frameBatches := [];
               processingProgress := ∅ |} in
  let st' := snd (Storage.updateVideoJob "job-1" {[ "status"%string := VString "failed" ]} st) in
  (Storage.getVideoJob "job-1" st' ≫= (.!! "status"%string)) = Some (VString "failed") /\
  (Storage.getVideoJob "job-1" st' ≫= (.!! "width"%string)) = Some (VNumber 640) /\
  Storage.updateVideoJob "job-2" {[ "status"%string := VString "failed" ]} st = (None, st).
Proof.
  intros job st st'.
  destruct (proj2 (updateVideoJob_merges "job-1" {[ "status"%string := VString "failed" ]} st)
              job eq_refl) as (_ & Hget & _).
  split; [|split].
  - fold st' in Hget. rewrite Hget. reflexivity.
  - fold st' in Hget. rewrite Hget. reflexivity.
  - exact (proj1 (updateVideoJob_merges "job-2" {[ "status"%string := VString "failed" ]} st)
             eq_refl).
Defined.

Lemma mapGet_app {V} (key : string) (m1 m2 : list (string * V)) :
  mapGet key (m1 ++ m2) = match mapGet key m1 with
                          | Some v => Some v
                          | None => mapGet key m2
                          end.
Proof.
  induction m1 as [|[k v] m1 IH]; [reflexivity|]. cbn [app mapGet].
  by destruct (String.eqb k key).
Qed.

Lemma mapSet_fresh {V} (key : string) (value : V) (m : list (string * V)) :
  mapGet key m = None -> mapSet key value m = m ++ [(key, value)].
Proof.
  induction m as [|[k v] m IH]; [reflexivity|]. cbn [mapGet mapSet app].
  destruct (String.eqb k key); [discriminate|]. intros Hm. by rewrite IH.
Qed.

(** The record [createFrameBatch] stores for an insert. *)
Lemma createFrameBatch_appends (id : string) (insertBatch : JsObject) (st : MemStorage) :
  mapGet id (frameBatches st) = None ->
  frameBatches (snd (Storage.createFrameBatch id insertBatch st))
  = frameBatches st ++ [(id, fst (Storage.createFrameBatch id insertBatch st))].
Proof. intros Hfresh. cbn. by apply mapSet_fresh. Qed.

Lemma createFrameBatches_append (inserts : list (string * JsObject)) (st : MemStorage) :
  NoDup (fst <$> inserts) ->
  (forall id, id ∈ fst <$> inserts -> mapGet id (frameBatches st) = None) ->
  frameBatches (foldl (fun st insert =>
                         snd (Storage.createFrameBatch (fst insert) (snd insert) st))
                      st inserts)
  = frameBatches st
    ++ ((fun insert => (fst insert,
                        fst (Storage.createFrameBatch (fst insert) (snd insert) st)))
          <$> inserts).
Proof.
  revert st. induction inserts as [|[id insertBatch] inserts IH]; intros st Hnodup Hfresh.
  - cbn. by rewrite app_nil_r.
  - cbn [foldl fmap list_fmap fst snd] in *. apply NoDup_cons in Hnodup as [Hid Hnodup].
    rewrite IH; [|exact Hnodup|].
    + rewrite createFrameBatch_appends by (apply Hfresh; by left).
      rewrite <- app_assoc. reflexivity.
    + intros id' Hin. rewrite createFrameBatch_appends by (apply Hfresh; by left).
      rewrite mapGet_app, Hfresh by by right. cbn [mapGet].
      destruct (String.eqb_spec id id') as [->|]; [contradiction | reflexivity].
Qed.

Lemma filter_fmap_comm {A B} (f : A -> B) (P : B -> Prop) `{forall y, Decision (P y)}
    (l : list A) :
  filter P (f <$> l) = f <$> filter (fun x => P (f x)) l.
Proof.
  induction l as [|x l IH]; [reflexivity|].
  cbn [fmap list_fmap]. rewrite !filter_cons.
  destruct (decide (P (f x))); cbn [fmap list_fmap]; by rewrite IH.
Qed.

(** X27: the batch records created under new, distinct identifiers are
    listed by [getFrameBatches] after the records that were there, in the
    order of their creation, each under the job it names and under no other
    job; a record created without a status is [pending], its [processedAt] is
    [null], and its job, batch number and frame range are those of the
    insert. *)
Theorem created_batches_are_listed (inserts : list (string * JsObject)) (st : MemStorage)
    (jobId : string) :
  NoDup (fst <$> inserts) ->
  (forall id, id ∈ fst <$> inserts -> mapGet id (frameBatches st) = None) ->
  let st' := foldl (fun st insert =>
                      snd (Storage.createFrameBatch (fst insert) (snd insert) st))
                   st inserts in
  let stored := fun insert : string * JsObject =>
    fst (Storage.createFrameBatch (fst insert) (snd insert) st) in
  Storage.getFrameBatches jobId st'
  = Storage.getFrameBatches jobId st
    ++ (stored <$> filter (fun insert => isString (snd insert !! "jobId"%string) jobId = true)
                          inserts) /\
  (forall insert, insert ∈ inserts ->
     stored insert !! "id"%string = Some (VString (fst insert)) /\
     stored insert !! "processedAt"%string = Some VNull /\
     (snd insert !! "status"%string = None ->
      stored insert !! "status"%string = Some (VString "pending")) /\
     (forall field,
        field ∉ ["id"; "status"; "workerId"; "processedAt"]%string ->
        stored insert !! field = snd insert !! field)).
Proof.
  intros Hnodup Hfresh st' stored. split.
  - unfold Storage.getFrameBatches. subst st'.
    rewrite createFrameBatches_append by assumption.
    rewrite fmap_app, filter_app. f_equal.
    rewrite <- list_fmap_compose.
    change (snd ∘ _) with stored.
    rewrite filter_fmap_comm. f_equal. apply list_filter_iff.
    intros insert. subst stored. cbn. unfold spread.
    rewrite lookup_union_r; [reflexivity|].
    by repeat (rewrite lookup_insert_ne by discriminate).
  - intros insert _. subst stored. cbn. unfold spread.
    split; [by apply lookup_union_Some_l|].
    split; [apply lookup_union_Some_l; by repeat (rewrite lookup_insert_ne by discriminate)|].
    split.
    + intros Hstatus. apply lookup_union_Some_l.
      rewrite lookup_insert_ne by discriminate. rewrite lookup_insert_eq.
      by rewrite Hstatus.
    + intros field Hfield. apply lookup_union_r.
      rewrite !not_elem_of_cons in Hfield. destruct Hfield as (? & ? & ? & ? & _).
      by repeat (rewrite lookup_insert_ne by done).
Qed.

Lemma created_batches_are_listed_witness :
  let st := {| videoJobs := ∅; frameBatches := []; processingProgress := ∅ |} in
  let inserts :=
    [("b1", VideoProcessor.batchRecord "job-1" 0 {| batchStart := 0; batchEnd := 11 |});
     ("b2", VideoProcessor.batchRecord "job-2" 0 {| batchStart := 0; batchEnd := 4 |});
     ("b3", VideoProcessor.batchRecord "job-1" 1 {| batchStart := 12; batchEnd := 20 |})]%string in
  let st' := foldl (fun st insert =>
                      snd (Storage.createFrameBatch (fst insert) (snd insert) st))
                   st inserts in
  (fun batch : JsObject => batch !! "id"%string) <$> Storage.getFrameBatches "job-1" st'
  = [Some (VString "b1"); Some (VString "b3")].
Proof.
  intros st inserts st'.
  destruct (created_batches_are_listed inserts st "job-1") as [Hlist _].
  - change (NoDup ["b1"; "b2"; "b3"]%string).
    repeat (apply NoDup_cons_2;
            [rewrite ?elem_of_cons, ?elem_of_nil; intuition discriminate|]).
    apply NoDup_nil_2.
  - intros id _. reflexivity.
  - fold st' in Hlist. rewrite Hlist. vm_compute. reflexivity.
Defined.

(** ** [processVideo] on the store *)

Section ProcessVideoFacts.
Variable E : Collaborators.
Variable file : FrameFile.
Variable env : RunEnvironment.
Variable jobId : string.
Variable maskData : MaskData Q.
Variable settings : OutputSettings.

Lemma updateProgress_jobs (progress : JsObject) (st : MemStorage) :
  videoJobs (VideoProcessor.updateProgress jobId progress st) = videoJobs st.
Proof. reflexivity. Qed.

Lemma updateProgress_batches (progress : JsObject) (st : MemStorage) :
  frameBatches (VideoProcessor.updateProgress jobId progress st) = frameBatches st.
Proof. reflexivity. Qed.

Lemma updateProgress_progress (progress : JsObject) (st : MemStorage) :
  Storage.getProcessingProgress jobId (VideoProcessor.updateProgress jobId progress st)
  = Some (spread (default (Storage.initialProgress jobId)
                          (Storage.getProcessingProgress jobId st)) progress).
Proof.
  unfold VideoProcessor.updateProgress, Storage.updateProcessingProgress,
    Storage.getProcessingProgress.
  cbn [processingProgress]. by rewrite lookup_insert_eq.
Qed.

Lemma updateVideoJob_jobs (updates : JsObject) (st : MemStorage) :
  videoJobs (snd (Storage.updateVideoJob jobId updates st))
  = match videoJobs st !! jobId with
    | Some job => <[jobId := spread job updates]> (videoJobs st)
    | None => videoJobs st
    end.
Proof. unfold Storage.updateVideoJob. by destruct (videoJobs st !! jobId). Qed.

Lemma updateVideoJob_batches (updates : JsObject) (st : MemStorage) :
  frameBatches (snd (Storage.updateVideoJob jobId updates st)) = frameBatches st.
Proof. unfold Storage.updateVideoJob. by destruct (videoJobs st !! jobId). Qed.

Lemma updateVideoJob_progress (updates : JsObject) (st : MemStorage) :
  Storage.getProcessingProgress jobId (snd (Storage.updateVideoJob jobId updates st))
  = Storage.getProcessingProgress jobId st.
Proof. unfold Storage.updateVideoJob. by destruct (videoJobs st !! jobId). Qed.

Lemma createBatchRecords_jobs (batches : list Batch) (st : MemStorage) :
  videoJobs (VideoProcessor.createBatchRecords env jobId batches st) = videoJobs st.
Proof.
  unfold VideoProcessor.createBatchRecords.
  generalize (imap (fun i batch => (batchId env i, VideoProcessor.batchRecord jobId i batch))
                   batches).
  intros inserts. revert st.
  induction inserts as [|insert inserts IH]; intros st; [reflexivity|].
  cbn [foldl]. by rewrite IH.
Qed.

Lemma createBatchRecords_progress (batches : list Batch) (st : MemStorage) :
  Storage.getProcessingProgress jobId (VideoProcessor.createBatchRecords env jobId batches st)
  = Storage.getProcessingProgress jobId st.
Proof.
  unfold VideoProcessor.createBatchRecords.
  generalize (imap (fun i batch => (batchId env i, VideoProcessor.batchRecord jobId i batch))
                   batches).
  intros inserts. revert st.
  induction inserts as [|insert inserts IH]; intros st; [reflexivity|].
  cbn [foldl]. by rewrite IH.
Qed.

Lemma batchEvents_jobs (events : list BatchEvent) (st : MemStorage) :
  videoJobs (VideoProcessor.batchEvents jobId events st) = videoJobs st.
Proof.
  unfold VideoProcessor.batchEvents. revert st.
  induction events as [|event events IH]; intros st; [reflexivity|].
  cbn [foldl]. rewrite IH. destruct event as [report|processedAt]; [reflexivity|].
  cbn [VideoProcessor.batchEvent]. unfold Storage.updateFrameBatch.
  by destruct (mapGet _ _).
Qed.

(** A batch never touches a record whose identifier is not the text of a
    plain object. *)
Lemma batchEvents_batches (events : list BatchEvent) (st : MemStorage) :
  mapGet VideoProcessor.batchRecordKey (frameBatches st) = None ->
  frameBatches (VideoProcessor.batchEvents jobId events st) = frameBatches st.
Proof.
  unfold VideoProcessor.batchEvents. revert st.
  induction events as [|event events IH]; intros st Hkey; [reflexivity|].
  cbn [foldl]. destruct event as [report|processedAt]; cbn [VideoProcessor.batchEvent].
  - rewrite IH; [reflexivity | exact Hkey].
  - unfold Storage.updateFrameBatch. rewrite Hkey. cbn [snd]. by apply IH.
Qed.

(** The events of the batches leave every field of the progress other than
    their four numbers as it is. *)
Lemma batchEvents_progress (events : list BatchEvent) (st : MemStorage)
    (progress : JsObject) :
  Storage.getProcessingProgress jobId st = Some progress ->
  exists progress',
    Storage.getProcessingProgress jobId (VideoProcessor.batchEvents jobId events st)
    = Some progress' /\
    forall field, field ∉ ["progress"; "currentFrame"; "fps"; "eta"]%string ->
      progress' !! field = progress !! field.
Proof.
  unfold VideoProcessor.batchEvents. revert st progress.
  induction events as [|event events IH]; intros st progress Hprogress.
  - exists progress. by split.
  - cbn [foldl]. destruct event as [report|processedAt]; cbn [VideoProcessor.batchEvent].
    + destruct (IH (VideoProcessor.updateProgress jobId
                      (VideoProcessor.volumeProgress report) st)
                   (spread progress (VideoProcessor.volumeProgress report)))
        as (progress' & Hget & Hsame).
      { rewrite updateProgress_progress, Hprogress. reflexivity. }
      exists progress'. split; [exact Hget|].
      intros field Hfield. rewrite Hsame by exact Hfield.
      unfold spread. apply lookup_union_r.
      rewrite !not_elem_of_cons in Hfield. destruct Hfield as (? & ? & ? & ? & _).
      unfold VideoProcessor.volumeProgress, object. cbn [list_to_map foldr curry fst snd].
      by repeat (rewrite lookup_insert_ne by done).
    + apply IH. unfold Storage.updateFrameBatch.
      by destruct (mapGet _ _).
Qed.

Lemma jobs_updated_twice (jobs jobs1 jobs2 : gmap string JsObject) (first second : JsObject) :
  jobs1 = match jobs !! jobId with
          | Some job => <[jobId := spread job first]> jobs
          | None => jobs
          end ->
  jobs2 = match jobs1 !! jobId with
          | Some job => <[jobId := spread job second]> jobs1
          | None => jobs1
          end ->
  (forall other, other <> jobId -> jobs2 !! other = jobs !! other) /\
  (jobs !! jobId = None -> jobs2 = jobs) /\
  (forall job, jobs !! jobId = Some job ->
     jobs2 !! jobId = Some (spread (spread job first) second)).
Proof.
  intros -> ->. destruct (jobs !! jobId) as [job|] eqn:Hjob.
  - rewrite lookup_insert_eq. split; [|split].
    + intros other Hne. by rewrite !lookup_insert_ne.
    + discriminate.
    + intros ? [= <-]. by rewrite lookup_insert_eq.
  - rewrite Hjob. split; [|split]; [reflexivity..|discriminate].
Qed.

Lemma object_lookup_absent (fields : list (string * JsValue)) (field : string) :
  field ∉ fst <$> fields -> object fields !! field = None.
Proof. intros Hfield. unfold object. by apply not_elem_of_list_to_map_1. Qed.

Lemma failJobWhile_spec (msg : string) (during after : list BatchEvent) (st : MemStorage) :
  let run := VideoProcessor.failJobWhile jobId msg during after st in
  fst run = Throw msg /\
  videoJobs (snd run)
  = match videoJobs st !! jobId with
    | Some job =>
        <[jobId := spread job (object [("status", VString "failed");
                                       ("errorMessage", VString msg)]%string)]> (videoJobs st)
    | None => videoJobs st
    end /\
  exists progress,
    Storage.getProcessingProgress jobId (snd run) = Some progress /\
    progress !! "stage"%string = Some (VString "failed") /\
    progress !! "errorMessage"%string = Some (VString msg).
Proof.
  unfold VideoProcessor.failJobWhile. cbv zeta. cbn [fst snd].
  split; [reflexivity|]. split.
  - by rewrite batchEvents_jobs, updateProgress_jobs, batchEvents_jobs, updateVideoJob_jobs.
  - set (st1 := VideoProcessor.batchEvents jobId during _).
    set (report := object _).
    destruct (batchEvents_progress after (VideoProcessor.updateProgress jobId report st1)
                (spread (default (Storage.initialProgress jobId)
                                 (Storage.getProcessingProgress jobId st1)) report))
      as (progress & Hget & Hsame); [apply updateProgress_progress|].
    exists progress. split; [exact Hget|].
    rewrite !Hsame
      by (rewrite !not_elem_of_cons; repeat split; try discriminate; apply not_elem_of_nil).
    unfold spread. by split; apply lookup_union_Some_l.
Qed.

(** X28: however a run of [processVideo] ends, it touches no other job and
    creates no job record; it returns the path of the archive exactly when
    it leaves the job [completed] with progress 100 and that path as
    [outputZipPath]; and every error, from the metadata, a batch or the
    archive, is thrown again after the job is marked [failed] with the
    message of that error, its [outputZipPath] left as it was.  The stored
    progress ends in the stage [completed] or [failed] accordingly, whatever
    the batches still running report afterwards. *)
Theorem processVideo_outcome (st : MemStorage) :
  let run := VideoProcessor.processVideo E file env jobId maskData settings st in
  (forall other, other <> jobId -> videoJobs (snd run) !! other = videoJobs st !! other) /\
  (videoJobs st !! jobId = None -> videoJobs (snd run) = videoJobs st) /\
  (forall job, videoJobs st !! jobId = Some job ->
     exists job',
       videoJobs (snd run) !! jobId = Some job' /\
       match fst run with
       | Ok path =>
           path = zipPath env /\
           job' !! "status"%string = Some (VString "completed") /\
           job' !! "progress"%string = Some (VNumber 100) /\
           job' !! "outputZipPath"%string = Some (VString path)
       | Throw msg =>
           job' !! "status"%string = Some (VString "failed") /\
           job' !! "errorMessage"%string = Some (VString msg) /\
           job' !! "outputZipPath"%string = job !! "outputZipPath"%string
       end) /\
  (exists progress,
     Storage.getProcessingProgress jobId (snd run) = Some progress /\
     match fst run with
     | Ok _ =>
         progress !! "stage"%string = Some (VString "completed") /\
         progress !! "progress"%string = Some (VNumber 100)
     | Throw msg =>
         progress !! "stage"%string = Some (VString "failed") /\
         progress !! "errorMessage"%string = Some (VString msg)
     end).
Proof.
  cbv zeta. unfold VideoProcessor.processVideo, VideoProcessor.failJob.
  destruct (Metadata.extractVideoMetadata file (probe env)) as [metadata|msg].
  2: { match goal with
       | |- context [VideoProcessor.failJobWhile jobId msg [] [] ?s] =>
           destruct (failJobWhile_spec msg [] [] s) as (Hres & Hjobs & Hprogress)
       end.
       cbv zeta in Hres, Hjobs, Hprogress. rewrite Hres, Hjobs.
       rewrite updateProgress_jobs.
       split; [|split; [|split]].
       - intros other Hne. destruct (videoJobs st !! jobId); [|reflexivity].
         by rewrite lookup_insert_ne.
       - by intros ->.
       - intros job ->. eexists. split; [apply lookup_insert_eq|].
         unfold spread.
         split; [by apply lookup_union_Some_l|]. split; [by apply lookup_union_Some_l|].
         by apply lookup_union_r.
       - exact Hprogress. }
  match goal with
  | |- context [Storage.updateVideoJob jobId ?updates
                  (VideoProcessor.updateProgress jobId ?progress st)] =>
      set (processing := updates);
      set (st0 := VideoProcessor.updateProgress jobId progress st)
  end.
  set (st1 := snd (Storage.updateVideoJob jobId processing st0)).
  set (st2 := VideoProcessor.updateProgress jobId _ st1).
  set (batches := createFrameBatches _ _).
  set (st3 := VideoProcessor.createBatchRecords env jobId batches st2).
  set (st4 := VideoProcessor.batchEvents jobId (eventsWhileRunning env) st3).
  assert (videoJobs st4
          = match videoJobs st !! jobId with
            | Some job => <[jobId := spread job processing]> (videoJobs st)
            | None => videoJobs st
            end) as Hjobs4.
  { subst st4 st3 st2 st1 st0.
    by rewrite batchEvents_jobs, createBatchRecords_jobs, updateProgress_jobs,
         updateVideoJob_jobs, updateProgress_jobs. }
  clearbody st4. clear st0 st1 st2 st3.
  destruct (processBatchesInParallel _ _ _ _ _) as [processedFrames|msg0].
  2: { set (msg := default msg0 _).
       destruct (failJobWhile_spec msg (eventsDuringCatch env) (eventsAfterCatch env) st4)
         as (Hres & Hjobs & Hprogress).
       cbv zeta in Hres, Hjobs, Hprogress. rewrite Hres.
       destruct (jobs_updated_twice _ _ _ _ _ Hjobs4 Hjobs) as (Hother & Hnone & Hjob).
       split; [exact Hother|]. split; [exact Hnone|]. split; [|exact Hprogress].
       intros job Hstored. eexists. split; [by apply Hjob|]. unfold spread.
       split; [by apply lookup_union_Some_l|]. split; [by apply lookup_union_Some_l|].
       rewrite !lookup_union_r; [reflexivity|apply object_lookup_absent..];
         cbn [fmap list_fmap fst]; rewrite !not_elem_of_cons;
         repeat split; try discriminate; apply not_elem_of_nil. }
  set (st5 := VideoProcessor.updateProgress jobId _ st4).
  assert (videoJobs st5 = videoJobs st4) as Hjobs5 by reflexivity.
  rewrite Hjobs4 in Hjobs5. clearbody st5.
  destruct (sendArchive env _) as [[]|msg].
  2: { destruct (failJobWhile_spec msg [] [] st5) as (Hres & Hjobs & Hprogress).
       cbv zeta in Hres, Hjobs, Hprogress. rewrite Hres.
       destruct (jobs_updated_twice _ _ _ _ _ Hjobs5 Hjobs) as (Hother & Hnone & Hjob).
       split; [exact Hother|]. split; [exact Hnone|]. split; [|exact Hprogress].
       intros job Hstored. eexists. split; [by apply Hjob|]. unfold spread.
       split; [by apply lookup_union_Some_l|]. split; [by apply lookup_union_Some_l|].
       rewrite !lookup_union_r; [reflexivity|apply object_lookup_absent..];
         cbn [fmap list_fmap fst]; rewrite !not_elem_of_cons;
         repeat split; try discriminate; apply not_elem_of_nil. }
  cbn [fst snd]. rewrite updateProgress_jobs.
  match goal with
  | |- context [Storage.updateVideoJob jobId ?updates st5] =>
      destruct (jobs_updated_twice _ _ _ _ _ Hjobs5 (updateVideoJob_jobs updates st5))
        as (Hother & Hnone & Hjob)
  end.
  split; [exact Hother|]. split; [exact Hnone|]. split.
  - intros job Hstored. eexists. split; [by apply Hjob|]. unfold spread.
    split; [reflexivity|]. by repeat split; apply lookup_union_Some_l.
  - eexists. split; [apply updateProgress_progress|]. unfold spread.
    by split; apply lookup_union_Some_l.
Qed.

Lemma filter_all {A} (P : A -> Prop) `{forall x, Decision (P x)} (l : list A) :
  Forall P l -> filter P l = l.
Proof.
  induction 1 as [|x l Hx _ IH]; [reflexivity|].
  rewrite filter_cons. destruct (decide (P x)); [by rewrite IH | contradiction].
Qed.

Lemma mapGet_absent {V} (key : string) (m : list (string * V)) :
  key ∉ fst <$> m -> mapGet key m = None.
Proof.
  induction m as [|[k v] m IH]; [reflexivity|].
  cbn [fmap list_fmap fst mapGet]. rewrite not_elem_of_cons. intros [Hne Hnotin].
  destruct (String.eqb_spec k key) as [->|]; [contradiction | by apply IH].
Qed.

Lemma failJobWhile_batches (msg : string) (during after : list BatchEvent) (st : MemStorage) :
  mapGet VideoProcessor.batchRecordKey (frameBatches st) = None ->
  frameBatches (snd (VideoProcessor.failJobWhile jobId msg during after st))
  = frameBatches st.
Proof.
  intros Hkey. unfold VideoProcessor.failJobWhile. cbv zeta. cbn [snd].
  rewrite batchEvents_batches; rewrite updateProgress_batches.
  - rewrite batchEvents_batches; rewrite updateVideoJob_batches; [reflexivity | exact Hkey].
  - rewrite batchEvents_batches; rewrite updateVideoJob_batches; exact Hkey.
Qed.

(** The record stored for a batch. *)
Lemma batchRecord_stored (id : string) (i : nat) (batch : Batch) (st : MemStorage) :
  let record := fst (Storage.createFrameBatch id (VideoProcessor.batchRecord jobId i batch) st) in
  record !! "jobId"%string = Some (VString jobId) /\
  record !! "id"%string = Some (VString id) /\
  record !! "startFrame"%string = Some (VNumber (inject_Z (Z.of_nat (batchStart batch)))) /\
  record !! "endFrame"%string = Some (VNumber (inject_Z (Z.of_nat (batchEnd batch)))) /\
  record !! "status"%string = Some (VString "pending") /\
  record !! "processedAt"%string = Some VNull.
Proof.
  cbn. unfold spread, VideoProcessor.batchRecord, object.
  cbn [list_to_map foldr fst snd].
  repeat split.
Qed.

Lemma batch_record_ids (batches : list Batch) :
  fst <$> imap (fun i batch => (batchId env i, VideoProcessor.batchRecord jobId i batch))
               batches
  = batchId env <$> seq 0 (length batches).
Proof.
  apply list_eq. intros i.
  rewrite !list_lookup_fmap, list_lookup_imap.
  destruct (batches !! i) as [batch|] eqn:Hbatch; cbn [fmap option_fmap option_map].
  - rewrite lookup_seq_lt by (by eapply lookup_lt_Some). reflexivity.
  - rewrite lookup_seq_ge by (by apply lookup_ge_None). reflexivity.
Qed.

Lemma stored_records_lookup (batches : list Batch) (st : MemStorage) (i : nat) :
  ((fun insert : string * JsObject =>
      fst (Storage.createFrameBatch (fst insert) (snd insert) st))
     <$> imap (fun i batch => (batchId env i, VideoProcessor.batchRecord jobId i batch))
              batches) !! i
  = (fun batch => fst (Storage.createFrameBatch (batchId env i)
                         (VideoProcessor.batchRecord jobId i batch) st))
      <$> batches !! i.
Proof.
  rewrite list_lookup_fmap, list_lookup_imap. by destruct (batches !! i).
Qed.

(** X29: once the metadata of the file is read, a run of [processVideo]
    adds one record for every batch to those [getFrameBatches] lists for the
    job, in the order of the batches and with their frame ranges, and every
    one of them is still [pending] with [processedAt] [null] when the run is
    over, whether the job completed or failed: the update a finished batch
    makes is addressed to the identifier [[object Object]], which no record
    has. *)
Theorem batch_records_stay_pending (st : MemStorage) (metadata : VideoMetadata) :
  Metadata.extractVideoMetadata file (probe env) = Ok metadata ->
  let batches := createFrameBatches (Z.to_nat (videoTotalFrames metadata))
                                    (batchSizeOf settings) in
  NoDup (batchId env <$> seq 0 (length batches)) ->
  (forall i, (i < length batches)%nat ->
     mapGet (batchId env i) (frameBatches st) = None /\
     batchId env i <> VideoProcessor.batchRecordKey) ->
  mapGet VideoProcessor.batchRecordKey (frameBatches st) = None ->
  let st' := snd (VideoProcessor.processVideo E file env jobId maskData settings st) in
  exists records,
    Storage.getFrameBatches jobId st' = Storage.getFrameBatches jobId st ++ records /\
    length records = length batches /\
    forall i batch, batches !! i = Some batch ->
      exists record,
        records !! i = Some record /\
        record !! "id"%string = Some (VString (batchId env i)) /\
        record !! "startFrame"%string
        = Some (VNumber (inject_Z (Z.of_nat (batchStart batch)))) /\
        record !! "endFrame"%string
        = Some (VNumber (inject_Z (Z.of_nat (batchEnd batch)))) /\
        record !! "status"%string = Some (VString "pending") /\
        record !! "processedAt"%string = Some VNull.
Proof.
  intros Hmetadata batches Hnodup Hids Hkey st'.
  set (inserts := imap (fun i batch => (batchId env i, VideoProcessor.batchRecord jobId i batch))
                       batches).
  set (stored := fun insert : string * JsObject =>
                   fst (Storage.createFrameBatch (fst insert) (snd insert) st)).
  assert (forall id, id ∈ fst <$> inserts ->
            mapGet id (frameBatches st) = None /\ id <> VideoProcessor.batchRecordKey)
    as Hfresh.
  { intros id. subst inserts. rewrite batch_record_ids.
    intros (i & -> & Hi)%list_elem_of_fmap. apply Hids. apply elem_of_seq in Hi. lia. }
  assert (frameBatches st' = frameBatches st ++ ((fun insert => (fst insert, stored insert))
                                                   <$> inserts)) as Hbatches.
  { subst st'. unfold VideoProcessor.processVideo, VideoProcessor.failJob.
    rewrite Hmetadata. fold batches.
    match goal with
    | |- context [VideoProcessor.createBatchRecords env jobId batches ?s] =>
        set (st2 := s);
        assert (frameBatches st2 = frameBatches st) as Hst2
          by (subst st2; by rewrite updateProgress_batches, updateVideoJob_batches)
    end.
    set (st3 := VideoProcessor.createBatchRecords env jobId batches st2).
    assert (frameBatches st3 = frameBatches st ++ ((fun insert => (fst insert, stored insert))
                                                     <$> inserts)) as Hst3.
    { subst st3. unfold VideoProcessor.createBatchRecords. fold inserts.
      rewrite createFrameBatches_append, Hst2.
      - reflexivity.
      - subst inserts. by rewrite batch_record_ids.
      - intros id Hid. rewrite Hst2. by apply Hfresh. }
    assert (mapGet VideoProcessor.batchRecordKey (frameBatches st3) = None) as Hkey3.
    { rewrite Hst3, mapGet_app, Hkey. apply mapGet_absent.
      rewrite <- list_fmap_compose. intros Hin. by apply Hfresh in Hin as [_ Hne]. }
    set (st4 := VideoProcessor.batchEvents jobId (eventsWhileRunning env) st3).
    assert (frameBatches st4 = frameBatches st3) as Hst4
      by (subst st4; by apply batchEvents_batches).
    clearbody st4.
    destruct (processBatchesInParallel _ _ _ _ _) as [processedFrames|msg0].
    2: { rewrite failJobWhile_batches; rewrite Hst4; [exact Hst3 | exact Hkey3]. }
    destruct (sendArchive env _) as [[]|msg].
    2: { rewrite failJobWhile_batches; rewrite updateProgress_batches, Hst4;
           [exact Hst3 | exact Hkey3]. }
    cbn [snd]. by rewrite updateProgress_batches, updateVideoJob_batches,
                    updateProgress_batches, Hst4. }
  exists (stored <$> inserts). split; [|split].
  - unfold Storage.getFrameBatches. rewrite Hbatches, fmap_app, filter_app. f_equal.
    rewrite <- list_fmap_compose. change (snd ∘ _) with stored.
    apply filter_all, Forall_lookup. intros i record Hrecord.
    subst stored inserts. rewrite stored_records_lookup in Hrecord.
    destruct (batches !! i) as [batch|]; [|discriminate Hrecord].
    cbn [fmap option_fmap option_map] in Hrecord.
    replace record with (fst (Storage.createFrameBatch (batchId env i)
                                (VideoProcessor.batchRecord jobId i batch) st))
      by congruence.
    destruct (batchRecord_stored (batchId env i) i batch st) as (Hjob & _).
    cbv zeta in Hjob. rewrite Hjob. apply String.eqb_refl.
  - subst inserts. by rewrite length_fmap, length_imap.
  - intros i batch Hbatch. eexists. split.
    + subst stored inserts. rewrite stored_records_lookup, Hbatch. reflexivity.
    + exact (proj2 (batchRecord_stored (batchId env i) i batch st)).
Qed.

End ProcessVideoFacts.

Lemma processVideo_outcome_witness :
  let st := {| videoJobs := {["job-1"%string := object [("status", VString "uploaded")]%string]};
               frameBatches := [];
               processingProgress := ∅ |} in
  let run := VideoProcessor.processVideo shortVideoCollaborators dicomFile exampleEnvironment
               "job-1" exampleMask exampleSettings st in
  fst run = Ok "output/job-1.zip"%string /\
  exists job',
    videoJobs (snd run) !! "job-1"%string = Some job' /\
    job' !! "status"%string = Some (VString "completed").
Proof.
  intros st run.
  assert (fst run = Ok "output/job-1.zip"%string) as Hrun by (vm_compute; reflexivity).
  split; [exact Hrun|].
  destruct (processVideo_outcome shortVideoCollaborators dicomFile exampleEnvironment
              "job-1" exampleMask exampleSettings st) as (_ & _ & Hjob & _).
  destruct (Hjob (object [("status", VString "uploaded")]%string) eq_refl)
    as (job' & Hstored & Hfields).
  fold run in Hstored, Hfields. rewrite Hrun in Hfields.
  exists job'. split; [exact Hstored | apply Hfields].
Defined.


Lemma batch_records_stay_pending_witness :
  let st := {| videoJobs := {["job-1"%string := object [("status", VString "uploaded")]%string]};
               frameBatches := [];
               processingProgress := ∅ |} in
  let run := VideoProcessor.processVideo shortVideoCollaborators dicomFile exampleEnvironment
               "job-1" exampleMask exampleSettings st in
  fst run = Ok "output/job-1.zip"%string /\
  exists records,
    Storage.getFrameBatches "job-1" (snd run) = Storage.getFrameBatches "job-1" st ++ records /\
    length records = 1%nat.
Proof.
  intros st run. split; [vm_compute; reflexivity|].
  destruct (batch_records_stay_pending shortVideoCollaborators dicomFile exampleEnvironment
              "job-1" exampleMask exampleSettings st
              {| videoDuration := 2; videoWidth := 2; videoHeight := 1;
                 videoFrameRate := 1; videoTotalFrames := 2 |})
    as (records & Hlist & Hlength & _).
  - reflexivity.
  - change (NoDup ["batch-0"%string]). apply NoDup_singleton.
  - change (forall i, (i < 1)%nat ->
              mapGet (batchId exampleEnvironment i) (frameBatches st) = None /\
              batchId exampleEnvironment i <> VideoProcessor.batchRecordKey).
    intros i Hi. split; [reflexivity|].
    replace i with 0%nat by lia. discriminate.
  - reflexivity.
  - exists records. split; [exact Hlist | exact Hlength].
Defined.

(** ** Background extraction *)

Lemma storeBatchFrames_snoc (batch : Batch) (frames : list (list Z)) (frame : list Z)
    (store : gmap nat (list Z)) :
  VideoProcessor.storeBatchFrames batch (frames ++ [frame]) store
  = <[(batchStart batch + length frames)%nat := frame]>
      (VideoProcessor.storeBatchFrames batch frames store).
Proof.
  unfold VideoProcessor.storeBatchFrames.
  rewrite imap_app, foldl_app. cbn [imap foldl fst snd compose].
  by rewrite Nat.add_0_r.
Qed.

Lemma storeBatchFrames_lookup (batch : Batch) (frames : list (list Z))
    (store : gmap nat (list Z)) (n : nat) :
  VideoProcessor.storeBatchFrames batch frames store !! n
  = if (batchStart batch <=? n)%nat && (n <? batchStart batch + length frames)%nat
    then frames !! (n - batchStart batch)%nat
    else store !! n.
Proof.
  induction frames as [|frame frames IH] using rev_ind.
  - cbn [length]. rewrite Nat.add_0_r.
    destruct (Nat.leb_spec (batchStart batch) n), (Nat.ltb_spec n (batchStart batch));
      try reflexivity; lia.
  - rewrite storeBatchFrames_snoc, length_app. cbn [length].
    destruct (Nat.eq_dec n (batchStart batch + length frames)%nat) as [->|Hne].
    + rewrite lookup_insert_eq.
      replace (batchStart batch + length frames - batchStart batch)%nat
        with (length frames + 0)%nat by lia.
      rewrite lookup_app_r, Nat.add_0_r, Nat.sub_diag by lia.
      destruct (Nat.leb_spec (batchStart batch) (batchStart batch + length frames)%nat),
               (Nat.ltb_spec (batchStart batch + length frames)%nat
                             (batchStart batch + (length frames + 1))%nat);
        try reflexivity; lia.
    + rewrite lookup_insert_ne by lia. rewrite IH.
      destruct (Nat.leb_spec (batchStart batch) n),
               (Nat.ltb_spec n (batchStart batch + length frames)%nat),
               (Nat.ltb_spec n (batchStart batch + (length frames + 1))%nat);
        cbn [andb]; try reflexivity; try lia.
      by rewrite lookup_app_l by lia.
Qed.

Lemma storeBatchFrames_size (batch : Batch) (frames : list (list Z))
    (store : gmap nat (list Z)) :
  (forall n, (batchStart batch <= n)%nat -> store !! n = None) ->
  size (VideoProcessor.storeBatchFrames batch frames store)
  = (size store + length frames)%nat.
Proof.
  intros Hfree. induction frames as [|frame frames IH] using rev_ind.
  - cbn. lia.
  - rewrite storeBatchFrames_snoc, length_app, map_size_insert_None, IH; [cbn; lia|].
    rewrite storeBatchFrames_lookup.
    destruct (Nat.ltb_spec (batchStart batch + length frames)%nat
                           (batchStart batch + length frames)%nat); [lia|].
    rewrite andb_false_r. apply Hfree. lia.
Qed.

Lemma length_extractFrameBatch (E : Collaborators) (file : FrameFile)
    (startFrame endFrame : nat) (frames : list (list Z)) :
  FrameExtractor.extractFrameBatch E file startFrame endFrame = Ok frames ->
  (length frames <= S endFrame - startFrame)%nat.
Proof.
  unfold FrameExtractor.extractFrameBatch.
  destruct (FrameExtractor.isDicomFile file).
  - intros [= <-]. by rewrite length_fmap, length_seq.
  - destruct (ffmpegRun file startFrame endFrame) as [[]|]; [|discriminate].
    cbn [mbind Exc_bind mret Exc_ret]. intros [= <-].
    etransitivity; [apply length_omap_le|]. by rewrite length_seq.
Qed.

Lemma foldl_invariant {A B} (Inv : nat -> A -> Prop) (f : A -> B -> A) (l : list B) (a : A) :
  Inv 0%nat a ->
  (forall i x a, l !! i = Some x -> Inv i a -> Inv (S i) (f a x)) ->
  Inv (length l) (foldl f a l).
Proof.
  intros Hstart Hstep. induction l as [|x l IH] using rev_ind; [exact Hstart|].
  rewrite foldl_app, length_app. cbn [foldl length]. rewrite Nat.add_1_r.
  apply (Hstep (length l)).
  - by rewrite lookup_app_r, Nat.sub_diag by lia.
  - apply IH. intros i y b Hy. apply Hstep. by apply lookup_app_l_Some.
Qed.

Section BackgroundFrames.
Variable E : Collaborators.
Variable file : FrameFile.
Variable statusText readyText : nat -> string.
Variable jobId : string.
Variable totalFrames : nat.

(** What holds of the extraction after the first [i] batches. *)
Lemma extractBatch_invariant (start : ExtractionRun) :
  frameStore start = ∅ -> extractedFrames start = 0%nat ->
  let done := foldl (VideoProcessor.extractBatch E file statusText jobId totalFrames)
                    start (createFrameBatches totalFrames 15) in
  size (frameStore done) = extractedFrames done /\
  (forall n, is_Some (frameStore done !! n) -> (n < totalFrames)%nat) /\
  (FrameExtractor.isDicomFile file = true ->
   forall n, (n < totalFrames)%nat ->
     frameStore done !! n
     = Some (catch (FrameExtractor.extractDicomFrame E file (Z.of_nat n))
                   (fun _ => FrameExtractor.extractDicomImage E file))) /\
  videoJobs (extractionStore done) = videoJobs (extractionStore start).
Proof.
  intros Hempty Hzero done.
  set (Inv := fun (i : nat) (acc : ExtractionRun) =>
    size (frameStore acc) = extractedFrames acc /\
    (forall n, is_Some (frameStore acc !! n) -> (n < Nat.min (i * 15) totalFrames)%nat) /\
    (FrameExtractor.isDicomFile file = true ->
     forall n, (n < Nat.min (i * 15) totalFrames)%nat ->
       frameStore acc !! n
       = Some (catch (FrameExtractor.extractDicomFrame E file (Z.of_nat n))
                     (fun _ => FrameExtractor.extractDicomImage E file))) /\
    videoJobs (extractionStore acc) = videoJobs (extractionStore start)).
  assert (Inv (length (createFrameBatches totalFrames 15)) done) as Hdone.
  { apply foldl_invariant.
    - unfold Inv. rewrite Hempty, Hzero. split; [apply map_size_empty|].
      split; [|split; [|reflexivity]].
      + intros n [frame Hframe]. by rewrite lookup_empty in Hframe.
      + intros _ n Hn. cbn in Hn. lia.
    - intros i batch acc Hbatch (Hsize & Hkeys & Hdicom & Hjobs).
      unfold createFrameBatches in Hbatch.
      rewrite createFrameBatchesFrom_lookup in Hbatch by lia.
      rewrite Nat.add_0_l in Hbatch.
      destruct (Nat.ltb_spec (i * 15) totalFrames) as [Hi|]; [|discriminate Hbatch].
      injection Hbatch as <-. unfold VideoProcessor.extractBatch.
      cbn [batchStart batchEnd].
      set (batch := {| batchStart := (i * 15)%nat;
                       batchEnd := Nat.min (i * 15 + 15 - 1) (totalFrames - 1) |}).
      destruct (FrameExtractor.extractFrameBatch E file (i * 15)
                  (Nat.min (i * 15 + 15 - 1) (totalFrames - 1)))
        as [frames|msg] eqn:Hrun.
      + pose proof (length_extractFrameBatch _ _ _ _ _ Hrun) as Hlength.
        unfold Inv. cbv zeta. cbn [frameStore extractedFrames extractionStore].
        split; [|split; [|split]].
        * rewrite storeBatchFrames_size, Hsize; [reflexivity|].
          intros n Hn. destruct (frameStore acc !! n) eqn:Hstored; [|reflexivity].
          assert (n < Nat.min (i * 15) totalFrames)%nat by (apply Hkeys; by eexists).
          cbn [batchStart batch] in Hn. lia.
        * intros n. rewrite storeBatchFrames_lookup. cbn [batchStart batch].
          destruct (Nat.leb_spec (i * 15) n),
                   (Nat.ltb_spec n (i * 15 + length frames)); cbn [andb].
          -- intros _. lia.
          -- intros Hn%Hkeys. lia.
          -- intros Hn%Hkeys. lia.
          -- intros Hn%Hkeys. lia.
        * intros Hfile n Hn. rewrite storeBatchFrames_lookup. cbn [batchStart batch].
          unfold FrameExtractor.extractFrameBatch in Hrun. rewrite Hfile in Hrun.
          injection Hrun as <-. rewrite length_fmap, length_seq.
          destruct (Nat.leb_spec (i * 15) n),
                   (Nat.ltb_spec n (i * 15 +
                      (S (Nat.min (i * 15 + 15 - 1) (totalFrames - 1)) - (i * 15))));
            cbn [andb]; try lia.
          -- rewrite list_lookup_fmap, lookup_seq_lt by lia. cbn [fmap option_fmap option_map].
             do 3 f_equal. lia.
          -- apply Hdicom; [exact Hfile | lia].
        * rewrite updateProgress_jobs. exact Hjobs.
      + unfold Inv. split; [exact Hsize|]. split; [|split; [|exact Hjobs]].
        * intros n Hn%Hkeys. lia.
        * intros Hfile.
          destruct (extractFrameBatch_dicom E file (i * 15)
                      (Nat.min (i * 15 + 15 - 1) (totalFrames - 1)) Hfile)
            as (frames & Hok & _).
          rewrite Hok in Hrun. discriminate Hrun. }
  assert (Nat.min (length (createFrameBatches totalFrames 15) * 15) totalFrames = totalFrames)
    as Hall.
  { pose proof (createFrameBatchesFrom_lookup totalFrames 0 totalFrames 15
                  (length (createFrameBatches totalFrames 15))) as Hend.
    fold (createFrameBatches totalFrames 15) in Hend.
    rewrite lookup_ge_None_2 in Hend by lia.
    destruct (Nat.ltb_spec (0 + length (createFrameBatches totalFrames 15) * 15) totalFrames);
      [|lia].
    discriminate Hend; lia. }
  unfold Inv in Hdone. rewrite Hall in Hdone. exact Hdone.
Qed.

(** X30: background extraction always ends with the job [ready] and the
    stored progress at the stage [ready] with an extraction progress of 100,
    however many batches failed, and the frame count it reports is the
    number of frames it left in the store of the job.  Every frame is stored
    under a number below [totalFrames], and for a DICOM file the store holds
    every frame from 0 to [totalFrames - 1] under its own number.  The frame
    stores of the other jobs are left as they were. *)
Theorem background_extraction_ends_ready (globalFrames : gmap string (gmap nat (list Z)))
    (st : MemStorage) :
  let run := VideoProcessor.startBackgroundFrameExtraction E file statusText readyText
               jobId totalFrames globalFrames st in
  exists frames,
    fst run !! jobId = Some frames /\
    (forall other, other <> jobId -> fst run !! other = globalFrames !! other) /\
    (forall n, is_Some (frames !! n) -> (n < totalFrames)%nat) /\
    (FrameExtractor.isDicomFile file = true ->
     forall n, (n < totalFrames)%nat ->
       frames !! n
       = Some (catch (FrameExtractor.extractDicomFrame E file (Z.of_nat n))
                     (fun _ => FrameExtractor.extractDicomImage E file))) /\
    (forall job, videoJobs st !! jobId = Some job ->
       exists job',
         videoJobs (snd run) !! jobId = Some job' /\
         job' !! "status"%string = Some (VString "ready")) /\
    exists progress,
      Storage.getProcessingProgress jobId (snd run) = Some progress /\
      progress !! "stage"%string = Some (VString "ready") /\
      progress !! "currentFrame"%string
      = Some (VNumber (inject_Z (Z.of_nat (size frames)))) /\
      progress !! "extractionProgress"%string = Some (VNumber 100).
Proof.
  unfold VideoProcessor.startBackgroundFrameExtraction. cbv zeta. cbn [fst snd].
  match goal with
  | |- context [foldl _ ?s _] => set (start := s)
  end.
  destruct (extractBatch_invariant start eq_refl eq_refl)
    as (Hsize & Hkeys & Hdicom & Hjobs).
  set (done := foldl _ start _) in *.
  exists (frameStore done). split; [apply lookup_insert_eq|].
  split; [intros other Hne; by apply lookup_insert_ne|].
  split; [exact Hkeys|]. split; [exact Hdicom|]. split.
  - intros job Hjob. rewrite updateProgress_jobs.
    subst start. cbn [extractionStore] in Hjobs.
    rewrite updateProgress_jobs, updateVideoJob_jobs in Hjobs.
    match goal with
    | |- context [Storage.updateVideoJob jobId ?updates (extractionStore done)] =>
        destruct (jobs_updated_twice jobId _ _ _ _ _ Hjobs
                    (updateVideoJob_jobs jobId updates (extractionStore done)))
          as (_ & _ & Hready)
    end.
    eexists. split; [by apply Hready|].
    unfold spread. by apply lookup_union_Some_l.
  - eexists. split; [apply updateProgress_progress|].
    rewrite Hsize. unfold spread. by repeat split; apply lookup_union_Some_l.
Qed.

End BackgroundFrames.

Lemma background_extraction_ends_ready_witness :
  let st := {| videoJobs := {["job-1"%string := object [("status", VString "uploaded")]%string]};
               frameBatches := [];
               processingProgress := ∅ |} in
  let run := VideoProcessor.startBackgroundFrameExtraction quietCollaborators dicomFile
               (fun _ => "Extracted"%string) (fun _ => "Ready for masking"%string)
               "job-1" 2 ∅ st in
  exists frames job',
    fst run !! "job-1"%string = Some frames /\
    frames !! 1%nat
    = Some (catch (FrameExtractor.extractDicomFrame quietCollaborators dicomFile 1)
                  (fun _ => FrameExtractor.extractDicomImage quietCollaborators dicomFile)) /\
    videoJobs (snd run) !! "job-1"%string = Some job' /\
    job' !! "status"%string = Some (VString "ready").
Proof.
  intros st run.
  destruct (background_extraction_ends_ready quietCollaborators dicomFile
              (fun _ => "Extracted"%string) (fun _ => "Ready for masking"%string)
              "job-1" 2 ∅ st)
    as (frames & Hframes & _ & _ & Hdicom & Hjob & _).
  destruct (Hjob (object [("status", VString "uploaded")]%string) eq_refl)
    as (job' & Hstored & Hstatus).
  exists frames, job'. split; [exact Hframes|].
  split; [exact (Hdicom eq_refl 1%nat ltac:(lia))|]. split; [exact Hstored | exact Hstatus].
Defined.
